(** * Todo Canvas (App.tsx): data mapper, derived views and cascade updates

    A shallow embedding of the view-model layer of the task tracker:
    the Firestore document mappers ([toIsoString], [mapTaskDoc],
    [mapProjectDoc]), the derived views ([inboxTasks], [todayTasks],
    [projectTasks]) and the event handlers that mutate the local cache and
    dispatch remote writes ([addQuickTask], [updateTask], the project status
    [onChange] handler).

    Conventions of the model.
    - TypeScript types are erased at run time, so a value read from a stored
      document is a [JsValue]; the casts [as TaskState] check nothing.
    - A JavaScript number is the integer it holds, in [Z]: sort orders are
      integers (10, 20, ...); fractions, NaN and the infinities are outside
      the model.  A sum or a difference is a double again: [numAdd] and
      [numSub] round it to the nearest one, so they are exact where the
      result is a safe integer.
    - A string is held as the bytes of its UTF-8 encoding, which is what a
      literal of this file denotes (a lone surrogate, which is no white
      space, would take the three bytes of the same scheme); [trim] strips
      the white space and the line terminators of ECMAScript, in whatever
      length they are encoded.
    - A handler runs on a [World]: the React state it closes over, the
      chronological log of the effects it has issued and the number of clock
      readings taken so far.  [setTasks]/[setProjects] are taken as applied at
      the call, in program order, and the [tasks] a handler closes over is the
      cache at the time the handler starts.
    - A thrown exception is an [Outcome] of its own; the recursion of
      [getDescendantTasks] is bounded by the depth of the call stack. *)

From Stdlib Require Import List String Ascii ZArith NArith Bool Lia Arith.
From Stdlib Require Import Permutation Sorted DecimalString.
Import ListNotations.

Local Open Scope string_scope.
Local Open Scope list_scope.

(** ** Run-time values of stored documents *)

#[local] Set Warnings "-register-all".

Inductive JsValue : Type :=
| JsUndefined
| JsNull
| JsBool (b : bool)
| JsNumber (n : Z)
| JsString (s : string)
| JsTimestamp (iso : string)
    (* a Firestore Timestamp; [iso] is [toDate().toISOString()] *)
| JsArray (items : list JsValue)
| JsObject (fields : list (string * JsValue)).
    (* a stored map: a plain object, none of whose members is a function *)

(** A document as returned by [docSnap.data()]. *)
Definition Doc : Type := list (string * JsValue).

Fixpoint hasKey (k : string) (fields : list (string * JsValue)) : bool :=
  match fields with
  | [] => false
  | (k', _) :: rest => if String.eqb k k' then true else hasKey k rest
  end.

(** Property read [data.k]: [undefined] when the member is missing. *)
Fixpoint getField (k : string) (fields : list (string * JsValue)) : JsValue :=
  match fields with
  | [] => JsUndefined
  | (k', v) :: rest => if String.eqb k k' then v else getField k rest
  end.

(** [!value] is true on the falsy values. *)
Definition falsy (v : JsValue) : bool :=
  match v with
  | JsUndefined | JsNull => true
  | JsBool b => negb b
  | JsNumber n => Z.eqb n 0
  | JsString s => String.eqb s ""
  | _ => false
  end.

(** The left operand of [??] is dropped exactly on [null] and [undefined]. *)
Definition nullish (v : JsValue) : bool :=
  match v with
  | JsUndefined | JsNull => true
  | _ => false
  end.

Definition coalesce (v dflt : JsValue) : JsValue :=
  if nullish v then dflt else v.

(** ** Outcomes: a call returns or throws *)

Inductive JsError : Type :=
| TypeError (what : string)
| RangeError (what : string).

Inductive Outcome (A : Type) : Type :=
| Returned (a : A)
| Thrown (e : JsError).

Arguments Returned {A} a.
Arguments Thrown {A} e.

(** ** Canonical records *)

Definition TaskState : Type := string.

Definition taskStates : list TaskState := ["inbox"; "today"; "active"; "done"].

Module Task.
Record t : Type := mk {
  id : string;
  text : string;
  projectId : option string;
  parentId : option string;
  state : TaskState;
  createdAt : string;
  updatedAt : string;
  dueAt : option string;
  scheduledAt : option string;
  doneAt : option string;
  order : Z
}.
End Task.

Module Project.
Record t : Type := mk {
  id : string;
  name : string;
  state : string;
  order : Z;
  createdAt : string
}.
End Project.

Abbreviation Task := Task.t.
Abbreviation Project := Project.t.

(** What the mappers return: the members copied from the document keep
    whatever run-time value the document carried. *)
Module MappedTask.
Record t : Type := mk {
  id : string;
  text : JsValue;
  projectId : JsValue;
  parentId : JsValue;
  state : JsValue;
  createdAt : string;
  updatedAt : string;
  dueAt : option string;
  scheduledAt : option string;
  doneAt : option string;
  order : Z
}.
End MappedTask.

Module MappedProject.
Record t : Type := mk {
  id : string;
  name : JsValue;
  state : JsValue;
  order : Z;
  createdAt : string
}.
End MappedProject.

(** ** The data mapper *)

(** [toIsoString]: [null] on a falsy value, the string itself, the ISO
    rendering of a timestamp; on any other object that has a [toDate] member
    the call [value.toDate()] is attempted. *)
Definition toIsoString (value : JsValue) : Outcome (option string) :=
  if falsy value then Returned None
  else match value with
       | JsString s => Returned (Some s)
       | JsTimestamp iso => Returned (Some iso)
       | JsObject fields =>
           if hasKey "toDate" fields
           then Thrown (TypeError "timestamp.toDate is not a function")
           else Returned None
       | _ => Returned None
       end.

(** [typeof v === 'number' ? v : 0] *)
Definition numberOr0 (v : JsValue) : Z :=
  match v with
  | JsNumber n => n
  | _ => 0%Z
  end.

Section Clock.

(** [nowAt k] is what the [k]-th evaluation of [new Date().toISOString()]
    returns. *)
Variable nowAt : nat -> string.

(** [toIsoString(v) ?? nowIso()], with the number of clock readings. *)
Definition isoOrNow (v : JsValue) (clk : nat) : Outcome (string * nat) :=
  match toIsoString v with
  | Thrown e => Thrown e
  | Returned (Some s) => Returned (s, clk)
  | Returned None => Returned (nowAt clk, S clk)
  end.

Definition mapTaskDoc (id : string) (data : Doc) (clk : nat)
  : Outcome (MappedTask.t * nat) :=
  let text := coalesce (getField "text" data) (JsString "") in
  let projectId := coalesce (getField "projectId" data) JsNull in
  let parentId := coalesce (getField "parentId" data) JsNull in
  let state := coalesce (getField "state" data) (JsString "inbox") in
  match isoOrNow (getField "createdAt" data) clk with
  | Thrown e => Thrown e
  | Returned (createdAt, clk1) =>
  match isoOrNow (getField "updatedAt" data) clk1 with
  | Thrown e => Thrown e
  | Returned (updatedAt, clk2) =>
  match toIsoString (getField "dueAt" data) with
  | Thrown e => Thrown e
  | Returned dueAt =>
  match toIsoString (getField "scheduledAt" data) with
  | Thrown e => Thrown e
  | Returned scheduledAt =>
  match toIsoString (getField "doneAt" data) with
  | Thrown e => Thrown e
  | Returned doneAt =>
      Returned
        (MappedTask.mk id text projectId parentId state createdAt updatedAt
           dueAt scheduledAt doneAt (numberOr0 (getField "order" data)),
         clk2)
  end end end end end.

Definition mapProjectDoc (id : string) (data : Doc) (clk : nat)
  : Outcome (MappedProject.t * nat) :=
  let name := coalesce (getField "name" data) (JsString "Untitled") in
  let state := coalesce (getField "state" data) (JsString "active") in
  let order := numberOr0 (getField "order" data) in
  match isoOrNow (getField "createdAt" data) clk with
  | Thrown e => Thrown e
  | Returned (createdAt, clk1) =>
      Returned (MappedProject.mk id name state order createdAt, clk1)
  end.

End Clock.

(** The mapped record read at the type [Task] the collection is declared
    with.  Nothing checks this at run time; the reading is defined when the
    members copied from the document have the declared run-time types. *)
Definition asNullableString (v : JsValue) : option (option string) :=
  match v with
  | JsNull => Some None
  | JsString s => Some (Some s)
  | _ => None
  end.

Definition asTask (m : MappedTask.t) : option Task :=
  match MappedTask.text m, asNullableString (MappedTask.projectId m),
        asNullableString (MappedTask.parentId m), MappedTask.state m with
  | JsString text, Some projectId, Some parentId, JsString state =>
      Some (Task.mk (MappedTask.id m) text projectId parentId state
              (MappedTask.createdAt m) (MappedTask.updatedAt m)
              (MappedTask.dueAt m) (MappedTask.scheduledAt m)
              (MappedTask.doneAt m) (MappedTask.order m))
  | _, _, _, _ => None
  end.

(** ** Array and string helpers used by the handlers and the views *)

Definition optEqb (a b : option string) : bool :=
  match a, b with
  | Some x, Some y => String.eqb x y
  | None, None => true
  | _, _ => false
  end.

(** [ids.includes(x)] *)
Definition includes (ids : list string) (x : string) : bool :=
  existsb (String.eqb x) ids.

(** [Math.max(x, ...rest)] *)
Definition mathMax (x : Z) (rest : list Z) : Z := fold_left Z.max rest x.

(** The double nearest to an integer: integers of at most 53 bits are
    doubles; a longer one keeps its 53 leading bits, rounded to nearest and,
    half-way between two doubles, to the one with the even significand (IEEE
    754 binary64).  The integers of the model stay below the threshold of
    overflow, which the sum of a double and 10 never reaches. *)
Definition roundDouble (z : Z) : Z :=
  let a := Z.abs z in
  let e := (Z.log2 a - 52)%Z in
  if (e <=? 0)%Z then z
  else
    let ulp := (2 ^ e)%Z in
    let q := (a / ulp)%Z in
    let r := (a mod ulp)%Z in
    let significand :=
      if (2 * r <? ulp)%Z then q
      else if (ulp <? 2 * r)%Z then (q + 1)%Z
      else if Z.even q then q else (q + 1)%Z in
    (Z.sgn z * (significand * ulp))%Z.

(** [a + b] and [a - b] on numbers. *)
Definition numAdd (a b : Z) : Z := roundDouble (a + b).

Definition numSub (a b : Z) : Z := roundDouble (a - b).

(** [Array.prototype.sort(cmp)] is stable; for a comparator that is a total
    preorder its result is the one stable sorted arrangement, computed here by
    insertion from the right. *)
Fixpoint insertBy {A : Type} (cmp : A -> A -> Z) (x : A) (l : list A) : list A :=
  match l with
  | [] => [x]
  | y :: l' => if (cmp x y <=? 0)%Z then x :: l else y :: insertBy cmp x l'
  end.

Definition sortBy {A : Type} (cmp : A -> A -> Z) (l : list A) : list A :=
  fold_right (insertBy cmp) [] l.

(** [(a, b) => a.order - b.order]; the sort looks at its sign only. *)
Definition byOrder (a b : Task) : Z := numSub (Task.order a) (Task.order b).

(** *** Text

    [String.prototype.trim] strips from both ends of a string the characters
    of the productions WhiteSpace and LineTerminator of ECMAScript: TAB, LF,
    VT, FF, CR, SP, U+00A0, U+1680, U+2000 to U+200A, U+2028, U+2029, U+202F,
    U+205F, U+3000 and U+FEFF. *)
Definition whiteSpace : list N :=
  [9; 10; 11; 12; 13; 32; 160; 5760;
   8192; 8193; 8194; 8195; 8196; 8197; 8198; 8199; 8200; 8201; 8202;
   8232; 8233; 8239; 8287; 12288; 65279]%N.

Infix "+++" := String.append (right associativity, at level 60).

(** The UTF-8 encoding of a code point. *)
Definition utf8 (c : N) : string :=
  (if c <? 128 then String (ascii_of_N c) ""
   else if c <? 2048 then
     String (ascii_of_N (192 + c / 64)) (String (ascii_of_N (128 + c mod 64)) "")
   else if c <? 65536 then
     String (ascii_of_N (224 + c / 4096))
       (String (ascii_of_N (128 + (c / 64) mod 64))
          (String (ascii_of_N (128 + c mod 64)) ""))
   else
     String (ascii_of_N (240 + c / 262144))
       (String (ascii_of_N (128 + (c / 4096) mod 64))
          (String (ascii_of_N (128 + (c / 64) mod 64))
             (String (ascii_of_N (128 + c mod 64)) ""))))%N.

(** [s] without the leading [p], when it starts with [p]. *)
Fixpoint stripPrefix (p s : string) : option string :=
  match p with
  | EmptyString => Some s
  | String a p' =>
      match s with
      | EmptyString => None
      | String b s' => if Ascii.eqb a b then stripPrefix p' s' else None
      end
  end.

Fixpoint dropOneOf (cs : list N) (s : string) : option string :=
  match cs with
  | [] => None
  | c :: rest =>
      match stripPrefix (utf8 c) s with
      | Some r => Some r
      | None => dropOneOf rest s
      end
  end.

(** The text after its first character, when that is white space. *)
Definition dropWhite (s : string) : option string := dropOneOf whiteSpace s.

(** White space is dropped from the start as long as there is some; [n]
    bounds the number of characters dropped. *)
Fixpoint trimStartFrom (n : nat) (s : string) : string :=
  match n with
  | O => s
  | S n' =>
      match dropWhite s with
      | Some r => trimStartFrom n' r
      | None => s
      end
  end.

Definition trimStart (s : string) : string := trimStartFrom (String.length s) s.

(** The text is white space from start to end (the empty text included). *)
Definition blank (s : string) : bool := String.eqb (trimStart s) "".

(** The text up to the point after which only white space is left. *)
Fixpoint trimEnd (s : string) : string :=
  match s with
  | EmptyString => EmptyString
  | String c s' => if blank s then EmptyString else String c (trimEnd s')
  end.

Definition trim (s : string) : string := trimEnd (trimStart s).

(** Template-literal rendering of a count. *)
Definition showNat (n : nat) : string := NilEmpty.string_of_uint (Nat.to_uint n).

(** ** Derived views *)

Definition inboxTasks (tasks : list Task) : list Task :=
  sortBy byOrder (filter (fun task => String.eqb (Task.state task) "inbox") tasks).

Definition todayTasks (tasks : list Task) : list Task :=
  sortBy byOrder (filter (fun task => String.eqb (Task.state task) "today") tasks).

Definition projectTasks (tasks : list Task) (selectedProjectId : option string)
  : list Task :=
  match selectedProjectId with
  | None => []
  | Some sel =>
      if String.eqb sel "" then []
      else sortBy byOrder
             (filter (fun task => optEqb (Task.projectId task) (Some sel)) tasks)
  end.

(** ** Patches, remote writes and the world a handler runs in *)

(** [Partial<Task>]: [None] is an absent member; for a nullable member
    [Some None] is an explicit [null]. *)
Module Patch.
Record t : Type := mk {
  id : option string;
  text : option string;
  projectId : option (option string);
  parentId : option (option string);
  state : option TaskState;
  createdAt : option string;
  updatedAt : option string;
  dueAt : option (option string);
  scheduledAt : option (option string);
  doneAt : option (option string);
  order : option Z
}.

Definition empty : t :=
  mk None None None None None None None None None None None.

(** [{ state: s }] *)
Definition ofState (s : TaskState) : t :=
  mk None None None None (Some s) None None None None None None.
End Patch.

Abbreviation Patch := Patch.t.

Inductive FieldValue : Type :=
| FServerTimestamp
| FNull
| FString (s : string)
| FNumber (n : Z).

Definition Fields : Type := list (string * FieldValue).

(** Assignment [obj.k = v] on an object literal: replaces the member in
    place, appends it when it is new. *)
Fixpoint setField (k : string) (v : FieldValue) (fs : Fields) : Fields :=
  match fs with
  | [] => [(k, v)]
  | (k', v') :: rest =>
      if String.eqb k k' then (k, v) :: rest else (k', v') :: setField k v rest
  end.

Fixpoint lookupField (k : string) (fs : Fields) : option FieldValue :=
  match fs with
  | [] => None
  | (k', v) :: rest => if String.eqb k k' then Some v else lookupField k rest
  end.

(** [updateDoc(doc(db, coll, docId), fields)] *)
Record Write : Type := mkWrite {
  w_coll : string;
  w_doc : string;
  w_fields : Fields
}.

Inductive ViewMode : Type := ViewInbox | ViewToday | ViewProject.

(** What a handler does to the outside, in the order it does it.
    [UpdateDocs batch] is one [await] on writes that were all dispatched
    before it: a single [updateDoc], or the [Promise.all] of a mapped list. *)
Inductive Effect : Type :=
| SetTasks (next : list Task)
| SetProjects (next : list Project)
| AddDoc (coll : string) (data : Fields)
| UpdateDocs (batch : list Write).

Definition isRemote (e : Effect) : bool :=
  match e with
  | AddDoc _ _ | UpdateDocs _ => true
  | _ => false
  end.

Record World : Type := mkWorld {
  tasks : list Task;
  projects : list Project;
  view : ViewMode;
  quickText : string;
  log : list Effect;
  clock : nat
}.

(** The writes that reached the remote store, oldest first. *)
Definition remoteLog (w : World) : list Effect := filter isRemote (log w).

(** ** Building blocks of the handlers *)

Definition orElse {A : Type} (o : option A) (d : A) : A :=
  match o with
  | Some x => x
  | None => d
  end.

(** [{ ...task, ...patch, doneAt, updatedAt }] *)
Definition spreadPatch (task : Task) (patch : Patch)
  (doneAt : option string) (updatedAt : string) : Task :=
  Task.mk
    (orElse (Patch.id patch) (Task.id task))
    (orElse (Patch.text patch) (Task.text task))
    (orElse (Patch.projectId patch) (Task.projectId task))
    (orElse (Patch.parentId patch) (Task.parentId task))
    (orElse (Patch.state patch) (Task.state task))
    (orElse (Patch.createdAt patch) (Task.createdAt task))
    updatedAt
    (orElse (Patch.dueAt patch) (Task.dueAt task))
    (orElse (Patch.scheduledAt patch) (Task.scheduledAt task))
    doneAt
    (orElse (Patch.order patch) (Task.order task)).

(** [{ ...task, state: 'done', doneAt, updatedAt }] *)
Definition asDone (task : Task) (doneAt updatedAt : string) : Task :=
  Task.mk (Task.id task) (Task.text task) (Task.projectId task)
    (Task.parentId task) "done" (Task.createdAt task) updatedAt
    (Task.dueAt task) (Task.scheduledAt task) (Some doneAt) (Task.order task).

(** [{ ...p, state: newState }] *)
Definition withProjectState (p : Project) (newState : string) : Project :=
  Project.mk (Project.id p) (Project.name p) newState (Project.order p)
    (Project.createdAt p).

Definition nullable (o : option string) : FieldValue :=
  match o with
  | Some s => FString s
  | None => FNull
  end.

Definition member {A : Type} (k : string) (enc : A -> FieldValue) (o : option A)
  : Fields :=
  match o with
  | Some x => [(k, enc x)]
  | None => []
  end.

(** The members of [{ ...patch }]. *)
Definition patchFields (patch : Patch) : Fields :=
  member "id" FString (Patch.id patch) ++
  member "text" FString (Patch.text patch) ++
  member "projectId" nullable (Patch.projectId patch) ++
  member "parentId" nullable (Patch.parentId patch) ++
  member "state" FString (Patch.state patch) ++
  member "createdAt" FString (Patch.createdAt patch) ++
  member "updatedAt" FString (Patch.updatedAt patch) ++
  member "dueAt" nullable (Patch.dueAt patch) ++
  member "scheduledAt" nullable (Patch.scheduledAt patch) ++
  member "doneAt" nullable (Patch.doneAt patch) ++
  member "order" FNumber (Patch.order patch).

(** Truthiness of [patch.state]: present and not the empty string. *)
Definition stateGiven (patch : Patch) : bool :=
  match Patch.state patch with
  | Some s => negb (String.eqb s "")
  | None => false
  end.

(** [{ state: 'done', doneAt: serverTimestamp(), updatedAt: serverTimestamp() }]
    sent to [tasks/taskId]. *)
Definition doneWrite (taskId : string) : Write :=
  mkWrite "tasks" taskId
    [("state", FString "done"); ("doneAt", FServerTimestamp);
     ("updatedAt", FServerTimestamp)].

Definition taskPrompt (n : nat) : string :=
  "This task has " ++ showNat n ++ " incomplete subtask(s). " ++
  "Marking this task as done will also mark all subtasks as done. Continue?".

Definition projectPrompt (n : nat) : string :=
  "This project has " ++ showNat n ++ " incomplete task(s). " ++
  "Marking this project as done will also mark all tasks as done. Continue?".

Definition notDone (t : Task) : bool := negb (String.eqb (Task.state t) "done").

Definition childOf (taskId : string) (t : Task) : bool :=
  optEqb (Task.parentId t) (Some taskId).

(** [prev.map(f)] for a callback that reads the clock: the elements are
    visited left to right and each reading advances the count. *)
Fixpoint mapTasks (f : Task -> nat -> Task * nat) (l : list Task) (clk : nat)
  : list Task * nat :=
  match l with
  | [] => ([], clk)
  | task :: rest =>
      let (task', clk1) := f task clk in
      let (rest', clk2) := mapTasks f rest clk1 in
      (task' :: rest', clk2)
  end.

(** [getDescendantTasks]: the children of [taskId], then the descendants of
    each child in turn.  [stack] is the number of frames the call stack still
    has room for; running out of it throws. *)
Fixpoint getDescendantTasks (stack : nat) (taskId : string) (allTasks : list Task)
  : Outcome (list Task) :=
  match stack with
  | O => Thrown (RangeError "Maximum call stack size exceeded")
  | S stack' =>
      let children := filter (childOf taskId) allTasks in
      fold_left
        (fun acc child =>
           match acc with
           | Thrown e => Thrown e
           | Returned descendants =>
               match getDescendantTasks stack' (Task.id child) allTasks with
               | Thrown e => Thrown e
               | Returned more => Returned (descendants ++ more)
               end
           end)
        children (Returned children)
  end.

(** ** The handlers *)

Section Handlers.

Variable nowAt : nat -> string.

(** [window.confirm]: the user's answer to the prompt shown. *)
Variable window_confirm : string -> bool.

(** [addQuickTask]; [docId] is the identifier the store generates for the
    inserted document ([docRef.id]). *)
Definition addQuickTask (docId : string) (w : World) : World :=
  let trimmed := trim (quickText w) in
  if String.eqb trimmed "" then w
  else
    let rootOrders :=
      map Task.order
        (filter (fun task => optEqb (Task.parentId task) None) (tasks w)) in
    let nextOrder :=
      numAdd
        (match rootOrders with
         | [] => 0%Z
         | x :: rest => mathMax x rest
         end)
        10 in
    let taskData : Fields :=
      [("text", FString trimmed); ("projectId", FString "p-default");
       ("parentId", FNull); ("state", FString "inbox");
       ("createdAt", FServerTimestamp); ("updatedAt", FServerTimestamp);
       ("dueAt", FNull); ("scheduledAt", FNull); ("doneAt", FNull);
       ("order", FNumber nextOrder)] in
    (* const docRef = await addDoc(collection(db, 'tasks'), taskData) *)
    let log1 := log w ++ [AddDoc "tasks" taskData] in
    let newTask :=
      Task.mk docId trimmed (Some "p-default") None "inbox"
        (nowAt (clock w)) (nowAt (S (clock w))) None None None nextOrder in
    (* setTasks((prev) => [...prev, newTask]); setQuickText(''); setView('inbox') *)
    let next := tasks w ++ [newTask] in
    mkWorld next (projects w) ViewInbox "" (log1 ++ [SetTasks next])
      (S (S (clock w))).

(** The updater of the cascade branch of [updateTask]. *)
Definition cascadeStep (allToUpdate : list string) (task : Task) (clk : nat)
  : Task * nat :=
  if negb (includes allToUpdate (Task.id task)) then (task, clk)
  else (asDone task (nowAt clk) (nowAt (S clk)), S (S clk)).

(** The updater of the normal branch of [updateTask]. *)
Definition patchStep (id : string) (patch : Patch) (task : Task) (clk : nat)
  : Task * nat :=
  if negb (String.eqb (Task.id task) id) then (task, clk)
  else
    let doneAt :=
      if stateGiven patch && String.eqb (Task.state task) "done"
      then None else Task.doneAt task in
    (spreadPatch task patch doneAt (nowAt clk), S clk).

Definition updateTask (stack : nat) (id : string) (patch : Patch) (w : World)
  : Outcome World :=
  if optEqb (Patch.state patch) (Some "done") then
    match getDescendantTasks stack id (tasks w) with
    | Thrown e => Thrown e
    | Returned descendants =>
        let incompletedDescendants := filter notDone descendants in
        if (0 <? List.length incompletedDescendants)%nat
           && negb (window_confirm (taskPrompt (List.length incompletedDescendants)))
        then Returned w
        else
          let allToUpdate := id :: map Task.id descendants in
          let (next, clk) :=
            mapTasks (cascadeStep allToUpdate) (tasks w) (clock w) in
          Returned
            (mkWorld next (projects w) (view w) (quickText w)
               (log w ++ [SetTasks next; UpdateDocs (map doneWrite allToUpdate)])
               clk)
    end
  else
    let (next, clk) := mapTasks (patchStep id patch) (tasks w) (clock w) in
    let updates := setField "updatedAt" FServerTimestamp (patchFields patch) in
    let currentTask := find (fun t => String.eqb (Task.id t) id) (tasks w) in
    let updates :=
      if stateGiven patch
         && match currentTask with
            | Some t => String.eqb (Task.state t) "done"
            | None => false
            end
      then setField "doneAt" FNull updates else updates in
    Returned
      (mkWorld next (projects w) (view w) (quickText w)
         (log w ++ [SetTasks next; UpdateDocs [mkWrite "tasks" id updates]])
         clk).

(** The updater of the project cascade. *)
Definition projectStep (selectedProjectId : string) (task : Task) (clk : nat)
  : Task * nat :=
  if negb (optEqb (Task.projectId task) (Some selectedProjectId))
     || String.eqb (Task.state task) "done"
  then (task, clk)
  else (asDone task (nowAt clk) (nowAt (S clk)), S (S clk)).

(** The tail of the status handler: the project's own write, then the
    local project list. *)
Definition commitProjectState (selectedProjectId newState : string) (w : World)
  : World :=
  let updatedProjects :=
    map (fun p => if String.eqb (Project.id p) selectedProjectId
                  then withProjectState p newState else p) (projects w) in
  mkWorld (tasks w) updatedProjects (view w) (quickText w)
    (log w ++ [UpdateDocs [mkWrite "projects" selectedProjectId
                             [("state", FString newState)]];
               SetProjects updatedProjects])
    (clock w).

(** [onChange] of the project status select.  The select is rendered only
    while a project is selected; [selectedProjectId] is that project. *)
Definition onProjectStatusChange (selectedProjectId newState : string)
  (w : World) : World :=
  if String.eqb newState "done" then
    let projectTasks :=
      filter (fun t => optEqb (Task.projectId t) (Some selectedProjectId))
        (tasks w) in
    let incompletedTasks := filter notDone projectTasks in
    if (0 <? List.length incompletedTasks)%nat then
      if negb (window_confirm (projectPrompt (List.length incompletedTasks)))
      then w
      else
        let (next, clk) :=
          mapTasks (projectStep selectedProjectId) (tasks w) (clock w) in
        commitProjectState selectedProjectId newState
          (mkWorld next (projects w) (view w) (quickText w)
             (log w ++ [SetTasks next;
                        UpdateDocs
                          (map (fun task => doneWrite (Task.id task))
                             incompletedTasks)])
             clk)
    else commitProjectState selectedProjectId newState w
  else commitProjectState selectedProjectId newState w.

End Handlers.

(** * Vocabulary of the properties *)

(** The five members that go through [toIsoString]. *)
Definition timestampKeys : list string :=
  ["createdAt"; "updatedAt"; "dueAt"; "scheduledAt"; "doneAt"].

(** A value on which [toIsoString] does not attempt a call to a [toDate]
    that is not there to be called. *)
Definition convertible (v : JsValue) : bool :=
  match v with
  | JsObject fields => negb (hasKey "toDate" fields)
  | _ => true
  end.

Definition timestampsConvertible (data : Doc) : Prop :=
  forall k, In k timestampKeys -> convertible (getField k data) = true.

(** What [toIsoString] returns when it returns. *)
Definition isoOf (v : JsValue) : option string :=
  match v with
  | JsString s => if String.eqb s "" then None else Some s
  | JsTimestamp iso => Some iso
  | _ => None
  end.

Definition ascending (a b : Task) : Prop := (Task.order a <= Task.order b)%Z.

(** The encoding of a text given by its characters. *)
Fixpoint encode (cs : list N) : string :=
  match cs with
  | [] => ""
  | c :: rest => utf8 c +++ encode rest
  end.

(** [s] is empty or consists of white space only. *)
Definition allWhite (s : string) : Prop :=
  exists cs, Forall (fun c => In c whiteSpace) cs /\ s = encode cs.

(** [t] is [s] trimmed: [s] without the white space it starts with and the
    white space it ends with, so that [t] neither starts nor ends with a
    white-space character.  There is one such text ([trimmedOf_unique]). *)
Definition trimmedOf (s t : string) : Prop :=
  (exists l r, allWhite l /\ allWhite r /\ s = l +++ t +++ r) /\
  (forall c rest, In c whiteSpace -> t <> utf8 c +++ rest) /\
  (forall c rest, In c whiteSpace -> t <> rest +++ utf8 c).

(** [Number.MAX_SAFE_INTEGER] and [Number.isSafeInteger]: the integers on
    which the arithmetic of doubles is exact. *)
Definition maxSafeInteger : Z := 9007199254740991.

Definition safeInteger (z : Z) : Prop :=
  (- maxSafeInteger <= z <= maxSafeInteger)%Z.

(** [t] is a descendant of the task [root] in [allTasks]: a child of [root],
    or a child of a descendant of [root]. *)
Inductive descendantOf (allTasks : list Task) (root : string) : Task -> Prop :=
| desc_child (t : Task) :
    In t allTasks -> Task.parentId t = Some root -> descendantOf allTasks root t
| desc_step (c t : Task) :
    descendantOf allTasks root c ->
    In t allTasks -> Task.parentId t = Some (Task.id c) ->
    descendantOf allTasks root t.

(** The loop body of [getDescendantTasks] over the children, one frame
    further down the stack. *)
Definition visit (allTasks : list Task) (stack : nat)
  (acc : Outcome (list Task)) (child : Task) : Outcome (list Task) :=
  match acc with
  | Thrown e => Thrown e
  | Returned descendants =>
      match getDescendantTasks stack (Task.id child) allTasks with
      | Thrown e => Thrown e
      | Returned more => Returned (descendants ++ more)
      end
  end.

(** The parent links form a forest: some rank on identifiers strictly
    decreases from a task to each of its children. *)
Definition ranked (rank : string -> nat) (allTasks : list Task) : Prop :=
  forall t p, In t allTasks -> Task.parentId t = Some p -> rank (Task.id t) < rank p.

(** The records a cascade from [root] is said to reach: [root] itself and
    the records carrying the id of a descendant that satisfies [keep]. *)
Definition cascadeTargets (keep : Task -> bool) (allTasks : list Task)
  (root : string) (t : Task) : Prop :=
  Task.id t = root \/
  exists d, descendantOf allTasks root d /\ keep d = true /\ Task.id d = Task.id t.

(** [after] is [before] with exactly the records in [affected] completed
    (state [done], a completion time set) and every other record as it was. *)
Definition completedExactly (affected : Task -> Prop) (before after : list Task)
  : Prop :=
  Forall2
    (fun t t' =>
       (affected t -> Task.state t' = "done" /\ Task.doneAt t' <> None) /\
       (~ affected t -> t' = t))
    before after.

(** The handler left the task collection, the project collection and the
    remote store as they were. *)
Definition untouched (w w' : World) : Prop :=
  tasks w' = tasks w /\ projects w' = projects w /\ remoteLog w' = remoteLog w.

(** In a run of effects, every remote write comes after a local update. *)
Definition localBeforeRemote (issued : list Effect) : Prop :=
  forall pre e post,
    issued = pre ++ e :: post -> isRemote e = true ->
    exists l, In l pre /\ isRemote l = false.

(** ** Worked data *)

(** A clock for the worked examples: one reading per day. *)
Definition sampleClock (k : nat) : string :=
  "2026-01-" ++ showNat (10 + k) ++ "T09:00:00.000Z".

(** A stored task record with neither [order] nor [state]. *)
Definition bareTaskDoc : Doc := [("text", JsString "Pay rent")].

(** A stored task record whose [state] comes from an older enumeration. *)
Definition legacyTaskDoc : Doc :=
  [("text", JsString "Call the bank"); ("state", JsString "waiting");
   ("order", JsNumber 30);
   ("createdAt", JsTimestamp "2025-12-01T08:00:00.000Z")].

(** A stored task record whose [createdAt] is a map with a [toDate] entry. *)
Definition toDateMapDoc : Doc :=
  [("text", JsString "Pay rent"); ("state", JsString "inbox");
   ("createdAt", JsObject [("toDate", JsNumber 1)])].

(** A task with two children, one of them completed earlier, and an
    unrelated task. *)
Definition tripTasks : list Task :=
  [Task.mk "t-1" "Plan trip" (Some "p-home") None "active"
     "2025-11-01T08:00:00.000Z" "2025-11-01T08:00:00.000Z" None None None 10;
   Task.mk "t-2" "Book flights" (Some "p-home") (Some "t-1") "active"
     "2025-11-01T08:05:00.000Z" "2025-11-01T08:05:00.000Z" None None None 10;
   Task.mk "t-3" "Renew passport" (Some "p-home") (Some "t-1") "done"
     "2025-11-01T08:06:00.000Z" "2025-11-02T10:00:00.000Z" None None
     (Some "2025-11-02T10:00:00.000Z") 20;
   Task.mk "t-4" "Water plants" None None "inbox"
     "2025-11-03T07:00:00.000Z" "2025-11-03T07:00:00.000Z" None None None 20].

(** Three levels: "a" has the children "b" and "d", and "b" has the child
    "c". *)
Definition nestedTasks : list Task :=
  map (fun '(id, parent) =>
         Task.mk id id None parent "active" "" "" None None None 10)
    [("a", None); ("b", Some "a"); ("c", Some "b"); ("d", Some "a")].

Definition homeProjects : list Project :=
  [Project.mk "p-home" "Home" "active" 10 "2025-10-01T08:00:00.000Z"].

Definition tripWorld : World :=
  mkWorld tripTasks homeProjects ViewProject "" [] 0.

Definition tripRank (id : string) : nat :=
  if String.eqb id "t-1" then 1 else 0.

Definition alwaysYes (prompt : string) : bool := true.
Definition alwaysNo (prompt : string) : bool := false.

(** A project with three tasks, two active and one completed earlier, and a
    task of another project. *)
Definition workTasks : list Task :=
  [Task.mk "w-1" "Draft roadmap" (Some "p-work") None "active"
     "2025-11-01T08:00:00.000Z" "2025-11-01T08:00:00.000Z" None None None 10;
   Task.mk "w-2" "Collect notes" (Some "p-work") (Some "w-1") "active"
     "2025-11-01T08:05:00.000Z" "2025-11-01T08:05:00.000Z" None None None 10;
   Task.mk "w-3" "Book room" (Some "p-work") None "done"
     "2025-11-01T08:06:00.000Z" "2025-11-02T10:00:00.000Z" None None
     (Some "2025-11-02T10:00:00.000Z") 20;
   Task.mk "h-1" "Water plants" (Some "p-home") None "inbox"
     "2025-11-03T07:00:00.000Z" "2025-11-03T07:00:00.000Z" None None None 20].

(** The same project when the completed task carries no completion time, as
    a stored record with [state: 'done'] and no [doneAt] is loaded. *)
Definition unstampedTasks : list Task :=
  [Task.mk "w-1" "Draft roadmap" (Some "p-work") None "active"
     "2025-11-01T08:00:00.000Z" "2025-11-01T08:00:00.000Z" None None None 10;
   Task.mk "w-2" "Collect notes" (Some "p-work") (Some "w-1") "active"
     "2025-11-01T08:05:00.000Z" "2025-11-01T08:05:00.000Z" None None None 10;
   Task.mk "w-3" "Book room" (Some "p-work") None "done"
     "2025-11-01T08:06:00.000Z" "2025-11-02T10:00:00.000Z" None None None 20].

(** A stored record of a completed task that has no [doneAt]. *)
Definition unstampedDoc : Doc :=
  [("text", JsString "Book room"); ("projectId", JsString "p-work");
   ("state", JsString "done"); ("order", JsNumber 20);
   ("createdAt", JsTimestamp "2025-11-01T08:06:00.000Z");
   ("updatedAt", JsTimestamp "2025-11-02T10:00:00.000Z")].

Definition workProjects : list Project :=
  [Project.mk "p-home" "Home" "active" 10 "2025-10-01T08:00:00.000Z";
   Project.mk "p-work" "Work" "active" 20 "2025-10-01T08:00:00.000Z"].

Definition workWorld : World :=
  mkWorld workTasks workProjects ViewProject "" [] 0.

Definition unstampedWorld : World :=
  mkWorld unstampedTasks workProjects ViewProject "" [] 0.

Definition quickWorld (typed : string) : World :=
  mkWorld [] workProjects ViewToday typed [] 0.

(** ** Tactics for the worked examples *)

Ltac each_key :=
  let k := fresh "k" in
  let Hk := fresh "Hk" in
  intros k Hk; simpl in Hk;
  repeat (destruct Hk as [<- | Hk]; [reflexivity |]);
  contradiction.

Ltac each_task :=
  let t := fresh "t" in
  let p := fresh "p" in
  let Hin := fresh "Hin" in
  let Hp := fresh "Hp" in
  intros t p Hin Hp; simpl in Hin;
  repeat (destruct Hin as [<- | Hin];
          [simpl in Hp; try discriminate Hp; injection Hp as <-;
           vm_compute; lia |]);
  contradiction.

(** * Further code of the component *)

(** ** The parent selector of a task row *)

(** [potentialParents] of [renderTaskRow]: same project, not the task
    itself, not in the inbox. *)
Definition potentialParents (tasks : list Task) (task : Task) : list Task :=
  filter
    (fun t =>
       optEqb (Task.projectId t) (Task.projectId task)
       && negb (String.eqb (Task.id t) (Task.id task))
       && negb (String.eqb (Task.state t) "inbox"))
    tasks.

(** [{ parentId: event.target.value || null }] *)
Definition parentPatch (value : string) : Patch :=
  Patch.mk None None None
    (Some (if String.eqb value "" then None else Some value))
    None None None None None None None.

(** ** Invariants of the task collection *)

(** Every task in state [done] carries a completion time. *)
Definition stamped (tasks : list Task) : Prop :=
  forall t, In t tasks -> Task.state t = "done" -> Task.doneAt t <> None.

(** The error thrown when the call stack is exhausted. *)
Definition stackOverflow : JsError :=
  RangeError "Maximum call stack size exceeded".

(** Two tasks that are each other's parent. *)
Definition cycleTasks : list Task :=
  map (fun '(id, parent) =>
         Task.mk id id None parent "active" "" "" None None None 10)
    [("a", Some "b"); ("b", Some "a")].

Definition cycleWorld : World := mkWorld cycleTasks [] ViewProject "" [] 0.

Definition nestedWorld : World := mkWorld nestedTasks [] ViewProject "" [] 0.

Definition nestedRank (id : string) : nat :=
  if String.eqb id "a" then 2 else if String.eqb id "b" then 1 else 0.

(** ** The tree renderers *)

(** [l.map(f)] for a callback that may throw: the first exception ends the
    loop. *)
Fixpoint mapOutcome {A B : Type} (f : A -> Outcome B) (l : list A)
  : Outcome (list B) :=
  match l with
  | [] => Returned []
  | x :: rest =>
      match f x with
      | Thrown e => Thrown e
      | Returned y =>
          match mapOutcome f rest with
          | Thrown e => Thrown e
          | Returned ys => Returned (y :: ys)
          end
      end
  end.

(** One [<li>]: the task of the row, whether the row offers the Today and
    the Done button, and what is rendered below it. *)
Record Row (T : Type) : Type := mkRow {
  rowTask : Task;
  todayButton : bool;
  doneButton : bool;
  subtree : T
}.

Arguments mkRow {T} rowTask todayButton doneButton subtree.
Arguments rowTask {T} r.
Arguments todayButton {T} r.
Arguments doneButton {T} r.
Arguments subtree {T} r.

(** What [renderProjectTree] returns: [null], or the list of the active
    rows, the separator shown between the two lists, and the list of the
    completed rows. *)
Inductive TreeView : Type :=
| TreeNull
| TreeLevel (depth : nat) (activeRows : list (Row TreeView))
    (separator : option string) (doneRows : list (Row TreeView)).

(** What [renderTodayTree] returns: [null] or one list of rows. *)
Inductive ListTree : Type :=
| ListNull
| ListLevel (depth : nat) (rows : list (Row ListTree)).

Definition isDone (task : Task) : bool := String.eqb (Task.state task) "done".

Fixpoint renderProjectTree (stack : nat) (projectTasks : list Task)
  (parentId : option string) (depth : nat) : Outcome TreeView :=
  match stack with
  | O => Thrown stackOverflow
  | S stack' =>
      let allNodes :=
        sortBy byOrder
          (filter (fun task => optEqb (Task.parentId task) parentId) projectTasks) in
      let activeNodes := filter notDone allNodes in
      let doneNodes := filter isDone allNodes in
      if (List.length allNodes =? 0)%nat then Returned TreeNull
      else
        match
          mapOutcome
            (fun task =>
               match renderProjectTree stack' projectTasks (Some (Task.id task))
                       (S depth) with
               | Thrown e => Thrown e
               | Returned sub =>
                   Returned
                     (mkRow task (negb (String.eqb (Task.state task) "today"))
                        (notDone task) sub)
               end)
            activeNodes
        with
        | Thrown e => Thrown e
        | Returned activeRows =>
            match
              mapOutcome
                (fun task =>
                   match renderProjectTree stack' projectTasks
                           (Some (Task.id task)) (S depth) with
                   | Thrown e => Thrown e
                   | Returned sub => Returned (mkRow task false false sub)
                   end)
                doneNodes
            with
            | Thrown e => Thrown e
            | Returned doneRows =>
                Returned
                  (TreeLevel depth activeRows
                     (if (0 <? List.length doneNodes)%nat
                         && (0 <? List.length activeNodes)%nat
                      then Some (if (depth =? 0)%nat
                                 then "Completed Tasks" else "Completed")
                      else None)
                     doneRows)
            end
        end
  end.

Fixpoint renderTodayTree (stack : nat) (todayTasks : list Task)
  (projectId : string) (parentId : option string) (depth : nat)
  : Outcome ListTree :=
  match stack with
  | O => Thrown stackOverflow
  | S stack' =>
      let nodes :=
        sortBy byOrder
          (filter
             (fun task =>
                optEqb (Task.projectId task) (Some projectId)
                && optEqb (Task.parentId task) parentId)
             todayTasks) in
      if (List.length nodes =? 0)%nat then Returned ListNull
      else
        match
          mapOutcome
            (fun task =>
               match renderTodayTree stack' todayTasks projectId
                       (Some (Task.id task)) (S depth) with
               | Thrown e => Thrown e
               | Returned sub => Returned (mkRow task false (notDone task) sub)
               end)
            nodes
        with
        | Thrown e => Thrown e
        | Returned rows => Returned (ListLevel depth rows)
        end
  end.

(** [Array.from(new Set(xs))]: the first occurrences, in order. *)
Fixpoint distinctFrom (seen : list (option string)) (xs : list (option string))
  : list (option string) :=
  match xs with
  | [] => []
  | x :: rest =>
      if existsb (optEqb x) seen then distinctFrom seen rest
      else x :: distinctFrom (x :: seen) rest
  end.

(** [projectMap.get(id)]: of several projects with one id the last wins. *)
Definition projectMapGet (projects : list Project) (id : string) : option Project :=
  find (fun p => String.eqb (Project.id p) id) (rev projects).

Record TodayGroup : Type := mkGroup {
  groupKey : string;
  groupTitle : string;
  groupTree : ListTree
}.

(** The body of the Today panel: [None] is the "No tasks for today."
    message, otherwise one group per distinct [projectId] of the Today view. *)
Definition todayPanel (stack : nat) (projects : list Project) (tasks : list Task)
  : Outcome (option (list TodayGroup)) :=
  let today := todayTasks tasks in
  if (List.length today =? 0)%nat then Returned None
  else
    let projectIds := distinctFrom [] (map Task.projectId today) in
    match
      mapOutcome
        (fun projectId =>
           let truthy :=
             match projectId with
             | Some id => negb (String.eqb id "")
             | None => false
             end in
           let project :=
             if truthy then projectMapGet projects (orElse projectId "") else None in
           match renderTodayTree stack today
                   (if truthy then orElse projectId "" else "") None 0 with
           | Thrown e => Thrown e
           | Returned tree =>
               Returned
                 (mkGroup
                    (if truthy then orElse projectId "" else "no-project")
                    (match project with
                     | Some p => Project.name p
                     | None => "No Project"
                     end)
                    tree)
           end)
        projectIds
    with
    | Thrown e => Thrown e
    | Returned groups => Returned (Some groups)
    end.

(** The tasks a rendered tree shows, top to bottom. *)
Fixpoint shownTasks (v : TreeView) : list Task :=
  match v with
  | TreeNull => []
  | TreeLevel _ activeRows _ doneRows =>
      flat_map (fun r => rowTask r :: shownTasks (subtree r)) activeRows ++
      flat_map (fun r => rowTask r :: shownTasks (subtree r)) doneRows
  end.

Fixpoint listedTasks (v : ListTree) : list Task :=
  match v with
  | ListNull => []
  | ListLevel _ rows =>
      flat_map (fun r => rowTask r :: listedTasks (subtree r)) rows
  end.

(** The levels of a list tree: the tasks of each [<ul>], in the order of
    its rows, the outermost level first. *)
Fixpoint listLevels (v : ListTree) : list (list Task) :=
  match v with
  | ListNull => []
  | ListLevel _ rows =>
      map rowTask rows :: flat_map (fun r => listLevels (subtree r)) rows
  end.

(** What one row shows: its task, then what is below it. *)
Definition shownRow (r : Row TreeView) : list Task :=
  rowTask r :: shownTasks (subtree r).

(** The rows of a rendered tree, on every level. *)
Fixpoint shownRows (v : TreeView) : list (Row TreeView) :=
  match v with
  | TreeNull => []
  | TreeLevel _ activeRows _ doneRows =>
      flat_map (fun r => r :: shownRows (subtree r)) activeRows ++
      flat_map (fun r => r :: shownRows (subtree r)) doneRows
  end.

(** A walk over a forest given by its children function: each child,
    followed by what is below it. *)
Fixpoint walk (kids : option string -> list Task) (stack : nat)
  (root : option string) : Outcome (list Task) :=
  match stack with
  | O => Thrown stackOverflow
  | S stack' =>
      match
        mapOutcome
          (fun c =>
             match walk kids stack' (Some (Task.id c)) with
             | Thrown e => Thrown e
             | Returned below => Returned (c :: below)
             end)
          (kids root)
      with
      | Thrown e => Thrown e
      | Returned parts => Returned (List.concat parts)
      end
  end.

(** [t] is reached from [root] through the children function. *)
Inductive reached (kids : option string -> list Task) (root : option string)
  : Task -> Prop :=
| reached_kid (c : Task) : In c (kids root) -> reached kids root c
| reached_below (c t : Task) :
    reached kids root c -> In t (kids (Some (Task.id c))) -> reached kids root t.

(** The children functions of the two renderers. *)
Definition projectKids (projectTasks : list Task) (parentId : option string)
  : list Task :=
  let allNodes :=
    sortBy byOrder
      (filter (fun task => optEqb (Task.parentId task) parentId) projectTasks) in
  filter notDone allNodes ++ filter isDone allNodes.

Definition todayKids (todayTasks : list Task) (projectId : string)
  (parentId : option string) : list Task :=
  sortBy byOrder
    (filter
       (fun task =>
          optEqb (Task.projectId task) (Some projectId)
          && optEqb (Task.parentId task) parentId)
       todayTasks).

(** ** Loading the collections *)

(** [snap.docs.map((docSnap) => mapper(docSnap.id, docSnap.data()))] *)
Fixpoint mapDocs {M : Type} (mapper : string -> Doc -> nat -> Outcome (M * nat))
  (docs : list (string * Doc)) (clk : nat) : Outcome (list M * nat) :=
  match docs with
  | [] => Returned ([], clk)
  | (id, data) :: rest =>
      match mapper id data clk with
      | Thrown e => Thrown e
      | Returned (m, clk1) =>
          match mapDocs mapper rest clk1 with
          | Thrown e => Thrown e
          | Returned (ms, clk2) => Returned (m :: ms, clk2)
          end
      end
  end.

(** The error of calling a [toDate] member that is not a function. *)
Definition toDateError : JsError :=
  TypeError "timestamp.toDate is not a function".

Section Loading.

Variable nowAt : nat -> string.

(** [todayString]: the first ten characters of a clock reading. *)
Definition todayString (k : nat) : string := substring 0 10 (nowAt k).

(** The seed collections; the module is evaluated once and takes the
    readings 0 to 11 of its clock. *)
Definition seedProjects : list Project :=
  [Project.mk "p-home" "Home" "active" 10 (nowAt 0);
   Project.mk "p-work" "Work" "active" 20 (nowAt 1)].

Definition seedTasks : list Task :=
  [Task.mk "t-1" "Collect ideas for weekly review" None None "inbox"
     (nowAt 2) (nowAt 3) None None None 10;
   Task.mk "t-2" "Plan meal prep for Friday" (Some "p-home") None "active"
     (nowAt 4) (nowAt 5) None (Some (todayString 6)) None 20;
   Task.mk "t-3" "Draft Q2 roadmap outline" (Some "p-work") None "active"
     (nowAt 7) (nowAt 8) None (Some (todayString 9)) None 10;
   Task.mk "t-4" "Gather research notes" (Some "p-work") (Some "t-3") "active"
     (nowAt 10) (nowAt 11) None None None 10].

(** [loadData] once both queries have resolved: [None] when the component
    was unmounted meanwhile, otherwise what [setProjects] and [setTasks]
    receive, the mapped documents or the seed. *)
Definition loadData (active : bool) (projectDocs taskDocs : list (string * Doc))
  (clk : nat)
  : Outcome (option ((list MappedProject.t + list Project)
                     * (list MappedTask.t + list Task)) * nat) :=
  if negb active then Returned (None, clk)
  else
    match mapDocs (mapProjectDoc nowAt) projectDocs clk with
    | Thrown e => Thrown e
    | Returned (nextProjects, clk1) =>
        match mapDocs (mapTaskDoc nowAt) taskDocs clk1 with
        | Thrown e => Thrown e
        | Returned (nextTasks, clk2) =>
            Returned
              (Some
                 (if (List.length nextProjects =? 0)%nat
                  then inr seedProjects else inl nextProjects,
                  if (List.length nextTasks =? 0)%nat
                  then inr seedTasks else inl nextTasks),
               clk2)
        end
    end.

End Loading.

(** ** The earlier version of the component *)

Module Legacy.

Definition taskStates : list TaskState :=
  ["inbox"; "next"; "scheduled"; "waiting"; "someday"; "done"; "cancelled"].

(** The Today view by date: scheduled for [today] and not done. *)
Definition todayTasks (today : string) (tasks : list Task) : list Task :=
  sortBy byOrder
    (filter
       (fun task =>
          optEqb (Task.scheduledAt task) (Some today)
          && negb (String.eqb (Task.state task) "done"))
       tasks).

Section Handlers.

Variable nowAt : nat -> string.

Definition patchStep (id : string) (patch : Patch) (task : Task) (clk : nat)
  : Task * nat :=
  if negb (String.eqb (Task.id task) id) then (task, clk)
  else
    let '(doneAt, clk1) :=
      if optEqb (Patch.state patch) (Some "done") then (Some (nowAt clk), S clk)
      else if stateGiven patch && String.eqb (Task.state task) "done"
           then (None, clk)
           else (Task.doneAt task, clk) in
    (spreadPatch task patch doneAt (nowAt clk1), S clk1).

Definition updateTask (id : string) (patch : Patch) (w : World) : World :=
  let (next, clk) := mapTasks (patchStep id patch) (tasks w) (clock w) in
  let updates := setField "updatedAt" FServerTimestamp (patchFields patch) in
  let updates :=
    if optEqb (Patch.state patch) (Some "done")
    then setField "doneAt" FServerTimestamp updates
    else if stateGiven patch then setField "doneAt" FNull updates
         else updates in
  mkWorld next (projects w) (view w) (quickText w)
    (log w ++ [SetTasks next; UpdateDocs [mkWrite "tasks" id updates]])
    clk.

End Handlers.

Fixpoint renderProjectTree (stack : nat) (projectTasks : list Task)
  (parentId : option string) (depth : nat) : Outcome ListTree :=
  match stack with
  | O => Thrown stackOverflow
  | S stack' =>
      let nodes :=
        sortBy byOrder
          (filter (fun task => optEqb (Task.parentId task) parentId) projectTasks) in
      if (List.length nodes =? 0)%nat then Returned ListNull
      else
        match
          mapOutcome
            (fun task =>
               match renderProjectTree stack' projectTasks (Some (Task.id task))
                       (S depth) with
               | Thrown e => Thrown e
               | Returned sub => Returned (mkRow task false false sub)
               end)
            nodes
        with
        | Thrown e => Thrown e
        | Returned rows => Returned (ListLevel depth rows)
        end
  end.

(** The children function of the renderer. *)
Definition kids (projectTasks : list Task) (parentId : option string) : list Task :=
  sortBy byOrder
    (filter (fun task => optEqb (Task.parentId task) parentId) projectTasks).

End Legacy.

(** What one row of a list tree shows. *)
Definition listedRow (r : Row ListTree) : list Task :=
  rowTask r :: listedTasks (subtree r).

(** ** The project list and the New Project form *)

(** [projects.reduce((max, p) => Math.max(max, p.order), 0) + 10] *)
Definition nextProjectOrder (projects : list Project) : Z :=
  numAdd (fold_left (fun max p => Z.max max (Project.order p)) projects 0%Z) 10.

(** The document the New Project form inserts; [None] when the trimmed name
    is empty and nothing is inserted. *)
Definition newProjectDoc (newProjectName : string) (projects : list Project)
  : option Fields :=
  if String.eqb (trim newProjectName) "" then None
  else Some [("name", FString (trim newProjectName));
             ("state", FString "active");
             ("order", FNumber (nextProjectOrder projects));
             ("createdAt", FServerTimestamp)].

(** The two sections of the project list and the count on a card. *)
Definition activeProjects (projects : list Project) : list Project :=
  filter (fun p => String.eqb (Project.state p) "active") projects.

Definition doneProjects (projects : list Project) : list Project :=
  filter (fun p => String.eqb (Project.state p) "done") projects.

Definition projectTaskCount (tasks : list Task) (project : Project) : nat :=
  List.length
    (filter (fun task => optEqb (Task.projectId task) (Some (Project.id project)))
       tasks).

(** A stored document all of whose timestamp members can be converted. *)
Definition taskDocOk (d : string * Doc) : bool :=
  forallb (fun k => convertible (getField k (snd d))) timestampKeys.

Definition projectDocOk (d : string * Doc) : bool :=
  convertible (getField "createdAt" (snd d)).

(** A task collection in which a completion time is carried by done tasks
    only. *)
Definition clean (tasks : list Task) : Prop :=
  forall t, In t tasks -> Task.doneAt t <> None -> Task.state t = "done".

(** Tasks in Today: one without project, two of a project, and a child
    whose parent is not in Today. *)
Definition todayMix : list Task :=
  [Task.mk "n-1" "Call mum" None None "today" "" "" None None None 10;
   Task.mk "w-1" "Draft roadmap" (Some "p-work") None "today" "" "" None None None 20;
   Task.mk "w-2" "Collect notes" (Some "p-work") (Some "w-1") "today" "" "" None None None 10;
   Task.mk "w-3" "Book room" (Some "p-work") None "active" "" "" None None None 30;
   Task.mk "w-4" "Print agenda" (Some "p-work") (Some "w-3") "today" "" "" None None None 40].

Definition workRank (id : string) : nat :=
  if String.eqb id "w-1" then 1 else 0.

(** ** Tactics for the further worked runs *)

Ltac distinct_strings :=
  repeat (constructor;
          [ let H := fresh "H" in
            simpl; intros H;
            repeat (destruct H as [H | H]; [discriminate H |]);
            exact H
          | ]);
  constructor.

Ltac stamped_by_cases :=
  let t := fresh "t" in
  let Hin := fresh "Hin" in
  let Hd := fresh "Hd" in
  intros t Hin Hd; simpl in Hin;
  repeat (destruct Hin as [<- | Hin]; [discriminate |]);
  contradiction.

(** * Properties *)

(** ** The data mapper *)

Lemma getField_missing (k : string) (data : Doc) :
  hasKey k data = false -> getField k data = JsUndefined.
Proof.
  induction data as [| [k' v] rest IH]; simpl; [reflexivity |].
  destruct (String.eqb k k'); [discriminate | exact IH].
Qed.

Lemma toIsoString_convertible (v : JsValue) :
  convertible v = true -> toIsoString v = Returned (isoOf v).
Proof.
  unfold toIsoString, convertible.
  destruct v as [| | b | n | s | iso | items | fields]; simpl; intros H;
    try reflexivity.
  - destruct (negb b); reflexivity.
  - destruct (Z.eqb n 0); reflexivity.
  - destruct (String.eqb s ""); reflexivity.
  - destruct (hasKey "toDate" fields); [discriminate H | reflexivity].
Qed.

Lemma toIsoString_throws_iff (v : JsValue) :
  (exists e, toIsoString v = Thrown e) <-> convertible v = false.
Proof.
  unfold toIsoString, convertible. split.
  - intros [e He].
    destruct v as [| | b | n | s | iso | items | fields]; simpl in *;
      try discriminate He.
    + destruct (negb b); discriminate He.
    + destruct (Z.eqb n 0); discriminate He.
    + destruct (String.eqb s ""); discriminate He.
    + destruct (hasKey "toDate" fields); [reflexivity | discriminate He].
  - destruct v as [| | b | n | s | iso | items | fields]; simpl;
      try discriminate.
    destruct (hasKey "toDate" fields); simpl; [eauto | discriminate].
Qed.

Lemma toIsoString_inconvertible (v : JsValue) :
  convertible v = false ->
  toIsoString v = Thrown (TypeError "timestamp.toDate is not a function").
Proof.
  unfold toIsoString, convertible.
  destruct v as [| | b | n | s | iso | items | fields]; simpl; try discriminate.
  destruct (hasKey "toDate" fields); [reflexivity | discriminate].
Qed.

Section MapperFacts.

Variable nowAt : nat -> string.

Lemma isoOrNow_convertible (v : JsValue) (clk : nat) :
  convertible v = true ->
  isoOrNow nowAt v clk =
    Returned (match isoOf v with
              | Some s => (s, clk)
              | None => (nowAt clk, S clk)
              end).
Proof.
  intros H. unfold isoOrNow.
  rewrite (toIsoString_convertible v H). destruct (isoOf v); reflexivity.
Qed.

Lemma mapTaskDoc_returns (id : string) (data : Doc) (clk : nat) :
  timestampsConvertible data ->
  exists createdAt updatedAt clk',
    mapTaskDoc nowAt id data clk =
      Returned
        (MappedTask.mk id
           (coalesce (getField "text" data) (JsString ""))
           (coalesce (getField "projectId" data) JsNull)
           (coalesce (getField "parentId" data) JsNull)
           (coalesce (getField "state" data) (JsString "inbox"))
           createdAt updatedAt
           (isoOf (getField "dueAt" data))
           (isoOf (getField "scheduledAt" data))
           (isoOf (getField "doneAt" data))
           (numberOr0 (getField "order" data)),
         clk').
Proof.
  intros H. unfold mapTaskDoc.
  rewrite (isoOrNow_convertible (getField "createdAt" data) clk)
    by (apply H; simpl; tauto).
  destruct (match isoOf (getField "createdAt" data) with
            | Some s => (s, clk)
            | None => (nowAt clk, S clk)
            end) as [c clk1].
  rewrite (isoOrNow_convertible (getField "updatedAt" data) clk1)
    by (apply H; simpl; tauto).
  destruct (match isoOf (getField "updatedAt" data) with
            | Some s => (s, clk1)
            | None => (nowAt clk1, S clk1)
            end) as [u clk2].
  rewrite !toIsoString_convertible by (apply H; simpl; tauto).
  eauto.
Qed.

Lemma mapProjectDoc_returns (id : string) (data : Doc) (clk : nat) :
  convertible (getField "createdAt" data) = true ->
  exists createdAt clk',
    mapProjectDoc nowAt id data clk =
      Returned
        (MappedProject.mk id
           (coalesce (getField "name" data) (JsString "Untitled"))
           (coalesce (getField "state" data) (JsString "active"))
           (numberOr0 (getField "order" data))
           createdAt,
         clk').
Proof.
  intros H. unfold mapProjectDoc.
  rewrite (isoOrNow_convertible (getField "createdAt" data) clk H).
  destruct (match isoOf (getField "createdAt" data) with
            | Some s => (s, clk)
            | None => (nowAt clk, S clk)
            end) as [c clk1].
  eauto.
Qed.

(** The task mapper throws exactly when one of the timestamp members is a
    map with a [toDate] entry. *)
Lemma mapTaskDoc_throws_iff (id : string) (data : Doc) (clk : nat) :
  (exists e, mapTaskDoc nowAt id data clk = Thrown e) <->
  (exists k, In k timestampKeys /\ convertible (getField k data) = false).
Proof.
  split.
  - intros [e He].
    destruct (convertible (getField "createdAt" data)) eqn:E1;
      [| exists "createdAt"; simpl; auto].
    destruct (convertible (getField "updatedAt" data)) eqn:E2;
      [| exists "updatedAt"; simpl; auto].
    destruct (convertible (getField "dueAt" data)) eqn:E3;
      [| exists "dueAt"; simpl; auto].
    destruct (convertible (getField "scheduledAt" data)) eqn:E4;
      [| exists "scheduledAt"; simpl; auto 6].
    destruct (convertible (getField "doneAt" data)) eqn:E5;
      [| exists "doneAt"; simpl; auto 7].
    exfalso.
    destruct (mapTaskDoc_returns id data clk) as (c & u & clk' & E).
    + intros k Hk. simpl in Hk.
      repeat (destruct Hk as [<- | Hk]; [assumption |]). contradiction.
    + rewrite E in He. discriminate He.
  - intros (k & Hk & Hbad). unfold mapTaskDoc, isoOrNow.
    destruct (convertible (getField "createdAt" data)) eqn:E1;
      [rewrite (toIsoString_convertible _ E1)
      | rewrite (toIsoString_inconvertible _ E1); eauto].
    destruct (isoOf (getField "createdAt" data));
      (destruct (convertible (getField "updatedAt" data)) eqn:E2;
        [rewrite (toIsoString_convertible _ E2)
        | rewrite (toIsoString_inconvertible _ E2); eauto]);
      (destruct (isoOf (getField "updatedAt" data));
       (destruct (convertible (getField "dueAt" data)) eqn:E3;
         [rewrite (toIsoString_convertible _ E3)
         | rewrite (toIsoString_inconvertible _ E3); eauto]);
       (destruct (convertible (getField "scheduledAt" data)) eqn:E4;
         [rewrite (toIsoString_convertible _ E4)
         | rewrite (toIsoString_inconvertible _ E4); eauto]);
       (destruct (convertible (getField "doneAt" data)) eqn:E5;
         [rewrite (toIsoString_convertible _ E5)
         | rewrite (toIsoString_inconvertible _ E5); eauto]);
       exfalso; simpl in Hk;
       repeat (destruct Hk as [<- | Hk]; [congruence |]); contradiction).
Qed.

(** C6 (as amended): on every stored record none of whose timestamp members
    is a map with a [toDate] member, both mappers return a record and raise
    nothing.  In that record a missing [order] (or one that is not a number)
    is 0, a missing or [null] [state] is [inbox], a missing or [null] project
    [name] is ["Untitled"], a [dueAt], [scheduledAt] or [doneAt] of an
    unusable shape is [null], and a present [state] or [name] is kept as
    stored.  In particular a task record missing both [order] and [state]
    maps to [order = 0] and [state = inbox]. *)
Theorem mapper_defaults (id : string) (tdata pdata : Doc) (clk : nat) :
  timestampsConvertible tdata ->
  convertible (getField "createdAt" pdata) = true ->
  (exists m clk',
     mapTaskDoc nowAt id tdata clk = Returned (m, clk') /\
     MappedTask.id m = id /\
     (hasKey "order" tdata = false -> MappedTask.order m = 0%Z) /\
     ((forall n, getField "order" tdata <> JsNumber n) ->
      MappedTask.order m = 0%Z) /\
     (hasKey "state" tdata = false -> MappedTask.state m = JsString "inbox") /\
     (nullish (getField "state" tdata) = true ->
      MappedTask.state m = JsString "inbox") /\
     (nullish (getField "state" tdata) = false ->
      MappedTask.state m = getField "state" tdata) /\
     MappedTask.dueAt m = isoOf (getField "dueAt" tdata) /\
     MappedTask.scheduledAt m = isoOf (getField "scheduledAt" tdata) /\
     MappedTask.doneAt m = isoOf (getField "doneAt" tdata) /\
     (hasKey "order" tdata = false -> hasKey "state" tdata = false ->
      MappedTask.order m = 0%Z /\ MappedTask.state m = JsString "inbox")) /\
  (exists p clk',
     mapProjectDoc nowAt id pdata clk = Returned (p, clk') /\
     MappedProject.id p = id /\
     (hasKey "name" pdata = false ->
      MappedProject.name p = JsString "Untitled") /\
     (nullish (getField "name" pdata) = true ->
      MappedProject.name p = JsString "Untitled") /\
     (nullish (getField "name" pdata) = false ->
      MappedProject.name p = getField "name" pdata) /\
     (hasKey "order" pdata = false -> MappedProject.order p = 0%Z)).
Proof.
  intros Ht Hp.
  assert (Hord : forall d, hasKey "order" d = false ->
                           numberOr0 (getField "order" d) = 0%Z).
  { intros d Hd. rewrite (getField_missing _ _ Hd). reflexivity. }
  assert (Hco : forall k d dflt, hasKey k d = false ->
                                 coalesce (getField k d) dflt = dflt).
  { intros k d dflt Hd. rewrite (getField_missing _ _ Hd). reflexivity. }
  split.
  - destruct (mapTaskDoc_returns id tdata clk Ht) as (c & u & clk' & E).
    eexists _, clk'. split; [exact E |]. simpl.
    repeat split; auto.
    + intros Hn. destruct (getField "order" tdata); try reflexivity.
      exfalso. eapply Hn. reflexivity.
    + intros Hn. unfold coalesce. rewrite Hn. reflexivity.
    + intros Hn. unfold coalesce. rewrite Hn. reflexivity.
  - destruct (mapProjectDoc_returns id pdata clk Hp) as (c & clk' & E).
    eexists _, clk'. split; [exact E |]. simpl.
    repeat split; auto.
    + intros Hn. unfold coalesce. rewrite Hn. reflexivity.
    + intros Hn. unfold coalesce. rewrite Hn. reflexivity.
Qed.

(** C9: the task mapper tests the stored [state] for absence only.  On a
    record it maps, a [state] that is present (neither [null] nor
    [undefined]) is kept verbatim, whatever it is and so also when it is not
    one of the enumerated task states; the mapped state is [inbox] only when
    the stored one is absent or is [inbox] itself. *)
Theorem mapTaskDoc_state_verbatim (id : string) (data : Doc) (clk : nat) :
  timestampsConvertible data ->
  exists m clk',
    mapTaskDoc nowAt id data clk = Returned (m, clk') /\
    (nullish (getField "state" data) = false ->
     MappedTask.state m = getField "state" data) /\
    (forall s, getField "state" data = JsString s -> ~ In s taskStates ->
               MappedTask.state m = JsString s) /\
    (MappedTask.state m = JsString "inbox" <->
     nullish (getField "state" data) = true \/
     getField "state" data = JsString "inbox").
Proof.
  intros H.
  destruct (mapTaskDoc_returns id data clk H) as (c & u & clk' & E).
  eexists _, clk'. split; [exact E |]. simpl. unfold coalesce.
  destruct (nullish (getField "state" data)) eqn:Hn.
  - repeat split; try discriminate; auto.
    intros s Hs. rewrite Hs in Hn. discriminate Hn.
  - repeat split; auto.
    intros [Habs | Hin]; [discriminate Habs | exact Hin].
Qed.

End MapperFacts.

Lemma mapper_defaults_witness :
  timestampsConvertible bareTaskDoc /\
  exists m clk',
    mapTaskDoc sampleClock "t-9" bareTaskDoc 0 = Returned (m, clk') /\
    MappedTask.order m = 0%Z /\ MappedTask.state m = JsString "inbox".
Proof.
  assert (Ht : timestampsConvertible bareTaskDoc) by each_key.
  split; [exact Ht |].
  destruct (mapper_defaults sampleClock "t-9" bareTaskDoc [] 0 Ht eq_refl)
    as [(m & clk' & E & _ & _ & _ & _ & _ & _ & _ & _ & _ & Hboth) _].
  exists m, clk'. split; [exact E |]. apply Hboth; reflexivity.
Defined.

(** C6 (as stated) fails on malformed input in two ways.  A stored record
    whose [createdAt] is a map with a [toDate] entry makes [toIsoString] call
    a member that is not a function, and the mapper throws instead of
    returning a record.  And a stored [state] of the wrong type does not
    degrade to the default: it is kept as it is. *)
Lemma mapTaskDoc_malformed_input :
  (mapTaskDoc sampleClock "t-9" toDateMapDoc 0 =
     Thrown (TypeError "timestamp.toDate is not a function") /\
   ~ (exists r, mapTaskDoc sampleClock "t-9" toDateMapDoc 0 = Returned r)) /\
  (exists m clk',
     mapTaskDoc sampleClock "t-8" [("state", JsNumber 7)] 0 = Returned (m, clk') /\
     MappedTask.state m = JsNumber 7 /\
     MappedTask.state m <> JsString "inbox").
Proof.
  split.
  - split; [reflexivity |]. intros [r Hr]. discriminate Hr.
  - eexists _, _. split; [reflexivity |]. split; [reflexivity | discriminate].
Qed.

Lemma mapTaskDoc_state_verbatim_witness :
  timestampsConvertible legacyTaskDoc /\
  exists m clk',
    mapTaskDoc sampleClock "t-7" legacyTaskDoc 0 = Returned (m, clk') /\
    MappedTask.state m = JsString "waiting".
Proof.
  assert (Ht : timestampsConvertible legacyTaskDoc) by each_key.
  split; [exact Ht |].
  destruct (mapTaskDoc_state_verbatim sampleClock "t-7" legacyTaskDoc 0 Ht)
    as (m & clk' & E & Hkeep & _).
  exists m, clk'. split; [exact E |]. apply Hkeep. reflexivity.
Defined.

Example mapTaskDoc_bare :
  mapTaskDoc sampleClock "t-9" bareTaskDoc 0 =
    Returned
      (MappedTask.mk "t-9" (JsString "Pay rent") JsNull JsNull (JsString "inbox")
         "2026-01-10T09:00:00.000Z" "2026-01-11T09:00:00.000Z"
         None None None 0, 2).
Proof. reflexivity. Qed.

(** ** Derived views *)

(** Rounding keeps the sign, so the comparator of the sorts orders two tasks
    as their orders are. *)
Lemma roundDouble_sign (z : Z) : (roundDouble z <=? 0)%Z = (z <=? 0)%Z.
Proof.
  unfold roundDouble. cbv zeta.
  destruct (Z.leb_spec (Z.log2 (Z.abs z) - 52) 0) as [_ | He]; [reflexivity |].
  assert (Ha : (0 < Z.abs z)%Z).
  { destruct (Z.eq_dec (Z.abs z) 0) as [E | E]; [| lia].
    rewrite E in He. simpl in He. lia. }
  set (a := Z.abs z) in *. set (e := (Z.log2 a - 52)%Z) in *.
  assert (Hu : (0 < 2 ^ e)%Z) by (apply Z.pow_pos_nonneg; lia).
  assert (Hq : (1 <= a / 2 ^ e)%Z).
  { apply Z.div_le_lower_bound; [exact Hu |]. rewrite Z.mul_1_r.
    transitivity (2 ^ Z.log2 a)%Z.
    - apply Z.pow_le_mono_r; lia.
    - apply Z.log2_spec. exact Ha. }
  set (q := (a / 2 ^ e)%Z) in *.
  assert (Hs : (0 < (if (2 * (a mod 2 ^ e) <? 2 ^ e)%Z then q
                     else if (2 ^ e <? 2 * (a mod 2 ^ e))%Z then (q + 1)%Z
                          else if Z.even q then q else (q + 1)%Z) * 2 ^ e)%Z).
  { apply Z.mul_pos_pos; [| exact Hu].
    destruct (2 * (a mod 2 ^ e) <? 2 ^ e)%Z; [lia |].
    destruct (2 ^ e <? 2 * (a mod 2 ^ e))%Z; [lia |].
    destruct (Z.even q); lia. }
  destruct (Z.leb_spec z 0) as [Hz | Hz].
  - assert (Hsg : Z.sgn z = (-1)%Z) by (apply Z.sgn_neg; unfold a in Ha; lia).
    rewrite Hsg. apply Z.leb_le. lia.
  - rewrite (Z.sgn_pos z Hz). apply Z.leb_gt. lia.
Qed.

Lemma byOrder_sign (x y : Task) :
  (byOrder x y <=? 0)%Z = (Task.order x - Task.order y <=? 0)%Z.
Proof. apply roundDouble_sign. Qed.

Lemma insertBy_perm (x : Task) (l : list Task) :
  Permutation (insertBy byOrder x l) (x :: l).
Proof.
  induction l as [| y l IH]; simpl; [reflexivity |].
  destruct (byOrder x y <=? 0)%Z; [reflexivity |].
  rewrite IH. apply perm_swap.
Qed.

Lemma sortBy_perm (l : list Task) : Permutation (sortBy byOrder l) l.
Proof.
  induction l as [| x l IH]; simpl; [reflexivity |].
  rewrite insertBy_perm. now apply perm_skip.
Qed.

Lemma insertBy_sorted (x : Task) (l : list Task) :
  StronglySorted ascending l -> StronglySorted ascending (insertBy byOrder x l).
Proof.
  induction 1 as [| y l Hs IH Hall]; simpl.
  - repeat constructor.
  - rewrite byOrder_sign.
    destruct (Z.leb_spec (Task.order x - Task.order y) 0) as [Hle | Hgt].
    + constructor; [constructor; assumption |].
      constructor; [unfold ascending; lia |].
      eapply Forall_impl; [| exact Hall].
      unfold ascending; intros a Ha; lia.
    + constructor; [exact IH |].
      eapply Permutation_Forall; [symmetry; apply insertBy_perm |].
      constructor; [unfold ascending; lia | exact Hall].
Qed.

Lemma sortBy_sorted (l : list Task) : StronglySorted ascending (sortBy byOrder l).
Proof.
  induction l as [| x l IH]; simpl; [constructor |].
  now apply insertBy_sorted.
Qed.

(** The sort is stable: it never moves a task in front of an earlier one
    unless the earlier one has a strictly larger order.  Restricting the
    sorted list to the tasks of one order gives them in their input
    sequence. *)
Lemma insertBy_stable (n : Z) (x : Task) (l : list Task) :
  StronglySorted ascending l ->
  filter (fun t => Z.eqb (Task.order t) n) (insertBy byOrder x l) =
  filter (fun t => Z.eqb (Task.order t) n) (x :: l).
Proof.
  induction 1 as [| y l Hs IH Hall]; [reflexivity |].
  cbn [insertBy]. rewrite byOrder_sign.
  destruct (Z.leb_spec (Task.order x - Task.order y) 0) as [Hle | Hgt];
    [reflexivity |].
  cbn [filter] in *. rewrite IH.
  destruct (Z.eqb_spec (Task.order y) n) as [Hy | Hy];
    destruct (Z.eqb_spec (Task.order x) n) as [Hx | Hx];
    try reflexivity.
  lia.
Qed.

Lemma sortBy_stable (n : Z) (l : list Task) :
  filter (fun t => Z.eqb (Task.order t) n) (sortBy byOrder l) =
  filter (fun t => Z.eqb (Task.order t) n) l.
Proof.
  induction l as [| x l IH]; [reflexivity |].
  cbn [sortBy fold_right]. rewrite insertBy_stable by apply sortBy_sorted.
  cbn [filter]. fold (sortBy byOrder l). rewrite IH. reflexivity.
Qed.

(** C7: the Inbox view holds exactly the tasks of the collection whose state
    is [inbox], each as often as the collection has it, and never a task in
    another state; it is in ascending sort order, tasks of equal order
    keeping their sequence. *)
Theorem inboxTasks_spec (tasks : list Task) :
  Permutation (inboxTasks tasks)
    (filter (fun task => String.eqb (Task.state task) "inbox") tasks) /\
  (forall t, In t (inboxTasks tasks) <->
             In t tasks /\ Task.state t = "inbox") /\
  StronglySorted ascending (inboxTasks tasks) /\
  (forall n,
     filter (fun t => Z.eqb (Task.order t) n) (inboxTasks tasks) =
     filter (fun t => Z.eqb (Task.order t) n)
       (filter (fun task => String.eqb (Task.state task) "inbox") tasks)).
Proof.
  unfold inboxTasks. split; [apply sortBy_perm |]. split; [| split].
  - intros t. split.
    + intros Hin. apply (Permutation_in _ (sortBy_perm _)) in Hin.
      apply filter_In in Hin. destruct Hin as [Hin Hst].
      apply String.eqb_eq in Hst. auto.
    + intros [Hin Hst].
      apply (Permutation_in _ (Permutation_sym (sortBy_perm _))).
      apply filter_In. split; [exact Hin |]. now apply String.eqb_eq.
  - apply sortBy_sorted.
  - intros n. apply sortBy_stable.
Qed.

(** ** Descendants *)

Lemma optEqb_eq (a b : option string) : optEqb a b = true <-> a = b.
Proof.
  destruct a as [x |], b as [y |]; simpl; split; try congruence.
  - intros H. apply String.eqb_eq in H. congruence.
  - intros H. apply String.eqb_eq. congruence.
Qed.

Lemma childOf_spec (root : string) (t : Task) :
  childOf root t = true <-> Task.parentId t = Some root.
Proof. unfold childOf. apply optEqb_eq. Qed.

Lemma includes_spec (ids : list string) (x : string) :
  includes ids x = true <-> In x ids.
Proof.
  unfold includes. rewrite existsb_exists. split.
  - intros (y & Hy & He). apply String.eqb_eq in He. now subst.
  - intros H. exists x. split; [exact H | apply String.eqb_refl].
Qed.

Lemma descendantOf_under_child (allTasks : list Task) (root : string) (c t : Task) :
  In c allTasks -> Task.parentId c = Some root ->
  descendantOf allTasks (Task.id c) t -> descendantOf allTasks root t.
Proof.
  intros Hc Hp Hd.
  induction Hd as [t Ht Hpt | c' t _ IH Ht Hpt].
  - apply (desc_step _ _ c); [apply desc_child; assumption | exact Ht | exact Hpt].
  - apply (desc_step _ _ c'); [exact IH | exact Ht | exact Hpt].
Qed.

Section Descendants.

Variable allTasks : list Task.

Lemma visit_thrown (stack : nat) (cs : list Task) (e : JsError) :
  fold_left (visit allTasks stack) cs (Thrown e) = Thrown e.
Proof. induction cs as [| c cs IH]; simpl; auto. Qed.

Lemma visit_returned (stack : nat) (cs : list Task) :
  forall acc ds,
    fold_left (visit allTasks stack) cs (Returned acc) = Returned ds <->
    exists dss,
      Forall2 (fun c d => getDescendantTasks stack (Task.id c) allTasks = Returned d)
        cs dss /\
      ds = acc ++ List.concat dss.
Proof.
  induction cs as [| c cs IH]; intros acc ds; simpl.
  - split.
    + intros H. injection H as <-. exists []. split; [constructor |].
      simpl. now rewrite app_nil_r.
    + intros (dss & HF & ->). inversion HF; subst. simpl.
      now rewrite app_nil_r.
  - destruct (getDescendantTasks stack (Task.id c) allTasks) as [more | e] eqn:E.
    + rewrite IH. split.
      * intros (dss & HF & ->). exists (more :: dss). split.
        -- constructor; assumption.
        -- simpl. now rewrite app_assoc.
      * intros (dss & HF & ->). inversion HF as [| c0 d0 cs0 dss0 Hd HF']; subst.
        rewrite E in Hd. injection Hd as <-.
        exists dss0. split; [exact HF' |]. simpl. now rewrite app_assoc.
    + rewrite visit_thrown. split; [discriminate |].
      intros (dss & HF & _). inversion HF as [| c0 d0 cs0 dss0 Hd HF']; subst.
      rewrite E in Hd. discriminate Hd.
Qed.

Lemma getDescendantTasks_unfold (stack : nat) (root : string) (ds : list Task) :
  getDescendantTasks (S stack) root allTasks = Returned ds <->
  exists dss,
    Forall2 (fun c d => getDescendantTasks stack (Task.id c) allTasks = Returned d)
      (filter (childOf root) allTasks) dss /\
    ds = filter (childOf root) allTasks ++ List.concat dss.
Proof. apply (visit_returned stack). Qed.

End Descendants.

Lemma Forall2_pick {A B : Type} (P : A -> B -> Prop) (l : list A) :
  (forall a, In a l -> exists b, P a b) -> exists bs, Forall2 P l bs.
Proof.
  induction l as [| a l IH]; intros H.
  - exists []. constructor.
  - destruct (H a (or_introl eq_refl)) as [b Hb].
    destruct IH as [bs Hbs]; [intros a' Ha'; apply H; now right |].
    exists (b :: bs). now constructor.
Qed.

Lemma Forall2_concat_in {A B : Type} (P : A -> list B -> Prop)
  (l : list A) (dss : list (list B)) (x : B) :
  Forall2 P l dss -> In x (List.concat dss) ->
  exists a d, In a l /\ P a d /\ In x d.
Proof.
  induction 1 as [| a d l dss Hp HF IH]; simpl; [contradiction |].
  rewrite in_app_iff. intros [Hx | Hx].
  - exists a, d. auto.
  - destruct (IH Hx) as (a' & d' & Ha & Hp' & Hd). exists a', d'. auto.
Qed.

Lemma Forall2_in_concat {A B : Type} (P : A -> list B -> Prop)
  (l : list A) (dss : list (list B)) (a : A) :
  Forall2 P l dss -> In a l ->
  exists d, P a d /\ (forall x, In x d -> In x (List.concat dss)).
Proof.
  induction 1 as [| a0 d l dss Hp HF IH]; simpl; [contradiction |].
  intros [<- | Ha].
  - exists d. split; [exact Hp |]. intros x Hx. apply in_app_iff. now left.
  - destruct (IH Ha) as (d' & Hp' & Hsub). exists d'. split; [exact Hp' |].
    intros x Hx. apply in_app_iff. right. now apply Hsub.
Qed.

(** Whatever [getDescendantTasks] returns is a descendant. *)
Lemma getDescendantTasks_sound (allTasks : list Task) (stack : nat) :
  forall root ds,
    getDescendantTasks stack root allTasks = Returned ds ->
    forall t, In t ds -> descendantOf allTasks root t.
Proof.
  induction stack as [| stack IH]; intros root ds H t Ht; [discriminate H |].
  apply getDescendantTasks_unfold in H. destruct H as (dss & HF & ->).
  apply in_app_iff in Ht. destruct Ht as [Ht | Ht].
  - apply filter_In in Ht. destruct Ht as [Hin Hc].
    apply desc_child; [exact Hin | now apply childOf_spec].
  - destruct (Forall2_concat_in _ _ _ _ HF Ht) as (c & d & Hc & Hd & Htd).
    apply filter_In in Hc. destruct Hc as [Hcin Hcp].
    apply (descendantOf_under_child allTasks root c); auto.
    + now apply childOf_spec.
    + eapply IH; eassumption.
Qed.

Lemma getDescendantTasks_children (allTasks : list Task) (stack : nat)
  (root : string) (ds : list Task) (t : Task) :
  getDescendantTasks stack root allTasks = Returned ds ->
  In t allTasks -> Task.parentId t = Some root -> In t ds.
Proof.
  destruct stack as [| stack]; intros H Hin Hp; [discriminate H |].
  apply getDescendantTasks_unfold in H. destruct H as (dss & _ & ->).
  apply in_app_iff. left. apply filter_In. split; [exact Hin |].
  now apply childOf_spec.
Qed.

Lemma getDescendantTasks_closed (allTasks : list Task) (stack : nat) :
  forall root ds,
    getDescendantTasks stack root allTasks = Returned ds ->
    forall c t, In c ds -> In t allTasks -> Task.parentId t = Some (Task.id c) ->
                In t ds.
Proof.
  induction stack as [| stack IH]; intros root ds H c t Hc Hin Hp;
    [discriminate H |].
  apply getDescendantTasks_unfold in H. destruct H as (dss & HF & ->).
  apply in_app_iff. right.
  apply in_app_iff in Hc. destruct Hc as [Hc | Hc].
  - destruct (Forall2_in_concat _ _ _ _ HF Hc) as (d & Hd & Hsub).
    apply Hsub. eapply getDescendantTasks_children; eassumption.
  - destruct (Forall2_concat_in _ _ _ _ HF Hc) as (c0 & d & Hc0 & Hd & Hcd).
    destruct (Forall2_in_concat _ _ _ _ HF Hc0) as (d' & Hd' & Hsub).
    rewrite Hd in Hd'. injection Hd' as <-.
    apply Hsub. eapply IH; eassumption.
Qed.

(** Every descendant is in what [getDescendantTasks] returns. *)
Lemma getDescendantTasks_complete (allTasks : list Task) (stack : nat)
  (root : string) (ds : list Task) :
  getDescendantTasks stack root allTasks = Returned ds ->
  forall t, descendantOf allTasks root t -> In t ds.
Proof.
  intros H t Hd. induction Hd as [t Ht Hp | c t _ IH Ht Hp].
  - eapply getDescendantTasks_children; eassumption.
  - eapply getDescendantTasks_closed; eassumption.
Qed.

(** On a forest the recursion stays within any stack deeper than the rank
    of the task it starts from. *)
Lemma getDescendantTasks_returns (rank : string -> nat) (allTasks : list Task) :
  ranked rank allTasks ->
  forall stack root, rank root < stack ->
    exists ds, getDescendantTasks stack root allTasks = Returned ds.
Proof.
  intros Hr. induction stack as [| stack IH]; intros root Hlt; [lia |].
  destruct (Forall2_pick
              (fun c d => getDescendantTasks stack (Task.id c) allTasks = Returned d)
              (filter (childOf root) allTasks)) as [dss HF].
  - intros c Hc. apply filter_In in Hc. destruct Hc as [Hin Hp].
    apply childOf_spec in Hp. apply IH.
    specialize (Hr c root Hin Hp). lia.
  - eexists. apply getDescendantTasks_unfold. exists dss. split; [exact HF | reflexivity].
Qed.

Lemma getDescendantTasks_spec (rank : string -> nat) (allTasks : list Task)
  (stack : nat) (root : string) :
  ranked rank allTasks -> rank root < stack ->
  exists ds,
    getDescendantTasks stack root allTasks = Returned ds /\
    forall t, In t ds <-> descendantOf allTasks root t.
Proof.
  intros Hr Hlt.
  destruct (getDescendantTasks_returns rank allTasks Hr stack root Hlt) as [ds E].
  exists ds. split; [exact E |]. intros t. split.
  - eapply getDescendantTasks_sound; eassumption.
  - eapply getDescendantTasks_complete; eassumption.
Qed.

(** A parent cycle exhausts any stack. *)
Example getDescendantTasks_cycle (stack : nat) :
  let loop := Task.mk "t-1" "Loop" None (Some "t-1") "active" "" "" None None None 10 in
  exists e, getDescendantTasks stack "t-1" [loop] = Thrown e.
Proof.
  induction stack as [| stack [e IH]]; simpl; [eauto |].
  simpl in IH. rewrite IH. eauto.
Qed.

(** ** Updaters that read the clock *)

Lemma mapTasks_spec (f : Task -> nat -> Task * nat) :
  (forall t c, c <= snd (f t c)) ->
  forall l clk l' clk',
    mapTasks f l clk = (l', clk') ->
    clk <= clk' /\
    Forall2 (fun t t' => exists c, clk <= c /\ snd (f t c) <= clk' /\ t' = fst (f t c))
      l l'.
Proof.
  intros Hmono. induction l as [| t l IH]; intros clk l' clk' H; simpl in H.
  - injection H as <- <-. split; [lia | constructor].
  - destruct (f t clk) as [t1 c1] eqn:Ef.
    destruct (mapTasks f l c1) as [r c2] eqn:Er.
    injection H as <- <-.
    destruct (IH _ _ _ Er) as [Hle HF].
    pose proof (Hmono t clk) as Hm. rewrite Ef in Hm. simpl in Hm.
    split; [lia |]. constructor.
    + exists clk. rewrite Ef. simpl. repeat split; lia.
    + eapply Forall2_impl; [| exact HF].
      intros a b (c & Hc1 & Hc2 & Hb). exists c. repeat split; [lia | lia | exact Hb].
Qed.

Lemma Forall2_combine_in {A B : Type} (P : A -> B -> Prop) (l : list A) (l' : list B) :
  Forall2 P l l' -> forall a b, In (a, b) (combine l l') -> P a b.
Proof.
  induction 1 as [| x y l l' Hp HF IH]; simpl; intros a b Hin; [contradiction |].
  destruct Hin as [E | Hin]; [injection E as <- <-; exact Hp | now apply IH].
Qed.

Lemma Forall2_image {A B : Type} (P : A -> B -> Prop) (l : list A) (l' : list B) :
  Forall2 P l l' -> forall b, In b l' -> exists a, In a l /\ P a b.
Proof.
  induction 1 as [| x y l l' Hp HF IH]; simpl; intros b Hin; [contradiction |].
  destruct Hin as [<- | Hin].
  - exists x. auto.
  - destruct (IH b Hin) as (a & Ha & Hpa). exists a. auto.
Qed.

Lemma descendantOf_in (allTasks : list Task) (root : string) (t : Task) :
  descendantOf allTasks root t -> In t allTasks.
Proof. now destruct 1. Qed.

Section HandlerFacts.

Variable nowAt : nat -> string.
Variable window_confirm : string -> bool.

Lemma cascadeStep_mono (ids : list string) (t : Task) (c : nat) :
  c <= snd (cascadeStep nowAt ids t c).
Proof. unfold cascadeStep. destruct (negb _); simpl; lia. Qed.

Lemma patchStep_mono (id : string) (patch : Patch) (t : Task) (c : nat) :
  c <= snd (patchStep nowAt id patch t c).
Proof. unfold patchStep. destruct (negb _); simpl; lia. Qed.

Lemma projectStep_mono (sel : string) (t : Task) (c : nat) :
  c <= snd (projectStep nowAt sel t c).
Proof. unfold projectStep. destruct (_ || _); simpl; lia. Qed.

(** The cascade branch of [updateTask], once the descendants are known. *)
Lemma updateTask_done (stack : nat) (id : string) (patch : Patch) (w : World)
  (ds : list Task) :
  Patch.state patch = Some "done" ->
  getDescendantTasks stack id (tasks w) = Returned ds ->
  let n := List.length (filter notDone ds) in
  (0 < n -> window_confirm (taskPrompt n) = false ->
   updateTask nowAt window_confirm stack id patch w = Returned w) /\
  (n = 0 \/ window_confirm (taskPrompt n) = true ->
   exists next clk,
     updateTask nowAt window_confirm stack id patch w =
       Returned
         (mkWorld next (projects w) (view w) (quickText w)
            (log w ++ [SetTasks next;
                       UpdateDocs (map doneWrite (id :: map Task.id ds))])
            clk) /\
     clock w <= clk /\
     Forall2
       (fun t t' =>
          (includes (id :: map Task.id ds) (Task.id t) = true ->
           exists k, clock w <= k /\ S k < clk /\
                     t' = asDone t (nowAt k) (nowAt (S k))) /\
          (includes (id :: map Task.id ds) (Task.id t) = false -> t' = t))
       (tasks w) next).
Proof.
  intros Hst Hds n. unfold updateTask. rewrite Hst. simpl optEqb. rewrite Hds.
  fold n. split.
  - intros Hn Hno. rewrite Hno.
    destruct (Nat.ltb_spec 0 n) as [_ | Hc]; [reflexivity | lia].
  - intros Hgo.
    assert (Hcond : (0 <? n)%nat && negb (window_confirm (taskPrompt n)) = false).
    { destruct Hgo as [-> | ->]; [reflexivity | apply andb_false_r]. }
    rewrite Hcond.
    destruct (mapTasks (cascadeStep nowAt (id :: map Task.id ds)) (tasks w) (clock w))
      as [next clk] eqn:Em.
    exists next, clk. split; [reflexivity |].
    destruct (mapTasks_spec _ (cascadeStep_mono _) _ _ _ _ Em) as [Hle HF].
    split; [exact Hle |].
    eapply Forall2_impl; [| exact HF].
    intros t t' (c & Hc1 & Hc2 & ->). unfold cascadeStep in *.
    destruct (includes (id :: map Task.id ds) (Task.id t)); simpl in *.
    + split; [| discriminate]. intros _. exists c. repeat split; lia.
    + split; [discriminate | reflexivity].
Qed.

(** The update set of the cascade, read as a set of records. *)
Lemma includes_cascadeTargets (allTasks ds : list Task) (id : string) (t : Task) :
  (forall d, In d ds <-> descendantOf allTasks id d) ->
  includes (id :: map Task.id ds) (Task.id t) = true <->
  cascadeTargets (fun _ => true) allTasks id t.
Proof.
  intros Hds. rewrite includes_spec. unfold cascadeTargets. simpl. split.
  - intros [E | Hin]; [left; now symmetry |].
    apply in_map_iff in Hin. destruct Hin as (d & E & Hd).
    right. exists d. repeat split; [now apply Hds | exact E].
  - intros [E | (d & Hd & _ & E)]; [left; now symmetry |].
    right. apply in_map_iff. exists d. split; [exact E | now apply Hds].
Qed.

(** The normal branch of [updateTask]. *)
Lemma updateTask_patch (stack : nat) (id : string) (patch : Patch) (w : World) :
  Patch.state patch <> Some "done" ->
  exists next clk updates,
    updateTask nowAt window_confirm stack id patch w =
      Returned
        (mkWorld next (projects w) (view w) (quickText w)
           (log w ++ [SetTasks next; UpdateDocs [mkWrite "tasks" id updates]])
           clk) /\
    clock w <= clk /\
    lookupField "updatedAt" updates = Some FServerTimestamp /\
    (stateGiven patch = true ->
     (exists cur, find (fun t => String.eqb (Task.id t) id) (tasks w) = Some cur /\
                  Task.state cur = "done") ->
     lookupField "doneAt" updates = Some FNull) /\
    Forall2
      (fun t t' =>
         (Task.id t = id ->
          exists k, clock w <= k /\ k < clk /\
            t' = spreadPatch t patch
                   (if stateGiven patch && String.eqb (Task.state t) "done"
                    then None else Task.doneAt t)
                   (nowAt k)) /\
         (Task.id t <> id -> t' = t))
      (tasks w) next.
Proof.
  intros Hst. unfold updateTask.
  assert (Hne : optEqb (Patch.state patch) (Some "done") = false).
  { destruct (optEqb _ _) eqn:E; [| reflexivity].
    apply optEqb_eq in E. contradiction. }
  rewrite Hne.
  destruct (mapTasks (patchStep nowAt id patch) (tasks w) (clock w))
    as [next clk] eqn:Em.
  eexists next, clk, _. split; [reflexivity |].
  destruct (mapTasks_spec _ (patchStep_mono _ _) _ _ _ _ Em) as [Hle HF].
  split; [exact Hle |].
  assert (Hset : forall k v fs, lookupField k (setField k v fs) = Some v).
  { intros k v fs. induction fs as [| [k' v'] fs IH]; simpl.
    - now rewrite String.eqb_refl.
    - destruct (String.eqb k k') eqn:E; simpl.
      + now rewrite String.eqb_refl.
      + now rewrite E. }
  assert (Hother : forall k k' v fs, String.eqb k k' = false ->
                     lookupField k (setField k' v fs) = lookupField k fs).
  { intros k k' v fs Hkk. induction fs as [| [k0 v0] fs IH]; simpl.
    - now rewrite Hkk.
    - destruct (String.eqb k' k0) eqn:E; simpl.
      + apply String.eqb_eq in E. subst k0. now rewrite Hkk.
      + destruct (String.eqb k k0); [reflexivity | exact IH]. }
  split; [| split].
  - destruct (stateGiven patch && _).
    + rewrite Hother by reflexivity. apply Hset.
    + apply Hset.
  - intros Hg (cur & -> & ->). rewrite Hg. simpl. apply Hset.
  - eapply Forall2_impl; [| exact HF].
    intros t t' (c & Hc1 & Hc2 & ->). unfold patchStep in *.
    destruct (String.eqb_spec (Task.id t) id) as [E | E]; simpl in *.
    + split; [| contradiction]. intros _. exists c. repeat split; lia.
    + split; [contradiction | reflexivity].
Qed.

End HandlerFacts.

Lemma notDone_true (t : Task) : notDone t = true <-> Task.state t <> "done".
Proof.
  unfold notDone. destruct (String.eqb_spec (Task.state t) "done"); simpl;
    split; congruence.
Qed.

Lemma notDone_false (t : Task) : notDone t = false <-> Task.state t = "done".
Proof.
  unfold notDone. destruct (String.eqb_spec (Task.state t) "done"); simpl;
    split; congruence.
Qed.

(** ** Text and trimming *)

Lemma string_app_assoc (a b c : string) : (a +++ b) +++ c = a +++ (b +++ c).
Proof. induction a; simpl; congruence. Qed.

Lemma string_app_nil_r (a : string) : a +++ "" = a.
Proof. induction a; simpl; congruence. Qed.

Lemma string_app_length (a b : string) :
  String.length (a +++ b) = String.length a + String.length b.
Proof. induction a; simpl; congruence. Qed.

Lemma stripPrefix_spec (p s r : string) :
  stripPrefix p s = Some r <-> s = p +++ r.
Proof.
  revert s. induction p as [| a p IH]; intros s; simpl.
  - split; congruence.
  - destruct s as [| b s]; [split; discriminate |].
    destruct (Ascii.eqb_spec a b) as [-> | Hne].
    + rewrite IH. split; congruence.
    + split; [discriminate | congruence].
Qed.

Lemma utf8_nonempty (c : N) : 0 < String.length (utf8 c).
Proof.
  unfold utf8.
  repeat match goal with |- context [if ?b then _ else _] => destruct b end;
    simpl; lia.
Qed.

Lemma dropOneOf_sound (cs : list N) (s r : string) :
  dropOneOf cs s = Some r -> exists c, In c cs /\ s = utf8 c +++ r.
Proof.
  induction cs as [| c cs IH]; simpl; [discriminate |].
  destruct (stripPrefix (utf8 c) s) as [r' |] eqn:E.
  - intros [= <-]. apply stripPrefix_spec in E. eauto.
  - intros H. destruct (IH H) as (c' & Hin & Hs). eauto.
Qed.

Lemma dropOneOf_none (cs : list N) (s : string) :
  dropOneOf cs s = None <->
  forall c rest, In c cs -> s <> utf8 c +++ rest.
Proof.
  induction cs as [| c cs IH]; simpl.
  - split; [intros _ c rest [] | reflexivity].
  - destruct (stripPrefix (utf8 c) s) as [r' |] eqn:E.
    + split; [discriminate |]. intros H. apply stripPrefix_spec in E.
      exfalso. exact (H c r' (or_introl eq_refl) E).
    + rewrite IH. split.
      * intros H c' rest [<- | Hin] Hs; [| exact (H c' rest Hin Hs)].
        apply stripPrefix_spec in Hs. congruence.
      * intros H c' rest Hin. apply H. now right.
Qed.

Lemma dropWhite_sound (s r : string) :
  dropWhite s = Some r -> exists c, In c whiteSpace /\ s = utf8 c +++ r.
Proof. apply dropOneOf_sound. Qed.

(** The encoding of no white-space character starts with the encoding of
    another: a text that starts with a white-space character loses that
    character. *)
Lemma dropWhite_white (c : N) (rest : string) :
  In c whiteSpace -> dropWhite (utf8 c +++ rest) = Some rest.
Proof.
  intros Hin. unfold whiteSpace in Hin.
  repeat (destruct Hin as [<- | Hin]; [reflexivity |]). destruct Hin.
Qed.

Lemma dropWhite_shorter (s r : string) :
  dropWhite s = Some r -> String.length r < String.length s.
Proof.
  intros H. destruct (dropWhite_sound s r H) as (c & _ & ->).
  rewrite string_app_length. pose proof (utf8_nonempty c). lia.
Qed.

Lemma trimStartFrom_enough (n : nat) :
  forall m s, String.length s <= n -> String.length s <= m ->
              trimStartFrom n s = trimStartFrom m s.
Proof.
  induction n as [| n IH]; intros m s Hn Hm.
  - destruct s; [| simpl in Hn; lia]. destruct m; reflexivity.
  - simpl. destruct m as [| m].
    + destruct s; [reflexivity | simpl in Hm; lia].
    + simpl. destruct (dropWhite s) as [r |] eqn:E; [| reflexivity].
      apply dropWhite_shorter in E. apply IH; lia.
Qed.

(** [trimStart] drops white-space characters as long as the text starts
    with one: the bound on their number is never reached. *)
Lemma trimStart_unfold (s : string) :
  trimStart s =
    match dropWhite s with
    | Some r => trimStart r
    | None => s
    end.
Proof.
  unfold trimStart. destruct s as [| a s]; [reflexivity |].
  cbn [String.length trimStartFrom].
  destruct (dropWhite (String a s)) as [r |] eqn:E; [| reflexivity].
  apply dropWhite_shorter in E. simpl in E. apply trimStartFrom_enough; lia.
Qed.

Lemma trimStart_encode (cs : list N) (rest : string) :
  Forall (fun c => In c whiteSpace) cs ->
  trimStart (encode cs +++ rest) = trimStart rest.
Proof.
  induction 1 as [| c cs Hc _ IH]; [reflexivity |].
  simpl. rewrite string_app_assoc, trimStart_unfold, dropWhite_white by exact Hc.
  exact IH.
Qed.

Lemma trimStart_split (s : string) :
  exists l, allWhite l /\ s = l +++ trimStart s /\ dropWhite (trimStart s) = None.
Proof.
  remember (String.length s) as n eqn:Hn. revert s Hn.
  induction n as [n IH] using lt_wf_ind. intros s ->.
  rewrite trimStart_unfold. destruct (dropWhite s) as [r |] eqn:E.
  - destruct (dropWhite_sound s r E) as (c & Hc & ->).
    destruct (IH (String.length r) (dropWhite_shorter _ _ E) r eq_refl)
      as (l & (cs & Hcs & ->) & Hr & Hnone).
    exists (utf8 c +++ encode cs). split; [exists (c :: cs); split; auto |].
    split; [| exact Hnone]. rewrite string_app_assoc. congruence.
  - exists "". split; [exists []; split; auto |]. split; [reflexivity | exact E].
Qed.

(** [blank] decides [allWhite]. *)
Lemma blank_spec (s : string) : blank s = true <-> allWhite s.
Proof.
  unfold blank. split.
  - intros H. apply String.eqb_eq in H.
    destruct (trimStart_split s) as (l & Hl & Hs & _).
    rewrite H, string_app_nil_r in Hs. now subst.
  - intros (cs & Hcs & ->). apply String.eqb_eq.
    rewrite <- (string_app_nil_r (encode cs)), trimStart_encode by exact Hcs.
    reflexivity.
Qed.

Lemma not_blank_spec (s : string) : blank s = false <-> ~ allWhite s.
Proof.
  rewrite <- blank_spec. destruct (blank s); split; congruence.
Qed.

Lemma encode_app (cs ds : list N) : encode (cs ++ ds) = encode cs +++ encode ds.
Proof.
  induction cs as [| c cs IH]; simpl; [reflexivity |].
  rewrite string_app_assoc. congruence.
Qed.

Lemma allWhite_app (a b : string) : allWhite a -> allWhite b -> allWhite (a +++ b).
Proof.
  intros (cs & Hcs & ->) (ds & Hds & ->). exists (cs ++ ds). split.
  - apply Forall_app; auto.
  - symmetry. apply encode_app.
Qed.

Lemma trimEnd_split (s : string) :
  exists r, allWhite r /\ s = trimEnd s +++ r.
Proof.
  induction s as [| a s (r & Hr & Hs)].
  - exists "". split; [exists []; split; auto | reflexivity].
  - cbn [trimEnd]. destruct (blank (String a s)) eqn:E.
    + exists (String a s). split; [now apply blank_spec | reflexivity].
    + exists r. split; [exact Hr |]. simpl. congruence.
Qed.

(** [trimEnd] keeps the shortest start of the text after which only white
    space is left. *)
Lemma trimEnd_shortest (s : string) :
  forall p r, s = p +++ r -> allWhite r ->
              String.length (trimEnd s) <= String.length p.
Proof.
  induction s as [| a s IH]; intros p r Hs Hr; [simpl; lia |].
  cbn [trimEnd]. destruct (blank (String a s)) eqn:E; [simpl; lia |].
  destruct p as [| b p].
  - simpl in Hs. subst r. apply blank_spec in Hr. congruence.
  - simpl in Hs. injection Hs as -> Hs. simpl.
    apply le_n_S. exact (IH p r Hs Hr).
Qed.

Lemma trimEnd_prefix_none (s : string) :
  dropWhite s = None -> dropWhite (trimEnd s) = None.
Proof.
  intros H. apply dropOneOf_none. intros c rest Hc Ht.
  destruct (trimEnd_split s) as (r & _ & Hs).
  rewrite Ht, string_app_assoc in Hs.
  unfold dropWhite in H. rewrite dropOneOf_none in H. exact (H c _ Hc Hs).
Qed.

(** What [trim] returns: the text without a run of white-space characters
    at its start and one at its end, and with no white-space character left
    at either end. *)
Lemma trim_spec (s : string) : trimmedOf s (trim s).
Proof.
  unfold trim. destruct (trimStart_split s) as (l & Hl & Hs & Hnone).
  destruct (trimEnd_split (trimStart s)) as (r & Hr & Ht).
  split; [| split].
  - exists l, r. split; [exact Hl |]. split; [exact Hr |]. congruence.
  - apply dropOneOf_none. apply trimEnd_prefix_none. exact Hnone.
  - intros c rest Hc Hx.
    assert (Hw : allWhite (utf8 c +++ r)).
    { apply allWhite_app; [| exact Hr]. exists [c]. split; [auto |].
      simpl. now rewrite string_app_nil_r. }
    rewrite Hx, string_app_assoc in Ht.
    pose proof (trimEnd_shortest _ _ _ Ht Hw) as Hle.
    rewrite Hx, string_app_length in Hle. pose proof (utf8_nonempty c). lia.
Qed.

Lemma trim_empty_iff (s : string) : trim s = "" <-> allWhite s.
Proof.
  destruct (trim_spec s) as ((l & r & Hl & Hr & Hs) & _ & _). split.
  - intros H. rewrite H in Hs. simpl in Hs. subst s. now apply allWhite_app.
  - intros H. unfold trim. apply blank_spec in H. unfold blank in H.
    apply String.eqb_eq in H. rewrite H. reflexivity.
Qed.

Lemma string_app_split (x : string) :
  forall a y b,
    x +++ y = a +++ b ->
    (exists z, x = a +++ z /\ b = z +++ y) \/
    (exists z, z <> "" /\ a = x +++ z /\ y = z +++ b).
Proof.
  induction x as [| h x IH]; intros a y b H.
  - simpl in H. destruct a as [| k a].
    + left. exists "". split; [reflexivity | exact (eq_sym H)].
    + right. exists (String k a). split; [discriminate |]. split; [reflexivity | exact H].
  - destruct a as [| k a].
    + left. exists (String h x). split; [reflexivity |]. simpl in H. now rewrite <- H.
    + simpl in H. injection H as -> H.
      destruct (IH a y b H) as [(z & -> & ->) | (z & Hz & -> & ->)].
      * left. exists z. split; reflexivity.
      * right. exists z. split; [exact Hz |]. split; reflexivity.
Qed.

Lemma in_later_bytes (x z : string) (a : ascii) :
  x <> "" -> In a (tl (list_ascii_of_string (x +++ String a z))).
Proof.
  destruct x as [| h x]; [congruence |]. intros _. simpl.
  induction x as [| k x IH]; simpl; auto.
Qed.

(** No byte after the first of the encoding of a white-space character is
    the first byte of the encoding of one. *)
Lemma white_no_overlap (c d : N) (x z y : string) (a b : ascii) :
  In c whiteSpace -> In d whiteSpace ->
  x <> "" -> utf8 c = x +++ String a z -> utf8 d = String b y -> a <> b.
Proof.
  intros Hc Hd Hx Ec Ed.
  assert (Hcheck :
    forallb
      (fun c =>
         forallb
           (fun a =>
              forallb
                (fun d => negb (Ascii.eqb (hd a (list_ascii_of_string (utf8 d))) a))
                whiteSpace)
           (tl (list_ascii_of_string (utf8 c))))
      whiteSpace = true) by (vm_compute; reflexivity).
  rewrite forallb_forall in Hcheck. specialize (Hcheck c Hc).
  rewrite forallb_forall in Hcheck.
  assert (Ha : In a (tl (list_ascii_of_string (utf8 c)))).
  { rewrite Ec. now apply in_later_bytes. }
  specialize (Hcheck a Ha). rewrite forallb_forall in Hcheck.
  specialize (Hcheck d Hd). rewrite Ed in Hcheck. simpl in Hcheck.
  intros ->. rewrite Ascii.eqb_refl in Hcheck. discriminate Hcheck.
Qed.

Lemma allWhite_starts (r : string) :
  allWhite r -> r <> "" -> exists d y, In d whiteSpace /\ r = utf8 d +++ y.
Proof.
  intros (cs & Hcs & ->) Hne. destruct cs as [| d cs]; [now elim Hne |].
  exists d, (encode cs). split; [now inversion Hcs | reflexivity].
Qed.

(** A text that starts inside the encoding of a white-space character is not
    white space. *)
Lemma white_not_inside (c : N) (x z q : string) :
  In c whiteSpace -> x <> "" -> z <> "" -> utf8 c = x +++ z ->
  ~ allWhite (z +++ q).
Proof.
  intros Hc Hx Hz Ec Hw. destruct z as [| a z]; [now elim Hz |].
  destruct (allWhite_starts _ Hw) as (d & y & Hd & Ey); [discriminate |].
  destruct (utf8 d) as [| b u] eqn:Ed.
  { pose proof (utf8_nonempty d) as Hl. rewrite Ed in Hl. simpl in Hl. lia. }
  simpl in Ey. injection Ey as Eab _.
  exact (white_no_overlap c d x z u a b Hc Hd Hx Ec Ed Eab).
Qed.

Lemma allWhite_nil : allWhite "".
Proof. exists []. split; [constructor | reflexivity]. Qed.

(** What comes before white space in a text of white space is white space. *)
Lemma allWhite_before (x y : string) :
  allWhite (x +++ y) -> allWhite y -> allWhite x.
Proof.
  intros (cs & Hcs & E) Hy. revert x E.
  induction Hcs as [| c cs Hc Hcs IH]; intros x E.
  - destruct x; [apply allWhite_nil | discriminate E].
  - simpl in E. apply string_app_split in E.
    destruct E as [(z & -> & E) | (z & Hz & E & Ey)].
    + apply allWhite_app; [| apply IH; congruence].
      exists [c]. split; [auto |]. simpl. now rewrite string_app_nil_r.
    + destruct x as [| h x]; [apply allWhite_nil |].
      exfalso. rewrite Ey in Hy.
      exact (white_not_inside c (String h x) z (encode cs) Hc
               ltac:(discriminate) Hz E Hy).
Qed.

Lemma dropWhite_before (t r : string) :
  dropWhite t = None -> t <> "" -> allWhite r -> dropWhite (t +++ r) = None.
Proof.
  intros Ht Hne Hr. destruct (dropWhite (t +++ r)) as [q |] eqn:E; [| reflexivity].
  exfalso. destruct (dropWhite_sound _ _ E) as (c & Hc & Es).
  apply string_app_split in Es.
  destruct Es as [(z & Et & _) | (z & Hz & Ec & Er)].
  - unfold dropWhite in Ht. rewrite dropOneOf_none in Ht. exact (Ht c z Hc Et).
  - rewrite Er in Hr. exact (white_not_inside c t z q Hc Hne Hz Ec Hr).
Qed.

Lemma allWhite_ends (x : string) :
  allWhite x -> x <> "" -> exists c rest, In c whiteSpace /\ x = rest +++ utf8 c.
Proof.
  intros (cs & Hcs & ->) Hne.
  destruct cs as [| c0 cs] using rev_ind; [now elim Hne |].
  apply Forall_app in Hcs. destruct Hcs as [_ Hc]. inversion Hc; subst.
  exists c0, (encode cs). split; [assumption |].
  rewrite encode_app. simpl. now rewrite string_app_nil_r.
Qed.

Lemma trimEnd_white (t r : string) :
  allWhite r -> (forall c rest, In c whiteSpace -> t <> rest +++ utf8 c) ->
  trimEnd (t +++ r) = t.
Proof.
  intros Hr Hend.
  destruct (trimEnd_split (t +++ r)) as (r0 & Hr0 & E).
  pose proof (trimEnd_shortest (t +++ r) t r eq_refl Hr) as Hle.
  symmetry in E. apply string_app_split in E.
  destruct E as [(z & Ez & _) | (z & Hz & Et & Er0)].
  - rewrite Ez, string_app_length in Hle.
    destruct z; [now rewrite string_app_nil_r in Ez | simpl in Hle; lia].
  - exfalso. rewrite Er0 in Hr0.
    destruct (allWhite_ends z (allWhite_before z r Hr0 Hr) Hz)
      as (c & rest & Hc & Ez).
    apply (Hend c (trimEnd (t +++ r) +++ rest) Hc).
    rewrite string_app_assoc, <- Ez. exact Et.
Qed.

(** The trimmed text is the only one: [trimmedOf] determines it. *)
Lemma trimmedOf_unique (s t : string) : trimmedOf s t -> t = trim s.
Proof.
  intros ((l & r & (cs & Hcs & ->) & Hr & ->) & Hstart & Hend).
  unfold trim. rewrite trimStart_encode by exact Hcs.
  destruct t as [| a t].
  - simpl. apply blank_spec in Hr. unfold blank in Hr. apply String.eqb_eq in Hr.
    rewrite Hr. reflexivity.
  - assert (Hnone : dropWhite (String a t +++ r) = None).
    { apply dropWhite_before; [| discriminate | exact Hr].
      apply dropOneOf_none. exact Hstart. }
    rewrite trimStart_unfold, Hnone. symmetry. now apply trimEnd_white.
Qed.

Example trim_buy_milk : trim "   Buy milk  " = "Buy milk".
Proof. reflexivity. Qed.

(** An ideographic space (U+3000), a no-break space (U+00A0) and a byte
    order mark (U+FEFF) are trimmed like the space of the keyboard. *)
Example trim_wide_space :
  trim (utf8 12288 +++ " Buy milk" +++ utf8 160 +++ utf8 65279) = "Buy milk" /\
  trim (utf8 12288) = "" /\
  utf8 12288 = String (ascii_of_nat 227) (String (ascii_of_nat 128)
                 (String (ascii_of_nat 128) "")).
Proof. repeat split. Qed.

(** ** Sums of numbers *)

Lemma roundDouble_safe (z : Z) : safeInteger z -> roundDouble z = z.
Proof.
  unfold safeInteger, maxSafeInteger, roundDouble. intros Hz.
  assert (Hlog : (Z.log2 (Z.abs z) < 53)%Z).
  { destruct (Z.eq_dec (Z.abs z) 0) as [E | E]; [rewrite E; reflexivity |].
    apply Z.log2_lt_pow2; [lia |]. change (2 ^ 53)%Z with 9007199254740992%Z. lia. }
  cbv zeta. destruct (Z.leb_spec (Z.log2 (Z.abs z) - 52) 0); [reflexivity | lia].
Qed.

Lemma numAdd_safe (a b : Z) : safeInteger (a + b) -> numAdd a b = (a + b)%Z.
Proof. apply roundDouble_safe. Qed.

(** Beyond the safe integers a sum is rounded: 2^53 - 1 and 10 add up to
    a number 9 above the first, 2^54 and 10 to a number 8 above it. *)
Example numAdd_rounds :
  numAdd 9007199254740991 10 = 9007199254741000%Z /\
  numAdd 18014398509481984 10 = 18014398509481992%Z /\
  numAdd 20 10 = 30%Z.
Proof. repeat split. Qed.

Section ProjectFacts.

Variable nowAt : nat -> string.
Variable window_confirm : string -> bool.

(** The status handler on [done], by the three ways it can go. *)
Lemma onProjectStatusChange_done (sel : string) (w : World) :
  let owned := fun t => optEqb (Task.projectId t) (Some sel) in
  let incompleted := filter notDone (filter owned (tasks w)) in
  let n := List.length incompleted in
  (0 < n -> window_confirm (projectPrompt n) = false ->
   onProjectStatusChange nowAt window_confirm sel "done" w = w) /\
  (n = 0 ->
   onProjectStatusChange nowAt window_confirm sel "done" w =
     commitProjectState sel "done" w) /\
  (0 < n -> window_confirm (projectPrompt n) = true ->
   exists next clk,
     onProjectStatusChange nowAt window_confirm sel "done" w =
       commitProjectState sel "done"
         (mkWorld next (projects w) (view w) (quickText w)
            (log w ++ [SetTasks next;
                       UpdateDocs (map (fun task => doneWrite (Task.id task))
                                     incompleted)])
            clk) /\
     clock w <= clk /\
     Forall2
       (fun t t' =>
          (Task.projectId t = Some sel -> Task.state t <> "done" ->
           exists k, clock w <= k /\ S k < clk /\
                     t' = asDone t (nowAt k) (nowAt (S k))) /\
          (Task.projectId t <> Some sel \/ Task.state t = "done" -> t' = t))
       (tasks w) next).
Proof.
  intros owned incompleted n. unfold onProjectStatusChange. simpl String.eqb.
  fold owned. fold incompleted. fold n.
  split; [| split].
  - intros Hn Hno. rewrite Hno.
    destruct (Nat.ltb_spec 0 n) as [_ | Hc]; [reflexivity | lia].
  - intros ->. reflexivity.
  - intros Hn Hyes. rewrite Hyes.
    destruct (Nat.ltb_spec 0 n) as [_ | Hc]; [| lia]. simpl negb.
    destruct (mapTasks (projectStep nowAt sel) (tasks w) (clock w))
      as [next clk] eqn:Em.
    exists next, clk. split; [reflexivity |].
    destruct (mapTasks_spec _ (projectStep_mono nowAt sel) _ _ _ _ Em) as [Hle HF].
    split; [exact Hle |].
    eapply Forall2_impl; [| exact HF].
    intros t t' (c & Hc1 & Hc2 & ->). unfold projectStep in *.
    destruct (optEqb (Task.projectId t) (Some sel)) eqn:Eo;
      destruct (String.eqb_spec (Task.state t) "done") as [Ed | Ed];
      simpl in *.
    + split; [intros _ Hnd; contradiction | reflexivity].
    + apply optEqb_eq in Eo. split.
      * intros _ _. exists c. repeat split; lia.
      * intros [Hx | Hx]; contradiction.
    + split; [| reflexivity]. intros Hp. apply optEqb_eq in Hp. congruence.
    + split; [| reflexivity]. intros Hp. apply optEqb_eq in Hp. congruence.
Qed.

End ProjectFacts.

(** ** Completing a task *)

Lemma tripTasks_ranked : ranked tripRank tripTasks.
Proof. each_task. Qed.

Section CascadeClaims.

Variable nowAt : nat -> string.
Variable window_confirm : string -> bool.

(** C1 (as amended): when a task [id] is set to [done] while some of its
    descendants are not done and the user confirms, the records that end
    [done] with a completion time are exactly those carrying the id of [id]
    or of a descendant of [id], the descendants that were already done
    included, and every other record is left as it was; when the user
    declines, nothing changes. *)
Theorem cascade_completes_every_descendant
  (rank : string -> nat) (stack : nat) (id : string) (patch : Patch) (w : World) :
  ranked rank (tasks w) -> rank id < stack -> Patch.state patch = Some "done" ->
  exists ds,
    getDescendantTasks stack id (tasks w) = Returned ds /\
    (forall t, In t ds <-> descendantOf (tasks w) id t) /\
    let n := List.length (filter notDone ds) in
    (0 < n -> window_confirm (taskPrompt n) = true ->
     exists w',
       updateTask nowAt window_confirm stack id patch w = Returned w' /\
       completedExactly (cascadeTargets (fun _ => true) (tasks w) id)
         (tasks w) (tasks w') /\
       projects w' = projects w) /\
    (0 < n -> window_confirm (taskPrompt n) = false ->
     updateTask nowAt window_confirm stack id patch w = Returned w).
Proof.
  intros Hr Hlt Hst.
  destruct (getDescendantTasks_spec rank (tasks w) stack id Hr Hlt) as (ds & Hds & Hiff).
  exists ds. split; [exact Hds |]. split; [exact Hiff |]. intros n.
  destruct (updateTask_done nowAt window_confirm stack id patch w ds Hst Hds)
    as [Hno Hgo].
  fold n in Hno, Hgo. split; [| exact Hno].
  intros Hn Hyes. destruct (Hgo (or_intror Hyes)) as (next & clk & E & _ & HF).
  eexists. split; [exact E |]. simpl. split; [| reflexivity].
  unfold completedExactly. eapply Forall2_impl; [| exact HF].
  intros t t' [Hin Hout].
  pose proof (includes_cascadeTargets (tasks w) ds id t Hiff) as Hinc.
  split.
  - intros Ha. apply Hinc in Ha. destruct (Hin Ha) as (k & _ & _ & ->).
    simpl. split; [reflexivity | discriminate].
  - intros Hna. apply Hout.
    destruct (includes (id :: map Task.id ds) (Task.id t)); [| reflexivity].
    exfalso. apply Hna. now apply Hinc.
Qed.

(** C8: when a task [id] is set to [done] and the cascade goes ahead (the
    user confirms, or no descendant is incomplete so no prompt is shown), the
    update set is [id] and all of its descendants.  The remote writes go to
    each of them, and locally each record with one of those ids gets state
    [done], [doneAt] and [updatedAt] taken from the clock; so a descendant
    that was already done has the completion time it carried replaced. *)
Theorem cascade_overwrites_done_descendants
  (rank : string -> nat) (stack : nat) (id : string) (patch : Patch) (w : World) :
  ranked rank (tasks w) -> rank id < stack -> Patch.state patch = Some "done" ->
  exists ds,
    getDescendantTasks stack id (tasks w) = Returned ds /\
    (forall t, In t ds <-> descendantOf (tasks w) id t) /\
    let n := List.length (filter notDone ds) in
    (n = 0 \/ window_confirm (taskPrompt n) = true ->
     exists w',
       updateTask nowAt window_confirm stack id patch w = Returned w' /\
       log w' = log w ++ [SetTasks (tasks w');
                          UpdateDocs (map doneWrite (id :: map Task.id ds))] /\
       Forall2
         (fun t t' =>
            (cascadeTargets (fun _ => true) (tasks w) id t ->
             exists k, clock w <= k /\ t' = asDone t (nowAt k) (nowAt (S k))) /\
            (~ cascadeTargets (fun _ => true) (tasks w) id t -> t' = t))
         (tasks w) (tasks w') /\
       (forall d d',
          In (d, d') (combine (tasks w) (tasks w')) ->
          descendantOf (tasks w) id d -> Task.state d = "done" ->
          exists k, clock w <= k /\
                    Task.state d' = "done" /\
                    Task.doneAt d' = Some (nowAt k) /\
                    Task.updatedAt d' = nowAt (S k))).
Proof.
  intros Hr Hlt Hst.
  destruct (getDescendantTasks_spec rank (tasks w) stack id Hr Hlt) as (ds & Hds & Hiff).
  exists ds. split; [exact Hds |]. split; [exact Hiff |]. intros n Hgo.
  destruct (updateTask_done nowAt window_confirm stack id patch w ds Hst Hds)
    as [_ Hrun].
  destruct (Hrun Hgo) as (next & clk & E & _ & HF).
  eexists. split; [exact E |]. simpl. split; [reflexivity |].
  assert (HF' :
    Forall2
      (fun t t' =>
         (cascadeTargets (fun _ => true) (tasks w) id t ->
          exists k, clock w <= k /\ t' = asDone t (nowAt k) (nowAt (S k))) /\
         (~ cascadeTargets (fun _ => true) (tasks w) id t -> t' = t))
      (tasks w) next).
  { eapply Forall2_impl; [| exact HF].
    intros t t' [Hin Hout].
    pose proof (includes_cascadeTargets (tasks w) ds id t Hiff) as Hinc.
    split.
    - intros Ha. apply Hinc in Ha. destruct (Hin Ha) as (k & Hk & _ & ->). eauto.
    - intros Hna. apply Hout.
      destruct (includes (id :: map Task.id ds) (Task.id t)); [| reflexivity].
      exfalso. apply Hna. now apply Hinc. }
  split; [exact HF' |].
  intros d d' Hin Hd _.
  destruct (Forall2_combine_in _ _ _ HF' d d' Hin) as [Hyes _].
  destruct Hyes as (k & Hk & ->).
  - right. exists d. auto.
  - exists k. simpl. auto.
Qed.

(** C4: a patch that sets a state other than [done] on a task that is done
    clears its completion time, locally and in the remote write, and leaves
    every other record, its descendants among them, as it was; a patch that
    sets [done], when the cascade goes ahead, gives the task a completion
    time read from the clock. *)
Theorem state_change_sets_doneAt
  (rank : string -> nat) (stack : nat) (id : string) (patch : Patch) (w : World)
  (s : TaskState) :
  Patch.state patch = Some s ->
  (s <> "" -> s <> "done" ->
   exists w' updates,
     updateTask nowAt window_confirm stack id patch w = Returned w' /\
     log w' = log w ++ [SetTasks (tasks w');
                        UpdateDocs [mkWrite "tasks" id updates]] /\
     ((exists cur, find (fun t => String.eqb (Task.id t) id) (tasks w) = Some cur /\
                   Task.state cur = "done") ->
      lookupField "doneAt" updates = Some FNull) /\
     Forall2
       (fun t t' =>
          (Task.id t = id ->
           Task.state t' = s /\
           (Task.state t = "done" -> Task.doneAt t' = None) /\
           (Task.state t <> "done" -> Task.doneAt t' = Task.doneAt t)) /\
          (Task.id t <> id -> t' = t))
       (tasks w) (tasks w') /\
     (forall d d',
        In (d, d') (combine (tasks w) (tasks w')) ->
        descendantOf (tasks w) id d -> Task.id d <> id -> d' = d)) /\
  (s = "done" -> ranked rank (tasks w) -> rank id < stack ->
   exists ds,
     getDescendantTasks stack id (tasks w) = Returned ds /\
     let n := List.length (filter notDone ds) in
     (n = 0 \/ window_confirm (taskPrompt n) = true ->
      exists w',
        updateTask nowAt window_confirm stack id patch w = Returned w' /\
        Forall2
          (fun t t' =>
             Task.id t = id ->
             exists k, clock w <= k /\ k < clock w' /\
                       Task.state t' = "done" /\
                       Task.doneAt t' = Some (nowAt k))
          (tasks w) (tasks w'))).
Proof.
  intros Hst. split.
  - intros Hne Hnd.
    assert (Hp : Patch.state patch <> Some "done") by congruence.
    assert (Hg : stateGiven patch = true).
    { unfold stateGiven. rewrite Hst.
      destruct (String.eqb_spec s ""); [contradiction | reflexivity]. }
    destruct (updateTask_patch nowAt window_confirm stack id patch w Hp)
      as (next & clk & updates & E & _ & _ & Hdone & HF).
    eexists _, updates. split; [exact E |]. simpl.
    split; [reflexivity |]. split; [exact (Hdone Hg) |].
    assert (HF' :
      Forall2
        (fun t t' =>
           (Task.id t = id ->
            Task.state t' = s /\
            (Task.state t = "done" -> Task.doneAt t' = None) /\
            (Task.state t <> "done" -> Task.doneAt t' = Task.doneAt t)) /\
           (Task.id t <> id -> t' = t))
        (tasks w) next).
    { eapply Forall2_impl; [| exact HF].
      intros t t' [Hin Hout]. split; [| exact Hout].
      intros Hid. destruct (Hin Hid) as (k & _ & _ & ->).
      rewrite Hg. simpl. rewrite Hst. simpl.
      destruct (String.eqb_spec (Task.state t) "done") as [Ed | Ed];
        repeat split; congruence. }
    split; [exact HF' |].
    intros d d' Hin _ Hid.
    destruct (Forall2_combine_in _ _ _ HF' d d' Hin) as [_ Hout]. auto.
  - intros -> Hr Hlt.
    destruct (getDescendantTasks_returns rank (tasks w) Hr stack id Hlt) as [ds Hds].
    exists ds. split; [exact Hds |]. intros n Hgo.
    destruct (updateTask_done nowAt window_confirm stack id patch w ds Hst Hds)
      as [_ Hrun].
    destruct (Hrun Hgo) as (next & clk & E & _ & HF).
    eexists. split; [exact E |]. simpl.
    eapply Forall2_impl; [| exact HF].
    intros t t' [Hin _] Hid.
    destruct Hin as (k & Hk1 & Hk2 & ->).
    + apply includes_spec. left. now symmetry.
    + exists k. simpl. repeat split; lia || reflexivity.
Qed.

End CascadeClaims.

(** ** The handlers *)

Lemma localBeforeRemote_set_then_update (next : list Task) (batch : list Write) :
  localBeforeRemote [SetTasks next; UpdateDocs batch].
Proof.
  intros pre e post H Hr.
  destruct pre as [| x pre]; simpl in H.
  - injection H as <- _. discriminate Hr.
  - injection H as <- H. exists (SetTasks next). split; [now left | reflexivity].
Qed.

Section HandlerClaims.

Variable nowAt : nat -> string.
Variable window_confirm : string -> bool.

(** C2: when the prompt of a cascade is declined, the handler returns with
    the world as it found it: the task collection, the project collection
    and the log of effects, remote writes included, are unchanged.  This
    holds for marking a task done that has incomplete descendants and for
    marking a project done that owns incomplete tasks. *)
Theorem declined_cascade_changes_nothing
  (rank : string -> nat) (stack : nat) (id : string) (patch : Patch)
  (sel : string) (w : World) :
  (ranked rank (tasks w) -> rank id < stack -> Patch.state patch = Some "done" ->
   exists ds,
     getDescendantTasks stack id (tasks w) = Returned ds /\
     (forall t, In t ds <-> descendantOf (tasks w) id t) /\
     let n := List.length (filter notDone ds) in
     (0 < n -> window_confirm (taskPrompt n) = false ->
      updateTask nowAt window_confirm stack id patch w = Returned w /\
      untouched w w)) /\
  (let n :=
     List.length
       (filter notDone
          (filter (fun t => optEqb (Task.projectId t) (Some sel)) (tasks w))) in
   let w' := onProjectStatusChange nowAt window_confirm sel "done" w in
   0 < n -> window_confirm (projectPrompt n) = false ->
   w' = w /\ untouched w w').
Proof.
  split.
  - intros Hr Hlt Hst.
    destruct (getDescendantTasks_spec rank (tasks w) stack id Hr Hlt)
      as (ds & Hds & Hiff).
    exists ds. split; [exact Hds |]. split; [exact Hiff |].
    intros n Hn Hno. split; [| repeat split].
    apply (updateTask_done nowAt window_confirm stack id patch w ds Hst Hds);
      assumption.
  - intros n w' Hn Hno.
    assert (E : w' = w)
      by (apply (onProjectStatusChange_done nowAt window_confirm sel w);
          assumption).
    rewrite E. repeat split.
Qed.

(** C3 (as amended): setting a project to [done] while it owns a task that
    is not done asks for confirmation; declined, nothing changes; accepted,
    every owned task that was not done becomes [done] with a completion time
    read from the clock, every other record (the owned tasks that were
    already done among them) is left as it was, so every owned task ends in
    state [done], and every owned task ends with a completion time provided
    the ones already done carried one; the project itself is then written
    and set to [done]. *)
Theorem project_done_cascade (sel : string) (w : World) :
  let owned := fun t => optEqb (Task.projectId t) (Some sel) in
  let incompleted := filter notDone (filter owned (tasks w)) in
  let n := List.length incompleted in
  let w' := onProjectStatusChange nowAt window_confirm sel "done" w in
  0 < n ->
  (window_confirm (projectPrompt n) = false -> w' = w) /\
  (window_confirm (projectPrompt n) = true ->
   Forall2
     (fun t t' =>
        (Task.projectId t = Some sel -> Task.state t <> "done" ->
         exists k, clock w <= k /\ t' = asDone t (nowAt k) (nowAt (S k))) /\
        (Task.projectId t <> Some sel \/ Task.state t = "done" -> t' = t))
     (tasks w) (tasks w') /\
   (forall t', In t' (tasks w') -> Task.projectId t' = Some sel ->
               Task.state t' = "done") /\
   ((forall t, In t (tasks w) -> Task.projectId t = Some sel ->
               Task.state t = "done" -> Task.doneAt t <> None) ->
    forall t', In t' (tasks w') -> Task.projectId t' = Some sel ->
               Task.doneAt t' <> None) /\
   projects w' =
     map (fun p => if String.eqb (Project.id p) sel
                   then withProjectState p "done" else p) (projects w) /\
   log w' =
     log w ++ [SetTasks (tasks w');
               UpdateDocs (map (fun task => doneWrite (Task.id task)) incompleted);
               UpdateDocs [mkWrite "projects" sel [("state", FString "done")]];
               SetProjects (projects w')]).
Proof.
  intros owned incompleted n w' Hn.
  destruct (onProjectStatusChange_done nowAt window_confirm sel w)
    as (Hno & _ & Hyes).
  fold owned incompleted n in Hno, Hyes. fold w' in Hno.
  split; [exact (Hno Hn) |].
  intros Hc. destruct (Hyes Hn Hc) as (next & clk & E & _ & HF).
  unfold w'. rewrite E. simpl.
  pose proof (Forall2_image _ _ _ HF) as Hpair.
  assert (Hcase : forall t, Task.state t = "done" \/ Task.state t <> "done").
  { intros t. destruct (String.eqb_spec (Task.state t) "done"); auto. }
  split; [| split; [| split; [| split]]].
  - eapply Forall2_impl; [| exact HF].
    intros t t' [Hin Hout]. split; [| exact Hout].
    intros Hp Hs. destruct (Hin Hp Hs) as (k & Hk & _ & ->). eauto.
  - intros t' Hin Hp. destruct (Hpair t' Hin) as (t & Ht & Hyes' & Hkeep).
    destruct (Hcase t) as [Hd | Hd].
    + rewrite (Hkeep (or_intror Hd)). exact Hd.
    + destruct (optEqb (Task.projectId t) (Some sel)) eqn:Eo.
      * apply optEqb_eq in Eo. destruct (Hyes' Eo Hd) as (k & _ & _ & ->).
        reflexivity.
      * assert (Hnp : Task.projectId t <> Some sel).
        { intros Hx. apply optEqb_eq in Hx. congruence. }
        rewrite (Hkeep (or_introl Hnp)) in Hp. contradiction.
  - intros Hstamp t' Hin Hp. destruct (Hpair t' Hin) as (t & Ht & Hyes' & Hkeep).
    destruct (Hcase t) as [Hd | Hd].
    + rewrite (Hkeep (or_intror Hd)) in *. now apply Hstamp.
    + destruct (optEqb (Task.projectId t) (Some sel)) eqn:Eo.
      * apply optEqb_eq in Eo. destruct (Hyes' Eo Hd) as (k & _ & _ & ->).
        discriminate.
      * assert (Hnp : Task.projectId t <> Some sel).
        { intros Hx. apply optEqb_eq in Hx. congruence. }
        rewrite (Hkeep (or_introl Hnp)) in Hp. contradiction.
  - reflexivity.
  - rewrite <- app_assoc. reflexivity.
Qed.

(** C5 (as amended): [updateTask], in its cascade branch and in its normal
    branch, replaces the local task collection first and dispatches the
    remote writes after it, the writes of a cascade in one batch, one per
    updated id; the project status handler does the same for the tasks it
    completes, then writes the project and only after that replaces the
    local project list; quick-add dispatches the remote insert first and
    appends the new task to the local collection after it. *)
Theorem effect_order
  (docId : string) (stack : nat) (id : string) (patch : Patch)
  (sel newState : string) (w : World) :
  (let w' := addQuickTask nowAt docId w in
   w' = w \/
   exists data, log w' = log w ++ [AddDoc "tasks" data; SetTasks (tasks w')]) /\
  (match updateTask nowAt window_confirm stack id patch w with
   | Thrown _ => True
   | Returned w' =>
       w' = w \/
       exists batch,
         log w' = log w ++ [SetTasks (tasks w'); UpdateDocs batch] /\
         localBeforeRemote [SetTasks (tasks w'); UpdateDocs batch] /\
         (Patch.state patch = Some "done" ->
          exists ds, getDescendantTasks stack id (tasks w) = Returned ds /\
                     batch = map doneWrite (id :: map Task.id ds)) /\
         (Patch.state patch <> Some "done" ->
          exists updates, batch = [mkWrite "tasks" id updates])
   end) /\
  (let w' := onProjectStatusChange nowAt window_confirm sel newState w in
   let projectWrite := mkWrite "projects" sel [("state", FString newState)] in
   w' = w \/
   log w' = log w ++ [UpdateDocs [projectWrite]; SetProjects (projects w')] \/
   exists batch,
     log w' = log w ++ [SetTasks (tasks w'); UpdateDocs batch;
                        UpdateDocs [projectWrite]; SetProjects (projects w')]).
Proof.
  split; [| split].
  - unfold addQuickTask. destruct (String.eqb (trim (quickText w)) "").
    + left. reflexivity.
    + right. eexists. simpl. rewrite <- app_assoc. reflexivity.
  - destruct (optEqb (Patch.state patch) (Some "done")) eqn:Est.
    + apply optEqb_eq in Est.
      destruct (getDescendantTasks stack id (tasks w)) as [ds | e] eqn:Hds.
      * destruct (updateTask_done nowAt window_confirm stack id patch w ds Est Hds)
          as [Hno Hgo].
        set (n := List.length (filter notDone ds)) in *.
        destruct (window_confirm (taskPrompt n)) eqn:Hc.
        -- destruct (Hgo (or_intror eq_refl)) as (next & clk & -> & _).
           right. eexists. simpl. split; [reflexivity |].
           split; [apply localBeforeRemote_set_then_update |].
           split; [intros _; exists ds; auto | intros Hx; contradiction].
        -- destruct (Nat.eq_dec n 0) as [Hz | Hz].
           ++ destruct (Hgo (or_introl Hz)) as (next & clk & -> & _).
              right. eexists. simpl. split; [reflexivity |].
              split; [apply localBeforeRemote_set_then_update |].
              split; [intros _; exists ds; auto | intros Hx; contradiction].
           ++ rewrite Hno by (lia || reflexivity). left. reflexivity.
      * unfold updateTask. rewrite Est. simpl optEqb. rewrite Hds. exact I.
    + assert (Hp : Patch.state patch <> Some "done").
      { intros Hx. apply optEqb_eq in Hx. congruence. }
      destruct (updateTask_patch nowAt window_confirm stack id patch w Hp)
        as (next & clk & updates & -> & _).
      right. eexists. simpl. split; [reflexivity |].
      split; [apply localBeforeRemote_set_then_update |].
      split; [intros Hx; contradiction | intros _; eauto].
  - unfold onProjectStatusChange.
    destruct (String.eqb newState "done"); [| right; left; reflexivity].
    destruct (0 <? _)%nat; [| right; left; reflexivity].
    destruct (negb _); [left; reflexivity |].
    destruct (mapTasks _ _ _) as [next clk].
    right. right. eexists. simpl. rewrite <- app_assoc. reflexivity.
Qed.

(** C10: quick-add on a text that is empty or consists of white space only
    returns with the world as it found it: no task is appended, no insert is
    dispatched, the task collection is unchanged.  On any other text it
    inserts remotely and appends locally one new task whose text is the
    trimmed input: the input without the white space at its two ends. *)
Theorem addQuickTask_blank_is_noop (docId : string) (w : World) :
  (allWhite (quickText w) ->
   addQuickTask nowAt docId w = w /\
   untouched w (addQuickTask nowAt docId w)) /\
  (~ allWhite (quickText w) ->
   exists newTask data,
     tasks (addQuickTask nowAt docId w) = tasks w ++ [newTask] /\
     Task.id newTask = docId /\
     trimmedOf (quickText w) (Task.text newTask) /\
     (forall t, trimmedOf (quickText w) t -> t = Task.text newTask) /\
     Task.text newTask = trim (quickText w) /\
     Task.text newTask <> "" /\
     Task.state newTask = "inbox" /\
     lookupField "text" data = Some (FString (Task.text newTask)) /\
     log (addQuickTask nowAt docId w) =
       log w ++ [AddDoc "tasks" data; SetTasks (tasks w ++ [newTask])]).
Proof.
  unfold addQuickTask. split.
  - intros Hb. apply trim_empty_iff in Hb. rewrite Hb. simpl.
    repeat split.
  - intros Hb.
    destruct (String.eqb_spec (trim (quickText w)) "") as [E | E].
    + apply trim_empty_iff in E. contradiction.
    + eexists _, _. cbn [tasks log Task.id Task.text Task.state].
      split; [reflexivity |]. split; [reflexivity |].
      split; [apply trim_spec |]. split; [apply trimmedOf_unique |].
      split; [reflexivity |].
      split; [exact E |]. split; [reflexivity |].
      split; [| rewrite <- app_assoc; reflexivity].
      reflexivity.
Qed.

End HandlerClaims.

(** ** Worked runs *)

(** The children come first, then the descendants of each child in turn. *)
Example nestedTasks_descendants :
  match getDescendantTasks 3 "a" nestedTasks with
  | Returned ds => map Task.id ds = ["b"; "d"; "c"]
  | Thrown _ => False
  end /\
  getDescendantTasks 2 "a" nestedTasks =
    Thrown (RangeError "Maximum call stack size exceeded").
Proof. split; reflexivity. Qed.

Example tripTasks_descendants :
  getDescendantTasks 8 "t-1" tripTasks =
    Returned (filter (fun t => negb (String.eqb (Task.id t) "t-1")
                               && negb (String.eqb (Task.id t) "t-4")) tripTasks).
Proof. reflexivity. Qed.

Lemma cascade_completes_every_descendant_witness :
  ranked tripRank (tasks tripWorld) /\ tripRank "t-1" < 8 /\
  exists w',
    updateTask sampleClock alwaysYes 8 "t-1" (Patch.ofState "done") tripWorld =
      Returned w' /\
    completedExactly (cascadeTargets (fun _ => true) tripTasks "t-1")
      tripTasks (tasks w').
Proof.
  assert (Hlt : tripRank "t-1" < 8) by (vm_compute; lia).
  split; [exact tripTasks_ranked |]. split; [exact Hlt |].
  destruct (cascade_completes_every_descendant sampleClock alwaysYes tripRank 8
              "t-1" (Patch.ofState "done") tripWorld tripTasks_ranked Hlt eq_refl)
    as (ds & Hds & _ & H).
  vm_compute in Hds. injection Hds as <-. cbv zeta in H.
  destruct H as [Hyes _].
  destruct Hyes as (w' & E & Hc & _); [vm_compute; lia | reflexivity |].
  exists w'. split; assumption.
Defined.

(** C1 (as stated) fails: "t-1" has one descendant that is not done, "t-2",
    and one that is, "t-3".  After the user confirms, the record of "t-3",
    which is neither "t-1" nor an incomplete descendant, is not what it was:
    its completion time has been replaced. *)
Lemma cascade_touches_done_descendant :
  exists ds w',
    getDescendantTasks 8 "t-1" tripTasks = Returned ds /\
    List.length (filter notDone ds) = 1 /\
    alwaysYes (taskPrompt 1) = true /\
    updateTask sampleClock alwaysYes 8 "t-1" (Patch.ofState "done") tripWorld =
      Returned w' /\
    ~ completedExactly (cascadeTargets notDone tripTasks "t-1")
        tripTasks (tasks w').
Proof.
  eexists _, _. split; [reflexivity |]. split; [reflexivity |].
  split; [reflexivity |]. split; [vm_compute; reflexivity |].
  simpl. unfold completedExactly, tripTasks. intros HF.
  inversion HF as [| a a' l l' _ HF1]; subst; clear HF.
  inversion HF1 as [| a a' l l' _ HF2]; subst; clear HF1.
  inversion HF2 as [| a a' l l' [_ Hkeep] _]; subst; clear HF2.
  assert (Habs : ~ cascadeTargets notDone tripTasks "t-1"
                     (Task.mk "t-3" "Renew passport" (Some "p-home") (Some "t-1")
                        "done" "2025-11-01T08:06:00.000Z"
                        "2025-11-02T10:00:00.000Z" None None
                        (Some "2025-11-02T10:00:00.000Z") 20)).
  { intros [E | (d & Hd & Hk & E)]; [discriminate E |].
    apply descendantOf_in in Hd. simpl in Hd.
    repeat (destruct Hd as [<- | Hd]; [discriminate E || discriminate Hk |]).
    contradiction. }
  specialize (Hkeep Habs). discriminate Hkeep.
Qed.

Lemma cascade_overwrites_done_descendants_witness :
  ranked tripRank (tasks tripWorld) /\ tripRank "t-1" < 8 /\
  exists w',
    updateTask sampleClock alwaysYes 8 "t-1" (Patch.ofState "done") tripWorld =
      Returned w' /\
    exists d d' k,
      In (d, d') (combine tripTasks (tasks w')) /\
      Task.id d = "t-3" /\
      Task.doneAt d = Some "2025-11-02T10:00:00.000Z" /\
      Task.doneAt d' = Some (sampleClock k).
Proof.
  assert (Hlt : tripRank "t-1" < 8) by (vm_compute; lia).
  split; [exact tripTasks_ranked |]. split; [exact Hlt |].
  destruct (cascade_overwrites_done_descendants sampleClock alwaysYes tripRank 8
              "t-1" (Patch.ofState "done") tripWorld tripTasks_ranked Hlt eq_refl)
    as (ds & Hds & Hiff & H).
  cbv zeta in H.
  destruct (H (or_intror eq_refl)) as (w' & E & _ & _ & Hlost).
  exists w'. split; [exact E |].
  clear Hds Hiff H. vm_compute in E. injection E as E. subst w'.
  edestruct Hlost as (k & _ & _ & Hk & _);
    [ simpl; right; right; left; reflexivity
    | apply desc_child; [right; right; left; reflexivity | reflexivity]
    | reflexivity
    | ].
  eexists _, _, k.
  split; [simpl; right; right; left; reflexivity |].
  split; [reflexivity |]. split; [reflexivity | exact Hk].
Defined.

Lemma declined_cascade_changes_nothing_witness :
  ranked tripRank (tasks tripWorld) /\ tripRank "t-1" < 8 /\
  updateTask sampleClock alwaysNo 8 "t-1" (Patch.ofState "done") tripWorld =
    Returned tripWorld /\
  onProjectStatusChange sampleClock alwaysNo "p-work" "done" workWorld = workWorld.
Proof.
  assert (Hlt : tripRank "t-1" < 8) by (vm_compute; lia).
  split; [exact tripTasks_ranked |]. split; [exact Hlt |].
  destruct (declined_cascade_changes_nothing sampleClock alwaysNo tripRank 8
              "t-1" (Patch.ofState "done") "p-work" tripWorld) as [Htask _].
  destruct (declined_cascade_changes_nothing sampleClock alwaysNo tripRank 8
              "t-1" (Patch.ofState "done") "p-work" workWorld) as [_ Hproj].
  destruct (Htask tripTasks_ranked Hlt eq_refl) as (ds & Hds & _ & H).
  vm_compute in Hds. injection Hds as <-. cbv zeta in H, Hproj.
  split.
  - apply H; [vm_compute; lia | reflexivity].
  - apply Hproj; [vm_compute; lia | reflexivity].
Defined.

(** Loading the stored record of a completed task without [doneAt] gives
    the third task of [unstampedTasks]. *)
Example unstampedDoc_loaded :
  match mapTaskDoc sampleClock "w-3" unstampedDoc 0 with
  | Returned (m, _) => option_map (fun t => [t]) (asTask m) = Some (skipn 2 unstampedTasks)
  | Thrown _ => False
  end.
Proof. reflexivity. Qed.

Lemma project_done_cascade_witness :
  let w' := onProjectStatusChange sampleClock alwaysYes "p-work" "done" workWorld in
  0 < List.length
        (filter notDone
           (filter (fun t => optEqb (Task.projectId t) (Some "p-work")) workTasks)) /\
  List.length (filter (fun t => optEqb (Task.projectId t) (Some "p-work")) workTasks) = 3 /\
  (forall t', In t' (tasks w') -> Task.projectId t' = Some "p-work" ->
              Task.state t' = "done" /\ Task.doneAt t' <> None) /\
  onProjectStatusChange sampleClock alwaysNo "p-work" "done" workWorld = workWorld.
Proof.
  intros w'.
  assert (Hn : 0 < List.length
                     (filter notDone
                        (filter (fun t => optEqb (Task.projectId t) (Some "p-work"))
                           workTasks))) by (vm_compute; lia).
  split; [exact Hn |]. split; [reflexivity |].
  destruct (project_done_cascade sampleClock alwaysYes "p-work" workWorld Hn)
    as [_ Hyes].
  destruct (project_done_cascade sampleClock alwaysNo "p-work" workWorld Hn)
    as [Hno _].
  split; [| exact (Hno eq_refl)].
  destruct (Hyes eq_refl) as (_ & Hdone & Hstamp & _).
  intros t' Hin Hp. split; [exact (Hdone t' Hin Hp) |].
  apply Hstamp; [| exact Hin | exact Hp].
  intros t Ht _ Hst. simpl in Ht.
  repeat (destruct Ht as [<- | Ht]; [discriminate |]).
  contradiction.
Defined.

(** C3 (as stated) fails: the project owns two active tasks and one that is
    done but carries no completion time.  After the user confirms, the
    handler leaves the done task as it is, so not all three tasks have a
    completion time. *)
Lemma project_cascade_skips_done_task :
  let w' := onProjectStatusChange sampleClock alwaysYes "p-work" "done"
              unstampedWorld in
  List.length (filter notDone unstampedTasks) = 2 /\
  List.length (filter (fun t => String.eqb (Task.state t) "done") unstampedTasks) = 1 /\
  alwaysYes (projectPrompt 2) = true /\
  ~ (forall t', In t' (tasks w') -> Task.projectId t' = Some "p-work" ->
                Task.state t' = "done" /\ Task.doneAt t' <> None).
Proof.
  intros w'. split; [reflexivity |]. split; [reflexivity |].
  split; [reflexivity |]. intros H.
  destruct (H (Task.mk "w-3" "Book room" (Some "p-work") None "done"
                 "2025-11-01T08:06:00.000Z" "2025-11-02T10:00:00.000Z"
                 None None None 20)) as [_ Hstamp].
  - vm_compute. right. right. left. reflexivity.
  - reflexivity.
  - apply Hstamp. reflexivity.
Qed.

Lemma state_change_sets_doneAt_witness :
  (exists w' d d',
     updateTask sampleClock alwaysYes 8 "t-3" (Patch.ofState "active") tripWorld =
       Returned w' /\
     In (d, d') (combine tripTasks (tasks w')) /\
     Task.id d = "t-3" /\ Task.state d = "done" /\
     Task.state d' = "active" /\ Task.doneAt d' = None) /\
  (ranked tripRank (tasks tripWorld) /\ tripRank "t-2" < 8 /\
   exists w' d d' k,
     updateTask sampleClock alwaysYes 8 "t-2" (Patch.ofState "done") tripWorld =
       Returned w' /\
     In (d, d') (combine tripTasks (tasks w')) /\
     Task.id d = "t-2" /\ Task.state d = "active" /\
     Task.state d' = "done" /\ Task.doneAt d' = Some (sampleClock k)).
Proof.
  split.
  - destruct (state_change_sets_doneAt sampleClock alwaysYes tripRank 8 "t-3"
                (Patch.ofState "active") tripWorld "active" eq_refl) as [Hout _].
    destruct Hout as (w' & updates & E & _ & _ & HF & _);
      [discriminate | discriminate |].
    assert (E' := E). vm_compute in E'. injection E' as E'. subst w'.
    pose proof (Forall2_combine_in _ _ _ HF) as Hpair.
    edestruct Hpair as [Hyes _]; [simpl; right; right; left; reflexivity |].
    destruct (Hyes eq_refl) as (Hs & Hclear & _).
    eexists _, _, _. split; [exact E |].
    split; [simpl; right; right; left; reflexivity |].
    split; [reflexivity |]. split; [reflexivity |].
    split; [exact Hs | exact (Hclear eq_refl)].
  - assert (Hlt : tripRank "t-2" < 8) by (vm_compute; lia).
    split; [exact tripTasks_ranked |]. split; [exact Hlt |].
    destruct (state_change_sets_doneAt sampleClock alwaysYes tripRank 8 "t-2"
                (Patch.ofState "done") tripWorld "done" eq_refl) as [_ Hin].
    destruct (Hin eq_refl tripTasks_ranked Hlt) as (ds & Hds & H).
    cbv zeta in H.
    destruct (H (or_intror eq_refl)) as (w' & E & HF).
    assert (E' := E). vm_compute in E'. injection E' as E'. subst w'.
    pose proof (Forall2_combine_in _ _ _ HF) as Hpair.
    edestruct Hpair as (k & _ & _ & Hs & Hk);
      [simpl; right; left; reflexivity | reflexivity |].
    eexists _, _, _, k. split; [exact E |].
    split; [simpl; right; left; reflexivity |].
    split; [reflexivity |]. split; [reflexivity |].
    split; [exact Hs | exact Hk].
Defined.

(** C5 (as stated) fails for quick-add: the first effect it issues is the
    remote insert, and the local task collection is replaced only after it. *)
Lemma quick_add_inserts_before_local_update :
  let w' := addQuickTask sampleClock "t-new" (quickWorld "Buy milk") in
  (exists data newTask,
     log w' = [AddDoc "tasks" data; SetTasks [newTask]] /\ tasks w' = [newTask]) /\
  ~ localBeforeRemote (log w').
Proof.
  intros w'. split.
  - eexists _, _. split; reflexivity.
  - intros H.
    destruct (H [] (AddDoc "tasks"
                      [("text", FString "Buy milk"); ("projectId", FString "p-default");
                       ("parentId", FNull); ("state", FString "inbox");
                       ("createdAt", FServerTimestamp); ("updatedAt", FServerTimestamp);
                       ("dueAt", FNull); ("scheduledAt", FNull); ("doneAt", FNull);
                       ("order", FNumber 10)])
                (tl (log w')) eq_refl eq_refl) as (l & Hl & _).
    exact Hl.
Qed.

Lemma addQuickTask_blank_is_noop_witness :
  (allWhite "   " /\
   addQuickTask sampleClock "t-new" (quickWorld "   ") = quickWorld "   ") /\
  (allWhite (utf8 12288) /\
   addQuickTask sampleClock "t-new" (quickWorld (utf8 12288)) =
     quickWorld (utf8 12288)) /\
  (~ allWhite "  Buy milk " /\
   exists newTask,
     tasks (addQuickTask sampleClock "t-new" (quickWorld "  Buy milk ")) = [newTask] /\
     Task.text newTask = "Buy milk").
Proof.
  assert (H1 : allWhite "   ") by (apply blank_spec; reflexivity).
  assert (H2 : allWhite (utf8 12288)) by (apply blank_spec; reflexivity).
  assert (H3 : ~ allWhite "  Buy milk ") by (apply not_blank_spec; reflexivity).
  split; [| split].
  - split; [exact H1 |].
    apply (addQuickTask_blank_is_noop sampleClock "t-new" (quickWorld "   ")).
    exact H1.
  - split; [exact H2 |].
    apply (addQuickTask_blank_is_noop sampleClock "t-new" (quickWorld (utf8 12288))).
    exact H2.
  - split; [exact H3 |].
    destruct (addQuickTask_blank_is_noop sampleClock "t-new"
                (quickWorld "  Buy milk ")) as [_ H].
    destruct (H H3) as (newTask & data & Ht & _ & _ & _ & Htext & _).
    exists newTask. split; [exact Ht | exact Htext].
Defined.

Example quick_add_buy_milk :
  addQuickTask sampleClock "t-new" (quickWorld "Buy milk") =
    let newTask :=
      Task.mk "t-new" "Buy milk" (Some "p-default") None "inbox"
        "2026-01-10T09:00:00.000Z" "2026-01-11T09:00:00.000Z" None None None 10 in
    mkWorld [newTask] workProjects ViewInbox ""
      [AddDoc "tasks"
         [("text", FString "Buy milk"); ("projectId", FString "p-default");
          ("parentId", FNull); ("state", FString "inbox");
          ("createdAt", FServerTimestamp); ("updatedAt", FServerTimestamp);
          ("dueAt", FNull); ("scheduledAt", FNull); ("doneAt", FNull);
          ("order", FNumber 10)];
       SetTasks [newTask]]
      2.
Proof. reflexivity. Qed.

Example inbox_of_tripTasks :
  map Task.id (inboxTasks tripTasks) = ["t-4"].
Proof. reflexivity. Qed.

(** * Further properties *)

(** ** The other views *)

Lemma sortBy_in (l : list Task) (t : Task) : In t (sortBy byOrder l) <-> In t l.
Proof.
  split; intros H.
  - exact (Permutation_in _ (sortBy_perm l) H).
  - exact (Permutation_in _ (Permutation_sym (sortBy_perm l)) H).
Qed.

(** X1: the Today view holds exactly the tasks whose state is [today], each
    as often as the collection has it, in ascending sort order, tasks of
    equal order keeping their sequence. *)
Theorem todayTasks_spec (tasks : list Task) :
  Permutation (todayTasks tasks)
    (filter (fun task => String.eqb (Task.state task) "today") tasks) /\
  (forall t, In t (todayTasks tasks) <-> In t tasks /\ Task.state t = "today") /\
  StronglySorted ascending (todayTasks tasks) /\
  (forall n,
     filter (fun t => Z.eqb (Task.order t) n) (todayTasks tasks) =
     filter (fun t => Z.eqb (Task.order t) n)
       (filter (fun task => String.eqb (Task.state task) "today") tasks)).
Proof.
  unfold todayTasks. split; [apply sortBy_perm |]. split; [| split].
  - intros t. rewrite sortBy_in, filter_In, String.eqb_eq. reflexivity.
  - apply sortBy_sorted.
  - intros n. apply sortBy_stable.
Qed.

(** X2: the Project view is empty while no project is selected (no id, or
    the empty id); otherwise it holds exactly the tasks whose [projectId] is
    the selected id, in ascending sort order, so a task without a project
    appears in the view of no project. *)
Theorem projectTasks_spec (tasks : list Task) :
  projectTasks tasks None = [] /\
  projectTasks tasks (Some "") = [] /\
  (forall sel, sel <> "" ->
     Permutation (projectTasks tasks (Some sel))
       (filter (fun task => optEqb (Task.projectId task) (Some sel)) tasks) /\
     (forall t, In t (projectTasks tasks (Some sel)) <->
                In t tasks /\ Task.projectId t = Some sel) /\
     StronglySorted ascending (projectTasks tasks (Some sel))) /\
  (forall selected t, In t (projectTasks tasks selected) ->
                      Task.projectId t <> None).
Proof.
  split; [reflexivity |]. split; [reflexivity |]. split.
  - intros sel Hsel. unfold projectTasks.
    destruct (String.eqb_spec sel "") as [E | _]; [contradiction |].
    split; [apply sortBy_perm |]. split; [| apply sortBy_sorted].
    intros t. rewrite sortBy_in, filter_In, optEqb_eq. reflexivity.
  - intros selected t. unfold projectTasks.
    destruct selected as [sel |]; [| contradiction].
    destruct (String.eqb sel ""); [contradiction |].
    rewrite sortBy_in, filter_In, optEqb_eq. intros [_ E]. congruence.
Qed.

Lemma projectTasks_spec_witness :
  "p-work" <> "" /\
  map Task.id (projectTasks workTasks (Some "p-work")) = ["w-1"; "w-2"; "w-3"] /\
  forall t, In t (projectTasks workTasks (Some "p-work")) ->
            Task.projectId t = Some "p-work".
Proof.
  assert (Hne : "p-work" <> "") by discriminate.
  split; [exact Hne |]. split; [reflexivity |].
  destruct (projectTasks_spec workTasks) as (_ & _ & H & _).
  destruct (H "p-work" Hne) as (_ & Hin & _).
  intros t Ht. apply Hin in Ht. apply Ht.
Defined.

(** ** Quick-add *)

Lemma mathMax_ge (rest : list Z) :
  forall x, (x <= mathMax x rest)%Z /\
            (forall y, In y rest -> (y <= mathMax x rest)%Z) /\
            In (mathMax x rest) (x :: rest).
Proof.
  unfold mathMax. induction rest as [| z rest IH]; intros x; simpl.
  - split; [lia |]. split; [contradiction | now left].
  - destruct (IH (Z.max x z)) as (H1 & H2 & H3). split; [lia |]. split.
    + intros y [<- | Hy]; [lia | now apply H2].
    + simpl in H3. destruct H3 as [H3 | H3]; [| now right; right].
      rewrite <- H3. destruct (Z.max_spec x z) as [[_ ->] | [_ ->]]; auto.
Qed.

Section QuickAddFacts.

Variable nowAt : nat -> string.

(** X3: on a text that is not all white space, quick-add appends one task
    that is a root task of the default project, in the inbox, without
    completion time.  Its order is 10 when the collection has no root task
    and otherwise the sum, as a double, of 10 and the largest order of a root
    task; when that sum is a safe integer the new order is exactly 10 above
    the largest, hence at least 10 above the order of every root task.  The
    Inbox view gains exactly that task, the quick-add text is cleared and the
    Inbox view is selected. *)
Theorem addQuickTask_appends_after_roots (docId : string) (w : World) :
  ~ allWhite (quickText w) ->
  let w' := addQuickTask nowAt docId w in
  exists newTask,
    tasks w' = tasks w ++ [newTask] /\
    Task.projectId newTask = Some "p-default" /\
    Task.parentId newTask = None /\
    Task.state newTask = "inbox" /\
    Task.doneAt newTask = None /\
    ((forall t, In t (tasks w) -> Task.parentId t <> None) ->
     Task.order newTask = 10%Z) /\
    ((exists t, In t (tasks w) /\ Task.parentId t = None) ->
     exists r,
       In r (tasks w) /\ Task.parentId r = None /\
       (forall t, In t (tasks w) -> Task.parentId t = None ->
                  (Task.order t <= Task.order r)%Z) /\
       Task.order newTask = numAdd (Task.order r) 10 /\
       (safeInteger (Task.order r + 10) ->
        Task.order newTask = (Task.order r + 10)%Z /\
        forall t, In t (tasks w) -> Task.parentId t = None ->
                  (Task.order t + 10 <= Task.order newTask)%Z)) /\
    Permutation (inboxTasks (tasks w')) (newTask :: inboxTasks (tasks w)) /\
    projects w' = projects w /\ quickText w' = "" /\ view w' = ViewInbox.
Proof.
  intros Hb w'. unfold w', addQuickTask.
  destruct (String.eqb_spec (trim (quickText w)) "") as [E | _].
  { apply trim_empty_iff in E. contradiction. }
  set (roots := filter (fun task => optEqb (Task.parentId task) None) (tasks w)).
  eexists.
  cbn [tasks projects view quickText Task.order Task.projectId Task.parentId
       Task.state Task.doneAt].
  split; [reflexivity |]. split; [reflexivity |]. split; [reflexivity |].
  split; [reflexivity |]. split; [reflexivity |].
  assert (Hroot : forall t, In t roots <-> In t (tasks w) /\ Task.parentId t = None).
  { intros t. unfold roots. rewrite filter_In, optEqb_eq. reflexivity. }
  split; [| split; [| split]]; cbn [Task.order].
  - intros Hnone. destruct roots as [| r rest] eqn:Er; [reflexivity |].
    exfalso. apply (Hnone r); apply (Hroot r); now left.
  - intros (t & Hin & Hp).
    assert (Ht : In t roots) by (apply Hroot; auto).
    destruct roots as [| r0 rest] eqn:Er; [contradiction |].
    cbn [map].
    destruct (mathMax_ge (map Task.order rest) (Task.order r0)) as (H1 & H2 & H3).
    change (Task.order r0 :: map Task.order rest)
      with (map Task.order (r0 :: rest)) in H3.
    apply in_map_iff in H3. destruct H3 as (r & Hr & Hin').
    assert (Hmax : forall t0, In t0 (tasks w) -> Task.parentId t0 = None ->
                              (Task.order t0 <= Task.order r)%Z).
    { intros t0 Hi0 Hp0. rewrite Hr.
      assert (Ht0 : In t0 (r0 :: rest)) by (apply Hroot; auto).
      destruct Ht0 as [<- | Ht0]; [exact H1 |].
      apply H2. now apply in_map. }
    exists r. apply Hroot in Hin'. destruct Hin' as [Hi Hp'].
    split; [exact Hi |]. split; [exact Hp' |]. split; [exact Hmax |].
    rewrite <- Hr. split; [reflexivity |].
    intros Hsafe. rewrite (numAdd_safe _ _ Hsafe). split; [reflexivity |].
    intros t0 Hi0 Hp0. specialize (Hmax t0 Hi0 Hp0). lia.
  - unfold inboxTasks. rewrite filter_app. cbn [filter Task.state String.eqb].
    simpl. rewrite sortBy_perm. rewrite sortBy_perm.
    rewrite Permutation_app_comm. reflexivity.
  - repeat split.
Qed.

End QuickAddFacts.

Lemma addQuickTask_appends_after_roots_witness :
  let w := mkWorld tripTasks homeProjects ViewToday " Feed cat" [] 0 in
  ~ allWhite (quickText w) /\
  exists newTask,
    tasks (addQuickTask sampleClock "t-5" w) = tripTasks ++ [newTask] /\
    Task.order newTask = 30%Z.
Proof.
  intros w.
  assert (Hb : ~ allWhite (quickText w)) by (apply not_blank_spec; reflexivity).
  split; [exact Hb |].
  destruct (addQuickTask_appends_after_roots sampleClock "t-5" w Hb)
    as (newTask & Ht & _).
  exists newTask. split; [exact Ht |].
  assert (E : tasks (addQuickTask sampleClock "t-5" w) = tripTasks ++ [newTask])
    by exact Ht.
  vm_compute in E. injection E as <-. reflexivity.
Defined.

(** After a root task whose order is the largest safe integer, the new order
    is the double nearest to the sum, 9 above it and not 10. *)
Example quick_add_after_largest_safe_order :
  let big := Task.mk "t-big" "Archive" (Some "p-default") None "active"
               "2026-01-01T09:00:00.000Z" "2026-01-01T09:00:00.000Z"
               None None None maxSafeInteger in
  let w := mkWorld [big] homeProjects ViewInbox "Feed cat" [] 0 in
  map Task.order (tasks (addQuickTask sampleClock "t-5" w)) =
    [9007199254740991; 9007199254741000]%Z.
Proof. reflexivity. Qed.

(** ** Shape of the collection under the handlers *)

Lemma Forall2_map_eq {A B : Type} (f : A -> B) (l l' : list A) :
  Forall2 (fun a b => f b = f a) l l' -> map f l' = map f l.
Proof. induction 1; simpl; congruence. Qed.

Lemma Forall2_same {A : Type} (l : list A) : Forall2 (fun a b => b = a) l l.
Proof. induction l; constructor; auto. Qed.

Section ShapeFacts.

Variable nowAt : nat -> string.
Variable window_confirm : string -> bool.

(** What the status handler does to the task collection. *)
Lemma onProjectStatusChange_tasks (sel newState : string) (w : World) :
  let w' := onProjectStatusChange nowAt window_confirm sel newState w in
  tasks w' = tasks w \/
  exists clk, mapTasks (projectStep nowAt sel) (tasks w) (clock w) = (tasks w', clk).
Proof.
  unfold onProjectStatusChange.
  destruct (String.eqb newState "done"); [| left; reflexivity].
  destruct (0 <? _)%nat; [| left; reflexivity].
  destruct (negb _); [left; reflexivity |].
  destruct (mapTasks _ _ _) as [next clk]. right. exists clk. reflexivity.
Qed.

Lemma projectStep_cases (sel : string) (t : Task) (c : nat) :
  fst (projectStep nowAt sel t c) = t \/
  (Task.projectId t = Some sel /\ Task.state t <> "done" /\
   fst (projectStep nowAt sel t c) = asDone t (nowAt c) (nowAt (S c))).
Proof.
  unfold projectStep.
  destruct (optEqb (Task.projectId t) (Some sel)) eqn:Eo; simpl; [| now left].
  destruct (String.eqb_spec (Task.state t) "done"); [now left |].
  right. apply optEqb_eq in Eo. auto.
Qed.

(** X4: whatever the patch, [updateTask] neither adds nor removes a task and
    touches nothing but the task collection, the log and the clock; in its
    cascade branch, and in its normal branch when the patch has no [id], the
    tasks keep their ids and their places, and a cascade leaves the text,
    project, parent, order and creation time of every task as they were. *)
Theorem updateTask_keeps_shape
  (stack : nat) (id : string) (patch : Patch) (w w' : World) :
  updateTask nowAt window_confirm stack id patch w = Returned w' ->
  List.length (tasks w') = List.length (tasks w) /\
  projects w' = projects w /\ view w' = view w /\ quickText w' = quickText w /\
  clock w <= clock w' /\
  (Patch.id patch = None \/ Patch.state patch = Some "done" ->
   map Task.id (tasks w') = map Task.id (tasks w)) /\
  (Patch.state patch = Some "done" ->
   Forall2
     (fun t t' =>
        Task.text t' = Task.text t /\ Task.projectId t' = Task.projectId t /\
        Task.parentId t' = Task.parentId t /\ Task.order t' = Task.order t /\
        Task.createdAt t' = Task.createdAt t /\ Task.dueAt t' = Task.dueAt t /\
        Task.scheduledAt t' = Task.scheduledAt t)
     (tasks w) (tasks w')).
Proof.
  intros H.
  destruct (optEqb (Patch.state patch) (Some "done")) eqn:Est.
  - apply optEqb_eq in Est.
    destruct (getDescendantTasks stack id (tasks w)) as [ds | e] eqn:Hds.
    2: { unfold updateTask in H. rewrite Est in H. simpl optEqb in H.
         rewrite Hds in H. discriminate H. }
    destruct (updateTask_done nowAt window_confirm stack id patch w ds Est Hds)
      as [Hno Hgo].
    set (n := List.length (filter notDone ds)) in *.
    pose proof (Forall2_same (tasks w)) as Hsame.
    assert (Hcases : w' = w \/
              exists next clk,
                w' = mkWorld next (projects w) (view w) (quickText w)
                       (log w ++ [SetTasks next;
                                  UpdateDocs (map doneWrite (id :: map Task.id ds))])
                       clk /\
                clock w <= clk /\
                Forall2 (fun t t' => t' = t \/ exists a b, t' = asDone t a b)
                  (tasks w) next).
    { destruct (window_confirm (taskPrompt n)) eqn:Hc.
      - right. destruct (Hgo (or_intror eq_refl)) as (next & clk & E & Hle & HF).
        rewrite E in H. injection H as <-. exists next, clk.
        split; [reflexivity |]. split; [exact Hle |].
        eapply Forall2_impl; [| exact HF]. intros t t' [Hin Hout].
        destruct (includes (id :: map Task.id ds) (Task.id t)).
        + right. destruct (Hin eq_refl) as (k & _ & _ & ->). eauto.
        + left. auto.
      - destruct (Nat.eq_dec n 0) as [Hz | Hz].
        + right. destruct (Hgo (or_introl Hz)) as (next & clk & E & Hle & HF).
          rewrite E in H. injection H as <-. exists next, clk.
          split; [reflexivity |]. split; [exact Hle |].
          eapply Forall2_impl; [| exact HF]. intros t t' [Hin Hout].
          destruct (includes (id :: map Task.id ds) (Task.id t)).
          * right. destruct (Hin eq_refl) as (k & _ & _ & ->). eauto.
          * left. auto.
        + left. rewrite Hno in H by (lia || reflexivity).
          injection H as <-. reflexivity. }
    destruct Hcases as [-> | (next & clk & -> & Hle & HF)].
    + do 4 (split; [reflexivity |]). split; [lia |].
      split; [intros _; reflexivity |].
      intros _. eapply Forall2_impl; [| exact Hsame]. intros t t' ->.
      repeat split.
    + simpl. split; [symmetry; eapply Forall2_length; exact HF |].
      do 3 (split; [reflexivity |]). split; [exact Hle |]. split.
      * intros _. apply Forall2_map_eq. eapply Forall2_impl; [| exact HF].
        intros t t' [-> | (a & b & ->)]; reflexivity.
      * intros _. eapply Forall2_impl; [| exact HF].
        intros t t' [-> | (a & b & ->)]; repeat split.
  - assert (Hp : Patch.state patch <> Some "done").
    { intros Hx. apply optEqb_eq in Hx. congruence. }
    destruct (updateTask_patch nowAt window_confirm stack id patch w Hp)
      as (next & clk & updates & E & Hle & _ & _ & HF).
    rewrite E in H. injection H as <-. simpl.
    split; [symmetry; eapply Forall2_length; exact HF |].
    do 3 (split; [reflexivity |]). split; [exact Hle |].
    split; [| intros Hx; contradiction].
    intros [Hid | Hx]; [| contradiction].
    apply Forall2_map_eq. eapply Forall2_impl; [| exact HF].
    intros t t' [Hin Hout].
    destruct (String.eqb_spec (Task.id t) id) as [Et | Et].
    + destruct (Hin Et) as (k & _ & _ & ->). simpl. now rewrite Hid.
    + now rewrite (Hout Et).
Qed.

(** X5: the handlers keep the collection stamped: if every done task carries
    a completion time before quick-add, [updateTask] or the project status
    handler runs, every done task carries one after it. *)
Theorem handlers_keep_stamped
  (docId : string) (stack : nat) (id : string) (patch : Patch)
  (sel newState : string) (w : World) :
  stamped (tasks w) ->
  stamped (tasks (addQuickTask nowAt docId w)) /\
  (forall w', updateTask nowAt window_confirm stack id patch w = Returned w' ->
              stamped (tasks w')) /\
  stamped (tasks (onProjectStatusChange nowAt window_confirm sel newState w)).
Proof.
  intros Hs. split; [| split].
  - unfold addQuickTask. destruct (String.eqb (trim (quickText w)) ""); [exact Hs |].
    simpl. intros t Hin Hd. apply in_app_iff in Hin. destruct Hin as [Hin | Hin].
    + now apply Hs.
    + destruct Hin as [<- | []]. discriminate Hd.
  - intros w' H t' Hin' Hd.
    destruct (optEqb (Patch.state patch) (Some "done")) eqn:Est.
    + apply optEqb_eq in Est.
      destruct (getDescendantTasks stack id (tasks w)) as [ds | e] eqn:Hds.
      2: { unfold updateTask in H. rewrite Est in H. simpl optEqb in H.
           rewrite Hds in H. discriminate H. }
      destruct (updateTask_done nowAt window_confirm stack id patch w ds Est Hds)
        as [Hno Hgo].
      set (n := List.length (filter notDone ds)) in *.
      destruct (Nat.eq_dec n 0) as [Hz | Hz];
        [| destruct (window_confirm (taskPrompt n)) eqn:Hc].
      * destruct (Hgo (or_introl Hz)) as (next & clk & E & _ & HF).
        rewrite E in H. injection H as <-. simpl in Hin'.
        destruct (Forall2_image _ _ _ HF t' Hin') as (t & Ht & Hin & Hout).
        destruct (includes (id :: map Task.id ds) (Task.id t)).
        -- destruct (Hin eq_refl) as (k & _ & _ & ->). discriminate.
        -- rewrite (Hout eq_refl) in *. now apply Hs.
      * destruct (Hgo (or_intror eq_refl)) as (next & clk & E & _ & HF).
        rewrite E in H. injection H as <-. simpl in Hin'.
        destruct (Forall2_image _ _ _ HF t' Hin') as (t & Ht & Hin & Hout).
        destruct (includes (id :: map Task.id ds) (Task.id t)).
        -- destruct (Hin eq_refl) as (k & _ & _ & ->). discriminate.
        -- rewrite (Hout eq_refl) in *. now apply Hs.
      * rewrite Hno in H by (lia || reflexivity). injection H as <-.
        now apply Hs.
    + assert (Hp : Patch.state patch <> Some "done").
      { intros Hx. apply optEqb_eq in Hx. congruence. }
      destruct (updateTask_patch nowAt window_confirm stack id patch w Hp)
        as (next & clk & updates & E & _ & _ & _ & HF).
      rewrite E in H. injection H as <-. simpl in Hin'.
      destruct (Forall2_image _ _ _ HF t' Hin') as (t & Ht & Hin & Hout).
      destruct (String.eqb_spec (Task.id t) id) as [Et | Et].
      * destruct (Hin Et) as (k & _ & _ & ->). simpl in *.
        unfold stateGiven. destruct (Patch.state patch) as [s |] eqn:Eps.
        -- simpl in Hd. subst s. contradiction.
        -- simpl in *. apply (Hs t Ht Hd).
      * rewrite (Hout Et) in *. now apply Hs.
  - intros t' Hin' Hd.
    destruct (onProjectStatusChange_tasks sel newState w) as [E | (clk & E)].
    + rewrite E in Hin'. now apply Hs.
    + destruct (mapTasks_spec _ (projectStep_mono nowAt sel) _ _ _ _ E) as [_ HF].
      destruct (Forall2_image _ _ _ HF t' Hin') as (t & Ht & c & _ & _ & Ec).
      destruct (projectStep_cases sel t c) as [Ek | (_ & _ & Ek)];
        rewrite Ek in Ec; subst t'.
      * now apply Hs.
      * discriminate.
Qed.

End ShapeFacts.

(** ** More on the descendants of a task *)

Lemma getDescendantTasks_more_stack (allTasks : list Task) (n : nat) :
  forall root ds m,
    getDescendantTasks n root allTasks = Returned ds -> n <= m ->
    getDescendantTasks m root allTasks = Returned ds.
Proof.
  induction n as [| n IH]; intros root ds m H Hle; [discriminate H |].
  destruct m as [| m]; [lia |].
  apply getDescendantTasks_unfold in H. destruct H as (dss & HF & ->).
  apply getDescendantTasks_unfold. exists dss. split; [| reflexivity].
  eapply Forall2_impl; [| exact HF].
  intros c d Hc. apply IH; [exact Hc | lia].
Qed.

Lemma visit_thrown_from (allTasks : list Task) (n : nat) (cs : list Task) :
  forall acc e,
    fold_left (visit allTasks n) cs (Returned acc) = Thrown e ->
    exists c, In c cs /\ getDescendantTasks n (Task.id c) allTasks = Thrown e.
Proof.
  induction cs as [| c cs IH]; intros acc e H; simpl in H; [discriminate H |].
  destruct (getDescendantTasks n (Task.id c) allTasks) as [more | e'] eqn:E.
  - destruct (IH _ _ H) as (c' & Hc' & He). exists c'. split; [now right | exact He].
  - rewrite visit_thrown in H. injection H as <-. exists c. split; [now left | exact E].
Qed.

Lemma getDescendantTasks_throws_overflow (allTasks : list Task) (n : nat) :
  forall root e,
    getDescendantTasks n root allTasks = Thrown e -> e = stackOverflow.
Proof.
  induction n as [| n IH]; intros root e H.
  - injection H as <-. reflexivity.
  - apply (visit_thrown_from allTasks n) in H. destruct H as (c & _ & Hc).
    eapply IH. exact Hc.
Qed.

Lemma getDescendantTasks_below (allTasks : list Task) (root : string) (t : Task) :
  descendantOf allTasks root t ->
  forall n ds,
    getDescendantTasks n root allTasks = Returned ds ->
    exists ds', getDescendantTasks (pred n) (Task.id t) allTasks = Returned ds'.
Proof.
  induction 1 as [t Hin Hp | c t _ IH Hin Hp]; intros n ds H.
  - destruct n as [| n]; [discriminate H |]. simpl pred.
    apply getDescendantTasks_unfold in H. destruct H as (dss & HF & _).
    assert (Hc : In t (filter (childOf root) allTasks)).
    { apply filter_In. split; [exact Hin | now apply childOf_spec]. }
    destruct (Forall2_in_concat _ _ _ _ HF Hc) as (d & Hd & _). eauto.
  - destruct (IH n ds H) as [dc Hdc].
    destruct (pred n) as [| k] eqn:Ek; [discriminate Hdc |].
    apply getDescendantTasks_unfold in Hdc. destruct Hdc as (dss & HF & _).
    assert (Hc : In t (filter (childOf (Task.id c)) allTasks)).
    { apply filter_In. split; [exact Hin | now apply childOf_spec]. }
    destruct (Forall2_in_concat _ _ _ _ HF Hc) as (d & Hd & _).
    exists d. apply (getDescendantTasks_more_stack allTasks k); [exact Hd | lia].
Qed.

Lemma getDescendantTasks_cycle_never_returns (allTasks : list Task) (root : string) :
  (exists t, descendantOf allTasks root t /\ Task.id t = root) ->
  forall n ds, getDescendantTasks n root allTasks <> Returned ds.
Proof.
  intros (t & Hd & Hid) n. induction n as [| n IH]; intros ds H; [discriminate H |].
  destruct (getDescendantTasks_below allTasks root t Hd (S n) ds H) as [ds' Hds'].
  simpl pred in Hds'. rewrite Hid in Hds'. exact (IH ds' Hds').
Qed.

Lemma desc_rank (rank : string -> nat) (allTasks : list Task) (a : string) (t : Task) :
  ranked rank allTasks -> descendantOf allTasks a t -> rank (Task.id t) < rank a.
Proof.
  intros Hr. induction 1 as [t Hin Hp | c t _ IH Hin Hp].
  - exact (Hr t a Hin Hp).
  - pose proof (Hr t (Task.id c) Hin Hp). lia.
Qed.

Lemma id_injective (allTasks : list Task) :
  NoDup (map Task.id allTasks) ->
  forall x y, In x allTasks -> In y allTasks -> Task.id x = Task.id y -> x = y.
Proof.
  induction allTasks as [| a l IH]; intros Hnd x y Hx Hy E; [contradiction |].
  simpl in Hnd. apply NoDup_cons_iff in Hnd. destruct Hnd as [Hna Hnd].
  destruct Hx as [<- | Hx], Hy as [<- | Hy].
  - reflexivity.
  - exfalso. apply Hna. rewrite E. now apply in_map.
  - exfalso. apply Hna. rewrite <- E. now apply in_map.
  - now apply IH.
Qed.

(** With unique ids the ancestors of a task form a chain. *)
Lemma ancestors_chain (allTasks : list Task) (a b : string) (t : Task) :
  NoDup (map Task.id allTasks) ->
  descendantOf allTasks a t -> descendantOf allTasks b t ->
  a = b \/
  (exists x, descendantOf allTasks a x /\ Task.id x = b) \/
  (exists y, descendantOf allTasks b y /\ Task.id y = a).
Proof.
  intros Hnd Ha. revert b.
  induction Ha as [t Hin Hp | c t Hc IH Hin Hp]; intros b Hb.
  - destruct Hb as [t _ Hp' | c' t Hc' _ Hp'].
    + left. congruence.
    + right. right. exists c'. split; [exact Hc' | congruence].
  - destruct Hb as [t _ Hp' | c' t Hc' _ Hp'].
    + right. left. exists c. split; [exact Hc | congruence].
    + assert (E : c = c').
      { apply (id_injective allTasks Hnd);
          [eapply descendantOf_in; eassumption
          | eapply descendantOf_in; eassumption | congruence]. }
      subst c'. apply IH. exact Hc'.
Qed.

Section Forest.

Variable rank : string -> nat.
Variable allTasks : list Task.
Hypothesis Hranked : ranked rank allTasks.
Hypothesis Hids : NoDup (map Task.id allTasks).

Lemma child_not_below_sibling (root : string) (c x : Task) :
  In c allTasks -> Task.parentId c = Some root ->
  Task.parentId x = Some root ->
  ~ descendantOf allTasks (Task.id c) x.
Proof.
  intros Hc Hpc Hpx Hd.
  pose proof (Hranked c root Hc Hpc) as Hrc.
  destruct Hd as [x Hx Hp | d x Hdd Hx Hp].
  - assert (root = Task.id c) by congruence. subst root. lia.
  - assert (root = Task.id d) by congruence. subst root.
    pose proof (desc_rank rank allTasks _ _ Hranked Hdd). lia.
Qed.

Lemma siblings_disjoint (root : string) (c1 c2 x : Task) :
  In c1 allTasks -> In c2 allTasks ->
  Task.parentId c1 = Some root -> Task.parentId c2 = Some root -> c1 <> c2 ->
  descendantOf allTasks (Task.id c1) x -> descendantOf allTasks (Task.id c2) x ->
  False.
Proof.
  intros H1 H2 Hp1 Hp2 Hne Hd1 Hd2.
  destruct (ancestors_chain allTasks _ _ x Hids Hd1 Hd2)
    as [E | [(y & Hy & E) | (y & Hy & E)]].
  - apply Hne. now apply (id_injective allTasks Hids).
  - assert (y = c2).
    { apply (id_injective allTasks Hids); auto. eapply descendantOf_in; eassumption. }
    subst y. exact (child_not_below_sibling root c1 c2 H1 Hp1 Hp2 Hy).
  - assert (y = c1).
    { apply (id_injective allTasks Hids); auto. eapply descendantOf_in; eassumption. }
    subst y. exact (child_not_below_sibling root c2 c1 H2 Hp2 Hp1 Hy).
Qed.

Lemma getDescendantTasks_NoDup (n : nat) :
  forall root ds, getDescendantTasks n root allTasks = Returned ds -> NoDup ds.
Proof.
  assert (Hall : NoDup allTasks) by (eapply NoDup_map_inv; exact Hids).
  induction n as [| n IH]; intros root ds H; [discriminate H |].
  apply getDescendantTasks_unfold in H. destruct H as (dss & HF & ->).
  set (children := filter (childOf root) allTasks) in *.
  assert (Hch : forall c, In c children ->
                          In c allTasks /\ Task.parentId c = Some root).
  { intros c Hc. unfold children in Hc. apply filter_In in Hc.
    destruct Hc as [Hc Hp]. apply childOf_spec in Hp. auto. }
  assert (Hcnd : NoDup children) by (apply NoDup_filter; exact Hall).
  assert (Hsub : forall x, In x (List.concat dss) ->
                   exists c, In c children /\ descendantOf allTasks (Task.id c) x).
  { intros x Hx. destruct (Forall2_concat_in _ _ _ _ HF Hx) as (c & d & Hc & Hd & Hxd).
    exists c. split; [exact Hc |]. eapply getDescendantTasks_sound; eassumption. }
  apply NoDup_app.
  - exact Hcnd.
  - clear Hsub.
    assert (Hgen : forall cs0 dss0,
              Forall2 (fun c d => getDescendantTasks n (Task.id c) allTasks = Returned d)
                cs0 dss0 ->
              NoDup cs0 ->
              (forall c, In c cs0 -> In c allTasks /\ Task.parentId c = Some root) ->
              NoDup (List.concat dss0)).
    { intros cs0 dss0 HF0.
      induction HF0 as [| c d cs1 dss1 Hd HF1 IHF]; intros Hnd0 Hch0; simpl;
        [constructor |].
      apply NoDup_cons_iff in Hnd0. destruct Hnd0 as [Hnc Hnd1].
      apply NoDup_app.
      - eapply IH. exact Hd.
      - apply IHF; [exact Hnd1 | intros c' Hc'; apply Hch0; now right].
      - intros x Hx Hx'.
        destruct (Forall2_concat_in _ _ _ _ HF1 Hx') as (c' & d' & Hc' & Hd' & Hxd').
        destruct (Hch0 c (or_introl eq_refl)) as [Hin Hp].
        destruct (Hch0 c' (or_intror Hc')) as [Hin' Hp'].
        apply (siblings_disjoint root c c' x Hin Hin' Hp Hp').
        + intros ->. contradiction.
        + eapply getDescendantTasks_sound; eassumption.
        + eapply getDescendantTasks_sound; eassumption. }
    exact (Hgen children dss HF Hcnd Hch).
  - intros x Hx Hx'. destruct (Hsub x Hx') as (c & Hc & Hdx).
    destruct (Hch c Hc) as [Hin Hp]. destruct (Hch x Hx) as [_ Hpx].
    exact (child_not_below_sibling root c x Hin Hp Hpx Hdx).
Qed.

End Forest.

Lemma nestedTasks_ranked : ranked nestedRank nestedTasks.
Proof. each_task. Qed.

Lemma Forall2_preimage {A B : Type} (P : A -> B -> Prop) (l : list A) (l' : list B) :
  Forall2 P l l' -> forall a, In a l -> exists b, In b l' /\ P a b.
Proof.
  induction 1 as [| x y l l' Hp HF IH]; simpl; intros a Hin; [contradiction |].
  destruct Hin as [<- | Hin].
  - exists y. auto.
  - destruct (IH a Hin) as (b & Hb & Hpb). exists b. auto.
Qed.

Lemma NoDup_map_inj {A B : Type} (f : A -> B) (l : list A) :
  NoDup l -> (forall x y, In x l -> In y l -> f x = f y -> x = y) ->
  NoDup (map f l).
Proof.
  induction 1 as [| x l Hx Hl IH]; intros Hinj; simpl; constructor.
  - intros Hin. apply in_map_iff in Hin. destruct Hin as (y & Ey & Hy).
    assert (y = x) by (apply Hinj; simpl; auto). subst y. contradiction.
  - apply IH. intros a b Ha Hb. apply Hinj; now right.
Qed.

Lemma potentialParents_spec (tasks : list Task) (task p : Task) :
  In p (potentialParents tasks task) <->
  In p tasks /\ Task.projectId p = Task.projectId task /\
  Task.id p <> Task.id task /\ Task.state p <> "inbox".
Proof.
  unfold potentialParents. rewrite filter_In, !andb_true_iff, !negb_true_iff.
  rewrite optEqb_eq, !String.eqb_neq. tauto.
Qed.

Section CycleFacts.

Variable nowAt : nat -> string.
Variable window_confirm : string -> bool.

(** X6: when a task lies on a cycle of parent links (it is among its own
    descendants), marking it done throws the stack-overflow error whatever the
    depth of the stack: no prompt is shown, nothing is updated locally and
    nothing is written remotely. *)
Theorem updateTask_done_on_cycle_throws
  (stack : nat) (id : string) (patch : Patch) (w : World) :
  Patch.state patch = Some "done" ->
  (exists t, descendantOf (tasks w) id t /\ Task.id t = id) ->
  updateTask nowAt window_confirm stack id patch w = Thrown stackOverflow.
Proof.
  intros Hst Hcyc. unfold updateTask. rewrite Hst. simpl optEqb.
  destruct (getDescendantTasks stack id (tasks w)) as [ds | e] eqn:E.
  - exfalso. exact (getDescendantTasks_cycle_never_returns _ _ Hcyc _ _ E).
  - now rewrite (getDescendantTasks_throws_overflow _ _ _ _ E).
Qed.

(** X7: on a forest of tasks with distinct ids, the traversal lists every
    descendant exactly once and never the task itself, so the number in the
    prompt is the number of incomplete descendants and a cascade that goes
    ahead dispatches exactly one remote write per updated document. *)
Theorem cascade_writes_each_document_once
  (rank : string -> nat) (stack : nat) (id : string) (patch : Patch) (w : World) :
  ranked rank (tasks w) -> NoDup (map Task.id (tasks w)) ->
  rank id < stack -> Patch.state patch = Some "done" ->
  exists ds,
    getDescendantTasks stack id (tasks w) = Returned ds /\
    (forall t, In t ds <-> descendantOf (tasks w) id t) /\
    NoDup ds /\ NoDup (id :: map Task.id ds) /\
    let n := List.length (filter notDone ds) in
    (n = 0 \/ window_confirm (taskPrompt n) = true ->
     exists w' batch,
       updateTask nowAt window_confirm stack id patch w = Returned w' /\
       log w' = log w ++ [SetTasks (tasks w'); UpdateDocs batch] /\
       map w_doc batch = id :: map Task.id ds /\
       NoDup (map w_doc batch)).
Proof.
  intros Hr Hnd Hlt Hst.
  destruct (getDescendantTasks_spec rank (tasks w) stack id Hr Hlt) as (ds & Hds & Hiff).
  exists ds. split; [exact Hds |]. split; [exact Hiff |].
  pose proof (getDescendantTasks_NoDup rank (tasks w) Hr Hnd stack id ds Hds) as Hnds.
  split; [exact Hnds |].
  assert (Hin_all : forall t, In t ds -> In t (tasks w)).
  { intros t Ht. eapply descendantOf_in. apply Hiff. exact Ht. }
  assert (Hids : NoDup (id :: map Task.id ds)).
  { constructor.
    - intros Hin. apply in_map_iff in Hin. destruct Hin as (t & Et & Ht).
      apply Hiff in Ht. pose proof (desc_rank rank _ _ _ Hr Ht). rewrite Et in *. lia.
    - apply NoDup_map_inj; [exact Hnds |].
      intros x y Hx Hy E. apply (id_injective (tasks w) Hnd); auto. }
  split; [exact Hids |]. intros n Hgo.
  destruct (updateTask_done nowAt window_confirm stack id patch w ds Hst Hds)
    as [_ Hrun].
  destruct (Hrun Hgo) as (next & clk & E & _ & _).
  eexists _, _. split; [exact E |]. cbn [log tasks]. split; [reflexivity |].
  assert (Em : map w_doc (map doneWrite (id :: map Task.id ds)) = id :: map Task.id ds).
  { rewrite map_map. simpl. f_equal. apply map_id. }
  split; [exact Em |]. rewrite Em. exact Hids.
Qed.

End CycleFacts.

(** ** Runs that follow one another *)

(** Two collections that agree, place by place, on ids and parent links. *)
Lemma Forall2_filter_related {A : Type} (R : A -> A -> Prop) (p : A -> bool)
  (l l' : list A) :
  (forall a b, R a b -> p b = p a) ->
  Forall2 R l l' -> Forall2 R (filter p l) (filter p l').
Proof.
  intros Hp. induction 1 as [| a b l l' Hab HF IH]; simpl; [constructor |].
  rewrite (Hp a b Hab). destruct (p a); [constructor |]; assumption.
Qed.

Lemma Forall2_concat_related {A : Type} (R : A -> A -> Prop)
  (dss dss' : list (list A)) :
  Forall2 (Forall2 R) dss dss' -> Forall2 R (List.concat dss) (List.concat dss').
Proof.
  induction 1 as [| d d' dss dss' Hd HF IH]; simpl; [constructor |].
  now apply Forall2_app.
Qed.

Lemma getDescendantTasks_related (l l' : list Task) (n : nat) :
  Forall2 (fun t t' => Task.id t' = Task.id t /\ Task.parentId t' = Task.parentId t)
    l l' ->
  forall root ds,
    getDescendantTasks n root l = Returned ds ->
    exists ds',
      getDescendantTasks n root l' = Returned ds' /\
      Forall2 (fun t t' => Task.id t' = Task.id t /\ Task.parentId t' = Task.parentId t)
        ds ds'.
Proof.
  intros Hrel. induction n as [| n IH]; intros root ds H; [discriminate H |].
  apply getDescendantTasks_unfold in H. destruct H as (dss & HF & ->).
  assert (Hch : Forall2
                  (fun t t' => Task.id t' = Task.id t /\
                               Task.parentId t' = Task.parentId t)
                  (filter (childOf root) l) (filter (childOf root) l')).
  { apply Forall2_filter_related; [| exact Hrel].
    intros a b [_ Hp]. unfold childOf. now rewrite Hp. }
  assert (Hdss : exists dss',
            Forall2 (fun c d => getDescendantTasks n (Task.id c) l' = Returned d)
              (filter (childOf root) l') dss' /\
            Forall2 (Forall2 (fun t t' => Task.id t' = Task.id t /\
                                          Task.parentId t' = Task.parentId t))
              dss dss').
  { revert dss HF. induction Hch as [| c c' cs cs' [Hid _] _ IHc]; intros dss HF.
    - inversion HF; subst. exists []. split; constructor.
    - inversion HF as [| c0 d cs0 dss0 Hd HF']; subst.
      destruct (IH _ _ Hd) as (d' & Hd' & Hrd).
      destruct (IHc _ HF') as (dss' & HF'' & Hrdss).
      exists (d' :: dss'). split; constructor; auto. now rewrite Hid. }
  destruct Hdss as (dss' & HF' & Hrdss).
  eexists. split.
  - apply getDescendantTasks_unfold. exists dss'. split; [exact HF' | reflexivity].
  - apply Forall2_app; [exact Hch | now apply Forall2_concat_related].
Qed.

Lemma filter_notDone_nil (l : list Task) :
  (forall t, In t l -> Task.state t = "done") -> filter notDone l = [].
Proof.
  induction l as [| t l IH]; intros H; simpl; [reflexivity |].
  assert (E : notDone t = false) by (apply notDone_false; apply H; now left).
  rewrite E. apply IH. intros x Hx. apply H. now right.
Qed.

Lemma Forall2_map_fun {A B : Type} (f : A -> B) (l : list A) :
  Forall2 (fun a b => b = f a) l (map f l).
Proof. induction l; simpl; constructor; auto. Qed.

Section SequenceFacts.

Variable nowAt : nat -> string.

(** X8: the parent selector of a task offers every task of the same project
    that is not in the inbox, the task's own descendants included, and leaves
    out only the task itself.  Choosing a descendant makes the task its own
    descendant, after which marking it done throws the stack-overflow error
    at every depth of the stack. *)
Theorem choosing_descendant_as_parent_breaks_completion
  (window_confirm : string -> bool) (rank : string -> nat) (stack : nat)
  (w : World) (t d : Task) :
  ranked rank (tasks w) -> In t (tasks w) ->
  descendantOf (tasks w) (Task.id t) d ->
  Task.projectId d = Task.projectId t -> Task.state d <> "inbox" ->
  Task.id d <> "" ->
  In d (potentialParents (tasks w) t) /\
  ~ In t (potentialParents (tasks w) t) /\
  exists w1,
    updateTask nowAt window_confirm stack (Task.id t) (parentPatch (Task.id d)) w =
      Returned w1 /\
    forall stack',
      updateTask nowAt window_confirm stack' (Task.id t) (Patch.ofState "done") w1 =
        Thrown stackOverflow.
Proof.
  intros Hr Ht Hd Hproj Hst Hne.
  assert (Hbelow : forall x, descendantOf (tasks w) (Task.id t) x ->
                             Task.id x <> Task.id t).
  { intros x Hx E. pose proof (desc_rank rank _ _ _ Hr Hx). rewrite E in *. lia. }
  split; [| split].
  - apply potentialParents_spec. repeat split; auto.
    eapply descendantOf_in; eassumption.
  - intros Hin. apply potentialParents_spec in Hin. tauto.
  - set (patch := parentPatch (Task.id d)).
    assert (Hp : Patch.state patch <> Some "done") by discriminate.
    destruct (updateTask_patch nowAt window_confirm stack (Task.id t) patch w Hp)
      as (next & clk & updates & E & _ & _ & _ & HF).
    eexists. split; [exact E |]. intros stack'.
    assert (Hkeep : forall x, descendantOf (tasks w) (Task.id t) x ->
                              descendantOf next (Task.id t) x).
    { intros x Hx. induction Hx as [x Hin Hpx | c x Hc IH Hin Hpx].
      - destruct (Forall2_preimage _ _ _ HF x Hin) as (x' & Hx' & _ & Hout).
        rewrite (Hout (Hbelow x (desc_child _ _ x Hin Hpx))) in Hx'.
        now apply desc_child.
      - destruct (Forall2_preimage _ _ _ HF x Hin) as (x' & Hx' & _ & Hout).
        rewrite (Hout (Hbelow x (desc_step _ _ c x Hc Hin Hpx))) in Hx'.
        apply (desc_step _ _ c); auto. }
    destruct (Forall2_preimage _ _ _ HF t Ht) as (t' & Ht' & Hyes & _).
    destruct (Hyes eq_refl) as (k & _ & _ & Et').
    assert (Hcyc : exists x, descendantOf next (Task.id t) x /\ Task.id x = Task.id t).
    { exists t'. split.
      - apply (desc_step _ _ d); [now apply Hkeep | exact Ht' |].
        rewrite Et'. unfold patch, parentPatch. simpl.
        destruct (String.eqb_spec (Task.id d) ""); [contradiction | reflexivity].
      - rewrite Et'. reflexivity. }
    unfold updateTask. simpl optEqb. cbn [tasks].
    destruct (getDescendantTasks stack' (Task.id t) next) as [ds | e] eqn:Eg.
    + exfalso. exact (getDescendantTasks_cycle_never_returns _ _ Hcyc _ _ Eg).
    + now rewrite (getDescendantTasks_throws_overflow _ _ _ _ Eg).
Qed.

(** X9: a status change of a project that is not a change to [done], or a
    change to [done] of a project that owns no incomplete task, shows no
    prompt and leaves every task as it was: the project is written remotely
    and then only the projects with the selected id take the new state. *)
Theorem project_state_change_without_cascade
  (window_confirm : string -> bool) (sel newState : string) (w : World) :
  newState <> "done" \/
  filter notDone
    (filter (fun t => optEqb (Task.projectId t) (Some sel)) (tasks w)) = [] ->
  let w' := onProjectStatusChange nowAt window_confirm sel newState w in
  tasks w' = tasks w /\ clock w' = clock w /\
  log w' =
    log w ++ [UpdateDocs [mkWrite "projects" sel [("state", FString newState)]];
              SetProjects (projects w')] /\
  Forall2
    (fun p p' =>
       (Project.id p = sel -> p' = withProjectState p newState) /\
       (Project.id p <> sel -> p' = p))
    (projects w) (projects w').
Proof.
  intros Hcase w'.
  assert (E : w' = commitProjectState sel newState w).
  { unfold w', onProjectStatusChange.
    destruct (String.eqb_spec newState "done") as [Ed | Ed]; [| reflexivity].
    destruct Hcase as [Hx | Hnil]; [contradiction |]. rewrite Hnil. reflexivity. }
  rewrite E. simpl. repeat split.
  eapply Forall2_impl; [| apply Forall2_map_fun].
  intros p p' ->. simpl.
  destruct (String.eqb_spec (Project.id p) sel); split; congruence.
Qed.

(** What a cascade that went ahead leaves behind for the owned tasks. *)
Lemma onProjectStatusChange_owned_done
  (window_confirm : string -> bool) (sel : string) (w : World) :
  let n := List.length
             (filter notDone
                (filter (fun t => optEqb (Task.projectId t) (Some sel)) (tasks w))) in
  n = 0 \/ window_confirm (projectPrompt n) = true ->
  forall t', In t' (tasks (onProjectStatusChange nowAt window_confirm sel "done" w)) ->
             Task.projectId t' = Some sel -> Task.state t' = "done".
Proof.
  intros n Hgo t' Hin Hp.
  destruct (onProjectStatusChange_done nowAt window_confirm sel w)
    as (_ & Hzero & Hyes).
  fold n in Hzero, Hyes.
  destruct (Nat.eq_dec n 0) as [Hz | Hz].
  - rewrite (Hzero Hz) in Hin. simpl in Hin.
    destruct (notDone t') eqn:End; [| now apply notDone_false].
    exfalso.
    assert (Hx : In t' (filter notDone
                          (filter (fun t => optEqb (Task.projectId t) (Some sel))
                             (tasks w)))).
    { apply filter_In. split; [| exact End]. apply filter_In.
      split; [exact Hin | now apply optEqb_eq]. }
    unfold n in Hz. apply length_zero_iff_nil in Hz. rewrite Hz in Hx. exact Hx.
  - destruct Hgo as [Hgo | Hgo]; [contradiction |].
    destruct (Hyes ltac:(lia) Hgo) as (next & clk & E & _ & HF).
    rewrite E in Hin. simpl in Hin.
    destruct (Forall2_image _ _ _ HF t' Hin) as (t & _ & Hdo & Hkeep).
    destruct (String.eqb_spec (Task.state t) "done") as [Ed | Ed].
    + rewrite (Hkeep (or_intror Ed)). exact Ed.
    + destruct (optEqb (Task.projectId t) (Some sel)) eqn:Eo.
      * apply optEqb_eq in Eo. destruct (Hdo Eo Ed) as (k & _ & _ & ->).
        reflexivity.
      * assert (Hnp : Task.projectId t <> Some sel).
        { intros Hx. apply optEqb_eq in Hx. congruence. }
        rewrite (Hkeep (or_introl Hnp)) in Hp. contradiction.
Qed.

(** X10: once a project has been set to [done] and the cascade went ahead,
    setting it to [done] again shows no prompt, whatever the user would
    answer, and changes neither the tasks nor the projects: it only repeats
    the remote write of the project. *)
Theorem project_done_again_is_quiet
  (first second : string -> bool) (sel : string) (w : World) :
  let n := List.length
             (filter notDone
                (filter (fun t => optEqb (Task.projectId t) (Some sel)) (tasks w))) in
  n = 0 \/ first (projectPrompt n) = true ->
  let w1 := onProjectStatusChange nowAt first sel "done" w in
  let w2 := onProjectStatusChange nowAt second sel "done" w1 in
  tasks w2 = tasks w1 /\ projects w2 = projects w1 /\ clock w2 = clock w1 /\
  log w2 =
    log w1 ++ [UpdateDocs [mkWrite "projects" sel [("state", FString "done")]];
               SetProjects (projects w1)].
Proof.
  intros n Hgo w1 w2.
  pose proof (onProjectStatusChange_owned_done first sel w Hgo) as Hdone.
  fold w1 in Hdone.
  assert (Hnil : filter notDone
                   (filter (fun t => optEqb (Task.projectId t) (Some sel)) (tasks w1))
                 = []).
  { apply filter_notDone_nil. intros t Ht. apply filter_In in Ht.
    destruct Ht as [Ht Hp]. apply optEqb_eq in Hp. now apply Hdone. }
  destruct (onProjectStatusChange_done nowAt second sel w1) as (_ & Hzero & _).
  rewrite Hnil in Hzero. specialize (Hzero eq_refl). fold w2 in Hzero.
  assert (Hproj : projects (commitProjectState sel "done" w1) = projects w1).
  { assert (Hp1 : exists w0, w1 = commitProjectState sel "done" w0).
    { unfold w1. destruct (onProjectStatusChange_done nowAt first sel w)
        as (_ & Hz & Hy). fold n in Hz, Hy.
      destruct (Nat.eq_dec n 0) as [Hn | Hn].
      - rewrite (Hz Hn). eauto.
      - destruct Hgo as [Hx | Hx]; [contradiction |].
        destruct (Hy ltac:(lia) Hx) as (next & clk & E & _). rewrite E. eauto. }
    destruct Hp1 as (w0 & ->). simpl. rewrite map_map. apply map_ext.
    intros p. destruct (String.eqb_spec (Project.id p) sel) as [Ep | Ep]; simpl.
    - rewrite Ep, String.eqb_refl. reflexivity.
    - destruct (String.eqb_spec (Project.id p) sel); [contradiction | reflexivity]. }
  rewrite Hzero. split; [reflexivity |]. split; [exact Hproj |].
  split; [reflexivity |]. cbn [log commitProjectState]. f_equal. f_equal. f_equal.
  exact (f_equal SetProjects Hproj).
Qed.

(** X11: once a task has been marked done and the cascade went ahead,
    marking it done again shows no prompt, whatever the user would answer:
    all of its descendants are done, and the run repeats the cascade on the
    same documents, which takes new completion times for all of them. *)
Theorem task_done_again_needs_no_confirmation
  (first second : string -> bool) (rank : string -> nat) (stack : nat)
  (id : string) (patch : Patch) (w : World) :
  ranked rank (tasks w) -> rank id < stack -> Patch.state patch = Some "done" ->
  exists ds,
    getDescendantTasks stack id (tasks w) = Returned ds /\
    let n := List.length (filter notDone ds) in
    (n = 0 \/ first (taskPrompt n) = true ->
     exists w1 w2 ds1,
       updateTask nowAt first stack id patch w = Returned w1 /\
       getDescendantTasks stack id (tasks w1) = Returned ds1 /\
       map Task.id ds1 = map Task.id ds /\
       filter notDone ds1 = [] /\
       updateTask nowAt second stack id patch w1 = Returned w2 /\
       log w2 = log w1 ++ [SetTasks (tasks w2);
                           UpdateDocs (map doneWrite (id :: map Task.id ds))] /\
       clock w1 <= clock w2).
Proof.
  intros Hr Hlt Hst.
  destruct (getDescendantTasks_returns rank (tasks w) Hr stack id Hlt) as [ds Hds].
  exists ds. split; [exact Hds |]. intros n Hgo.
  destruct (updateTask_done nowAt first stack id patch w ds Hst Hds) as [_ Hrun].
  destruct (Hrun Hgo) as (next & clk & E & _ & HF).
  assert (Hrel : Forall2
                   (fun t t' => Task.id t' = Task.id t /\
                                Task.parentId t' = Task.parentId t)
                   (tasks w) next).
  { eapply Forall2_impl; [| exact HF]. intros t t' [Hin Hout].
    destruct (includes (id :: map Task.id ds) (Task.id t)).
    - destruct (Hin eq_refl) as (k & _ & _ & ->). split; reflexivity.
    - rewrite (Hout eq_refl). split; reflexivity. }
  destruct (getDescendantTasks_related _ _ stack Hrel id ds Hds) as (ds1 & Hds1 & Hr1).
  assert (Hids : map Task.id ds1 = map Task.id ds).
  { apply Forall2_map_eq. eapply Forall2_impl; [| exact Hr1]. now intros a b [? _]. }
  assert (Hnil : filter notDone ds1 = []).
  { apply filter_notDone_nil. intros d1 Hd1.
    assert (Hin1 : In d1 next).
    { eapply descendantOf_in. eapply getDescendantTasks_sound; eassumption. }
    destruct (Forall2_image _ _ _ HF d1 Hin1) as (t & _ & Hin & Hout).
    assert (Hinc : includes (id :: map Task.id ds) (Task.id d1) = true).
    { apply includes_spec. right. rewrite <- Hids. now apply in_map. }
    destruct (includes (id :: map Task.id ds) (Task.id t)) eqn:Et.
    - destruct (Hin eq_refl) as (k & _ & _ & ->). reflexivity.
    - rewrite (Hout eq_refl) in Hinc. congruence. }
  set (w1 := mkWorld next (projects w) (view w) (quickText w)
               (log w ++ [SetTasks next;
                          UpdateDocs (map doneWrite (id :: map Task.id ds))])
               clk) in *.
  destruct (updateTask_done nowAt second stack id patch w1 ds1 Hst Hds1)
    as [_ Hrun1].
  rewrite Hnil in Hrun1.
  destruct (Hrun1 (or_introl eq_refl)) as (next2 & clk2 & E2 & Hle2 & _).
  eexists w1, _, ds1. split; [exact E |]. split; [exact Hds1 |].
  split; [exact Hids |]. split; [exact Hnil |]. split; [exact E2 |].
  cbn [log tasks clock]. rewrite Hids. split; [reflexivity | exact Hle2].
Qed.

End SequenceFacts.

(** ** Worked runs of the further properties *)

Lemma updateTask_keeps_shape_witness :
  exists w',
    updateTask sampleClock alwaysYes 8 "t-1" (Patch.ofState "done") tripWorld =
      Returned w' /\
    List.length (tasks w') = 4 /\
    map Task.id (tasks w') = ["t-1"; "t-2"; "t-3"; "t-4"].
Proof.
  destruct (updateTask sampleClock alwaysYes 8 "t-1" (Patch.ofState "done") tripWorld)
    as [w' | e] eqn:E; [| vm_compute in E; discriminate E].
  exists w'. split; [reflexivity |].
  destruct (updateTask_keeps_shape sampleClock alwaysYes 8 "t-1"
              (Patch.ofState "done") tripWorld w' E) as (Hlen & _ & _ & _ & _ & Hids & _).
  split; [exact Hlen | exact (Hids (or_introl eq_refl))].
Defined.

Lemma handlers_keep_stamped_witness :
  stamped (tasks tripWorld) /\
  stamped (tasks (addQuickTask sampleClock "t-5" tripWorld)) /\
  stamped (tasks (onProjectStatusChange sampleClock alwaysYes "p-home" "done"
                    tripWorld)).
Proof.
  assert (Hs : stamped (tasks tripWorld)) by stamped_by_cases.
  split; [exact Hs |].
  destruct (handlers_keep_stamped sampleClock alwaysYes "t-5" 8 "t-1"
              (Patch.ofState "done") "p-home" "done" tripWorld Hs) as (Ha & _ & Hp).
  split; [exact Ha | exact Hp].
Defined.

Lemma updateTask_done_on_cycle_throws_witness :
  (exists t, descendantOf (tasks cycleWorld) "a" t /\ Task.id t = "a") /\
  updateTask sampleClock alwaysYes 1000 "a" (Patch.ofState "done") cycleWorld =
    Thrown stackOverflow.
Proof.
  assert (Hcyc : exists t, descendantOf (tasks cycleWorld) "a" t /\ Task.id t = "a").
  { exists (Task.mk "a" "a" None (Some "b") "active" "" "" None None None 10).
    split; [| reflexivity].
    apply (desc_step _ _ (Task.mk "b" "b" None (Some "a") "active" "" "" None None None 10)).
    - apply desc_child; [right; left; reflexivity | reflexivity].
    - left. reflexivity.
    - reflexivity. }
  split; [exact Hcyc |].
  exact (updateTask_done_on_cycle_throws sampleClock alwaysYes 1000 "a"
           (Patch.ofState "done") cycleWorld eq_refl Hcyc).
Defined.

Lemma cascade_writes_each_document_once_witness :
  ranked tripRank (tasks tripWorld) /\ NoDup (map Task.id (tasks tripWorld)) /\
  exists w' batch,
    updateTask sampleClock alwaysYes 8 "t-1" (Patch.ofState "done") tripWorld =
      Returned w' /\
    map w_doc batch = ["t-1"; "t-2"; "t-3"] /\ NoDup (map w_doc batch).
Proof.
  assert (Hnd : NoDup (map Task.id (tasks tripWorld))) by distinct_strings.
  assert (Hlt : tripRank "t-1" < 8) by (vm_compute; lia).
  split; [exact tripTasks_ranked |]. split; [exact Hnd |].
  destruct (cascade_writes_each_document_once sampleClock alwaysYes tripRank 8 "t-1"
              (Patch.ofState "done") tripWorld tripTasks_ranked Hnd Hlt eq_refl)
    as (ds & Hds & _ & _ & _ & H).
  vm_compute in Hds. injection Hds as <-. cbv zeta in H.
  destruct (H (or_intror eq_refl)) as (w' & batch & E & _ & Hdocs & Hone).
  exists w', batch. split; [exact E |]. split; [exact Hdocs | exact Hone].
Defined.

Lemma choosing_descendant_as_parent_breaks_completion_witness :
  let a := Task.mk "a" "a" None None "active" "" "" None None None 10 in
  let b := Task.mk "b" "b" None (Some "a") "active" "" "" None None None 10 in
  let c := Task.mk "c" "c" None (Some "b") "active" "" "" None None None 10 in
  ranked nestedRank (tasks nestedWorld) /\
  descendantOf (tasks nestedWorld) "a" c /\
  In c (potentialParents nestedTasks a) /\
  exists w1,
    updateTask sampleClock alwaysYes 8 "a" (parentPatch "c") nestedWorld =
      Returned w1 /\
    updateTask sampleClock alwaysYes 1000 "a" (Patch.ofState "done") w1 =
      Thrown stackOverflow.
Proof.
  intros a b c.
  assert (Hd : descendantOf (tasks nestedWorld) (Task.id a) c).
  { apply (desc_step _ _ b).
    - apply desc_child; [right; left; reflexivity | reflexivity].
    - right. right. left. reflexivity.
    - reflexivity. }
  split; [exact nestedTasks_ranked |]. split; [exact Hd |].
  destruct (choosing_descendant_as_parent_breaks_completion sampleClock alwaysYes
              nestedRank 8 nestedWorld a c nestedTasks_ranked
              (or_introl eq_refl) Hd eq_refl)
    as (Hoffer & _ & w1 & E & Hthrow); [discriminate | discriminate |].
  split; [exact Hoffer |]. exists w1. split; [exact E | exact (Hthrow 1000)].
Defined.

Lemma project_state_change_without_cascade_witness :
  "active" <> "done" /\
  let w' := onProjectStatusChange sampleClock alwaysNo "p-work" "active" workWorld in
  tasks w' = workTasks /\
  map Project.state (projects w') = ["active"; "active"].
Proof.
  assert (Hne : "active" <> "done") by discriminate.
  split; [exact Hne |]. intros w'.
  destruct (project_state_change_without_cascade sampleClock alwaysNo "p-work"
              "active" workWorld (or_introl Hne)) as (Ht & _).
  split; [exact Ht | reflexivity].
Defined.

Lemma project_done_again_is_quiet_witness :
  let w1 := onProjectStatusChange sampleClock alwaysYes "p-work" "done" workWorld in
  let w2 := onProjectStatusChange sampleClock alwaysNo "p-work" "done" w1 in
  alwaysYes (projectPrompt 2) = true /\
  tasks w2 = tasks w1 /\ projects w2 = projects w1.
Proof.
  intros w1 w2. split; [reflexivity |].
  destruct (project_done_again_is_quiet sampleClock alwaysYes alwaysNo "p-work"
              workWorld (or_intror eq_refl)) as (Ht & Hp & _).
  split; [exact Ht | exact Hp].
Defined.

Lemma task_done_again_needs_no_confirmation_witness :
  ranked tripRank (tasks tripWorld) /\ tripRank "t-1" < 8 /\
  exists w1 w2,
    updateTask sampleClock alwaysYes 8 "t-1" (Patch.ofState "done") tripWorld =
      Returned w1 /\
    updateTask sampleClock alwaysNo 8 "t-1" (Patch.ofState "done") w1 =
      Returned w2 /\
    w2 <> w1.
Proof.
  assert (Hlt : tripRank "t-1" < 8) by (vm_compute; lia).
  split; [exact tripTasks_ranked |]. split; [exact Hlt |].
  destruct (task_done_again_needs_no_confirmation sampleClock alwaysYes alwaysNo
              tripRank 8 "t-1" (Patch.ofState "done") tripWorld
              tripTasks_ranked Hlt eq_refl) as (ds & Hds & H).
  vm_compute in Hds. injection Hds as <-. cbv zeta in H.
  destruct (H (or_intror eq_refl)) as (w1 & w2 & ds1 & E1 & _ & _ & _ & E2 & Hlog & _).
  exists w1, w2. split; [exact E1 |]. split; [exact E2 |].
  intros Heq. rewrite Heq in Hlog.
  apply (f_equal (@List.length Effect)) in Hlog.
  rewrite length_app in Hlog. simpl in Hlog. lia.
Defined.

(** ** The tree renderers *)

Lemma mapOutcome_returned {A B : Type} (f : A -> Outcome B) (l : list A) :
  forall ys,
    mapOutcome f l = Returned ys <-> Forall2 (fun x y => f x = Returned y) l ys.
Proof.
  induction l as [| x l IH]; simpl; intros ys.
  - split; [intros H; injection H as <-; constructor | intros H; now inversion H].
  - destruct (f x) as [y | e] eqn:Ef.
    + destruct (mapOutcome f l) as [ys' | e] eqn:Em.
      * split.
        -- intros H. injection H as <-. constructor; [exact Ef | now apply IH].
        -- intros H. inversion H as [| x0 y0 l0 ys0 Hy Hr]; subst.
           rewrite Ef in Hy. injection Hy as <-.
           apply IH in Hr. injection Hr as <-. reflexivity.
      * split; [discriminate |].
        intros H. inversion H as [| x0 y0 l0 ys0 Hy Hr]; subst.
        apply IH in Hr. discriminate Hr.
    + split; [discriminate |].
      intros H. inversion H as [| x0 y0 l0 ys0 Hy Hr]; subst.
      rewrite Ef in Hy. discriminate Hy.
Qed.

Lemma Forall2_map_right {A B C : Type} (P : A -> C -> Prop) (g : B -> C)
  (l : list A) (l' : list B) :
  Forall2 (fun a b => P a (g b)) l l' -> Forall2 P l (map g l').
Proof. induction 1; simpl; constructor; auto. Qed.

Lemma Forall2_in_left {A B : Type} (P : A -> B -> Prop) (l : list A) (l' : list B) :
  Forall2 P l l' -> Forall2 (fun a b => In a l /\ P a b) l l'.
Proof.
  induction 1 as [| a b l l' Hp HF IH]; constructor.
  - split; [now left | exact Hp].
  - eapply Forall2_impl; [| exact IH]. intros x y [Hx Hxy]. split; [now right | exact Hxy].
Qed.

Section WalkFacts.

Variable kids : option string -> list Task.

Lemma walk_unfold (n : nat) (root : option string) (l : list Task) :
  walk kids (S n) root = Returned l <->
  exists parts,
    Forall2
      (fun c p => exists below,
                    walk kids n (Some (Task.id c)) = Returned below /\ p = c :: below)
      (kids root) parts /\
    l = List.concat parts.
Proof.
  assert (Hpt : forall c p,
            match walk kids n (Some (Task.id c)) with
            | Thrown e => Thrown e
            | Returned below => Returned (c :: below)
            end = Returned p <->
            exists below,
              walk kids n (Some (Task.id c)) = Returned below /\ p = c :: below).
  { intros c p. destruct (walk kids n (Some (Task.id c))) as [below | e].
    - split.
      + intros H. injection H as <-. eauto.
      + intros (below' & Hb & ->). injection Hb as <-. reflexivity.
    - split; [discriminate |]. intros (below' & Hb & _). discriminate Hb. }
  cbn [walk].
  destruct (mapOutcome _ (kids root)) as [parts | e] eqn:Em.
  - apply mapOutcome_returned in Em. split.
    + intros H. injection H as <-. exists parts. split; [| reflexivity].
      eapply Forall2_impl; [| exact Em]. intros c p Hc. now apply Hpt.
    + intros (parts' & HF & ->).
      assert (Em' : Forall2
                      (fun c p =>
                         match walk kids n (Some (Task.id c)) with
                         | Thrown e => Thrown e
                         | Returned below => Returned (c :: below)
                         end = Returned p) (kids root) parts').
      { eapply Forall2_impl; [| exact HF]. intros c p Hc. now apply Hpt. }
      apply mapOutcome_returned in Em. apply mapOutcome_returned in Em'.
      rewrite Em in Em'. injection Em' as <-. reflexivity.
  - split; [discriminate |]. intros (parts & HF & _). exfalso.
    assert (Em' : Forall2
                    (fun c p =>
                       match walk kids n (Some (Task.id c)) with
                       | Thrown e => Thrown e
                       | Returned below => Returned (c :: below)
                       end = Returned p) (kids root) parts).
    { eapply Forall2_impl; [| exact HF]. intros c p Hc. now apply Hpt. }
    apply mapOutcome_returned in Em'. rewrite Em in Em'. discriminate Em'.
Qed.

Lemma reached_under (root : option string) (c t : Task) :
  In c (kids root) -> reached kids (Some (Task.id c)) t -> reached kids root t.
Proof.
  intros Hc. induction 1 as [x Hx | x y _ IH Hy].
  - apply (reached_below _ _ c); [now apply reached_kid | exact Hx].
  - apply (reached_below _ _ x); [exact IH | exact Hy].
Qed.

Lemma walk_sound (n : nat) :
  forall root l, walk kids n root = Returned l ->
                 forall t, In t l -> reached kids root t.
Proof.
  induction n as [| n IH]; intros root l H t Ht; [discriminate H |].
  apply walk_unfold in H. destruct H as (parts & HF & ->).
  apply Forall2_in_left in HF.
  destruct (Forall2_concat_in _ _ _ _ HF Ht) as (c & p & _ & (Hc & below & Hb & ->) & Htp).
  destruct Htp as [<- | Htp]; [now apply reached_kid |].
  apply (reached_under root c); [exact Hc |]. eapply IH; eassumption.
Qed.

Lemma walk_kids (n : nat) (root : option string) (l : list Task) (c : Task) :
  walk kids n root = Returned l -> In c (kids root) -> In c l.
Proof.
  destruct n as [| n]; intros H Hc; [discriminate H |].
  apply walk_unfold in H. destruct H as (parts & HF & ->).
  destruct (Forall2_in_concat _ _ _ _ HF Hc) as (p & (below & _ & ->) & Hsub).
  apply Hsub. now left.
Qed.

Lemma walk_closed (n : nat) :
  forall root l, walk kids n root = Returned l ->
                 forall c t, In c l -> In t (kids (Some (Task.id c))) -> In t l.
Proof.
  induction n as [| n IH]; intros root l H c t Hc Ht; [discriminate H |].
  apply walk_unfold in H. destruct H as (parts & HF & ->).
  destruct (Forall2_concat_in _ _ _ _ HF Hc) as (c0 & p & Hc0 & (below & Hb & ->) & Hcp).
  destruct (Forall2_in_concat _ _ _ _ HF Hc0) as (p' & (below' & Hb' & ->) & Hsub).
  rewrite Hb in Hb'. injection Hb' as <-.
  apply Hsub. right. destruct Hcp as [<- | Hcp].
  - eapply walk_kids; eassumption.
  - eapply IH; eassumption.
Qed.

Lemma walk_spec (n : nat) (root : option string) (l : list Task) :
  walk kids n root = Returned l -> forall t, In t l <-> reached kids root t.
Proof.
  intros H t. split; [eapply walk_sound; eassumption |].
  induction 1 as [c Hc | c x _ IH Hx].
  - eapply walk_kids; eassumption.
  - eapply walk_closed; eassumption.
Qed.

Lemma walk_returns (rank : string -> nat) :
  (forall p c, In c (kids (Some p)) -> rank (Task.id c) < rank p) ->
  forall n root,
    (forall c, In c (kids root) -> rank (Task.id c) < n) ->
    exists l, walk kids (S n) root = Returned l.
Proof.
  intros Hk. induction n as [| n IH]; intros root Hroot.
  - destruct (kids root) as [| c cs] eqn:Ek.
    + exists []. apply walk_unfold. exists []. rewrite Ek. split; constructor.
    + specialize (Hroot c (or_introl eq_refl)). lia.
  - destruct (Forall2_pick
                (fun c p => exists below,
                              walk kids (S n) (Some (Task.id c)) = Returned below /\
                              p = c :: below)
                (kids root)) as [parts HF].
    + intros c Hc.
      destruct (IH (Some (Task.id c))) as [below Hb].
      * intros c' Hc'. specialize (Hk _ _ Hc'). specialize (Hroot c Hc). lia.
      * eauto.
    + eexists. apply walk_unfold. exists parts. split; [exact HF | reflexivity].
Qed.

End WalkFacts.

Lemma notDone_isDone (t : Task) : notDone t = negb (isDone t).
Proof. reflexivity. Qed.

Lemma projectKids_spec (pts : list Task) (r : option string) (c : Task) :
  In c (projectKids pts r) <-> In c pts /\ Task.parentId c = r.
Proof.
  unfold projectKids. rewrite in_app_iff, !filter_In, sortBy_in, filter_In, optEqb_eq.
  rewrite notDone_isDone. destruct (isDone c); simpl; intuition congruence.
Qed.

Lemma reached_projectKids_in (pts : list Task) (root : option string) (t : Task) :
  reached (projectKids pts) root t -> In t pts.
Proof. destruct 1 as [c Hc | c x _ Hx]; eapply projectKids_spec; eassumption. Qed.

Lemma length_zero_nil {A : Type} (l : list A) :
  (List.length l =? 0)%nat = true -> l = [].
Proof. destruct l; [reflexivity | discriminate]. Qed.

Section ProjectTreeFacts.

Variable pts : list Task.

Lemma renderProjectTree_walk (n : nat) :
  forall root depth v,
    renderProjectTree n pts root depth = Returned v ->
    walk (projectKids pts) n root = Returned (shownTasks v).
Proof.
  induction n as [| n IH]; intros root depth v H; [discriminate H |].
  cbn [renderProjectTree] in H. apply walk_unfold. unfold projectKids.
  set (allNodes := sortBy byOrder
                     (filter (fun task => optEqb (Task.parentId task) root) pts)) in *.
  destruct (List.length allNodes =? 0)%nat eqn:El.
  - injection H as <-. rewrite (length_zero_nil _ El). exists [].
    split; [constructor | reflexivity].
  - destruct (mapOutcome _ (filter notDone allNodes)) as [a | e] eqn:Ea;
      [| discriminate H].
    destruct (mapOutcome _ (filter isDone allNodes)) as [d | e] eqn:Ed;
      [| discriminate H].
    injection H as <-.
    apply mapOutcome_returned in Ea. apply mapOutcome_returned in Ed.
    exists (map shownRow a ++ map shownRow d). split.
    + apply Forall2_app; apply Forall2_map_right.
      * eapply Forall2_impl; [| exact Ea]. intros c r Hr. cbv beta in Hr.
        destruct (renderProjectTree n pts (Some (Task.id c)) (S depth))
          as [sub | e] eqn:Es; [| discriminate Hr].
        injection Hr as <-. exists (shownTasks sub).
        split; [eapply IH; exact Es | reflexivity].
      * eapply Forall2_impl; [| exact Ed]. intros c r Hr. cbv beta in Hr.
        destruct (renderProjectTree n pts (Some (Task.id c)) (S depth))
          as [sub | e] eqn:Es; [| discriminate Hr].
        injection Hr as <-. exists (shownTasks sub).
        split; [eapply IH; exact Es | reflexivity].
    + cbn [shownTasks]. rewrite concat_app, !flat_map_concat_map. reflexivity.
Qed.

Lemma walk_renderProjectTree (n : nat) :
  forall root l,
    walk (projectKids pts) n root = Returned l ->
    forall depth, exists v, renderProjectTree n pts root depth = Returned v.
Proof.
  induction n as [| n IH]; intros root l H depth; [discriminate H |].
  apply walk_unfold in H. destruct H as (parts & HF & _).
  cbn [renderProjectTree]. unfold projectKids in HF.
  set (allNodes := sortBy byOrder
                     (filter (fun task => optEqb (Task.parentId task) root) pts)) in *.
  destruct (List.length allNodes =? 0)%nat; [eauto |].
  assert (Hsub : forall c, In c (filter notDone allNodes ++ filter isDone allNodes) ->
                   exists sub,
                     renderProjectTree n pts (Some (Task.id c)) (S depth) = Returned sub).
  { intros c Hc. destruct (Forall2_preimage _ _ _ HF c Hc) as (p & _ & below & Hb & _).
    eapply IH. exact Hb. }
  destruct (Forall2_pick
              (fun task r =>
                 match renderProjectTree n pts (Some (Task.id task)) (S depth) with
                 | Thrown e => Thrown e
                 | Returned sub =>
                     Returned (mkRow task (negb (String.eqb (Task.state task) "today"))
                                 (notDone task) sub)
                 end = Returned r)
              (filter notDone allNodes)) as [a Ha].
  { intros c Hc. destruct (Hsub c) as [sub ->]; [apply in_app_iff; now left | eauto]. }
  destruct (Forall2_pick
              (fun task r =>
                 match renderProjectTree n pts (Some (Task.id task)) (S depth) with
                 | Thrown e => Thrown e
                 | Returned sub => Returned (mkRow task false false sub)
                 end = Returned r)
              (filter isDone allNodes)) as [d Hd].
  { intros c Hc. destruct (Hsub c) as [sub ->]; [apply in_app_iff; now right | eauto]. }
  apply mapOutcome_returned in Ha. apply mapOutcome_returned in Hd.
  rewrite Ha, Hd. eauto.
Qed.

(** X12: on a forest, [renderProjectTree] returns a tree, within a stack one
    deeper than the largest rank.  The tree shows exactly the tasks of the
    list that hang from the root by parent links through tasks of the list:
    a task whose parent is not in the list (it is missing, or belongs to
    another project) is never shown in the tree of the whole list, nor is
    anything below it. *)
Theorem renderProjectTree_shows_reachable
  (rank : string -> nat) (n : nat) (root : option string) (depth : nat) :
  ranked rank pts -> (forall t, In t pts -> rank (Task.id t) < n) ->
  exists v,
    renderProjectTree (S n) pts root depth = Returned v /\
    (forall t, In t (shownTasks v) <-> reached (projectKids pts) root t) /\
    (forall r c, In c (projectKids pts r) <-> In c pts /\ Task.parentId c = r) /\
    (forall t, In t (shownTasks v) -> In t pts) /\
    (root = None ->
     forall t p, Task.parentId t = Some p ->
                 (forall c, In c pts -> Task.id c <> p) ->
                 ~ In t (shownTasks v)).
Proof.
  intros Hr Hbound.
  destruct (walk_returns (projectKids pts) rank) with (n := n) (root := root)
    as [l Hl].
  { intros p c Hc. apply projectKids_spec in Hc. destruct Hc as [Hin Hp].
    exact (Hr c p Hin Hp). }
  { intros c Hc. apply projectKids_spec in Hc. apply Hbound. apply Hc. }
  destruct (walk_renderProjectTree (S n) root l Hl depth) as [v Hv].
  exists v. split; [exact Hv |].
  pose proof (renderProjectTree_walk (S n) root depth v Hv) as Hw.
  pose proof (walk_spec (projectKids pts) (S n) root _ Hw) as Hspec.
  split; [exact Hspec |]. split; [intros r c; apply projectKids_spec |].
  split.
  - intros t Ht. apply Hspec in Ht. eapply reached_projectKids_in; eassumption.
  - intros -> t p Hp Hmissing Ht. apply Hspec in Ht.
    destruct Ht as [c Hc | c x Hc Hx].
    + apply projectKids_spec in Hc. destruct Hc as [_ Hc]. congruence.
    + apply projectKids_spec in Hx. destruct Hx as [_ Hx].
      apply (Hmissing c); [eapply reached_projectKids_in; eassumption | congruence].
Qed.

(** X13: on every level of a rendered project tree, a row offers the Done
    button exactly when its task is not done and the Today button exactly
    when its task is neither done nor in Today; the row's task is a task of
    the list. *)
Theorem renderProjectTree_buttons (n : nat) :
  forall root depth v,
    renderProjectTree n pts root depth = Returned v ->
    forall r, In r (shownRows v) ->
      In (rowTask r) pts /\
      doneButton r = notDone (rowTask r) /\
      todayButton r =
        notDone (rowTask r) && negb (String.eqb (Task.state (rowTask r)) "today").
Proof.
  induction n as [| n IH]; intros root depth v H r Hr; [discriminate H |].
  cbn [renderProjectTree] in H.
  set (allNodes := sortBy byOrder
                     (filter (fun task => optEqb (Task.parentId task) root) pts)) in *.
  destruct (List.length allNodes =? 0)%nat; [injection H as <-; contradiction |].
  destruct (mapOutcome _ (filter notDone allNodes)) as [a | e] eqn:Ea;
    [| discriminate H].
  destruct (mapOutcome _ (filter isDone allNodes)) as [d | e] eqn:Ed;
    [| discriminate H].
  injection H as <-. cbn [shownRows] in Hr.
  apply mapOutcome_returned in Ea. apply mapOutcome_returned in Ed.
  assert (Hall : forall c, In c allNodes -> In c pts).
  { intros c Hc. unfold allNodes in Hc. rewrite sortBy_in in Hc.
    apply filter_In in Hc. apply Hc. }
  apply in_app_iff in Hr. destruct Hr as [Hr | Hr]; apply in_flat_map in Hr;
    destruct Hr as (r0 & Hr0 & Hin).
  - destruct (Forall2_image _ _ _ Ea r0 Hr0) as (c & Hc & Hrow). cbv beta in Hrow.
    destruct (renderProjectTree n pts (Some (Task.id c)) (S depth))
      as [sub | e] eqn:Es; [| discriminate Hrow].
    injection Hrow as <-. apply filter_In in Hc. destruct Hc as [Hc Hnd].
    destruct Hin as [<- | Hin].
    + simpl. rewrite Hnd. repeat split. now apply Hall.
    + eapply IH; eassumption.
  - destruct (Forall2_image _ _ _ Ed r0 Hr0) as (c & Hc & Hrow). cbv beta in Hrow.
    destruct (renderProjectTree n pts (Some (Task.id c)) (S depth))
      as [sub | e] eqn:Es; [| discriminate Hrow].
    injection Hrow as <-. apply filter_In in Hc. destruct Hc as [Hc Hd].
    destruct Hin as [<- | Hin].
    + simpl. rewrite notDone_isDone, Hd. repeat split. now apply Hall.
    + eapply IH; eassumption.
Qed.

End ProjectTreeFacts.

(** ** The Today panel *)

Lemma renderTodayTree_sound (today : list Task) (pid : string) (n : nat) :
  forall root depth v,
    renderTodayTree n today pid root depth = Returned v ->
    forall t, In t (listedTasks v) -> In t today /\ Task.projectId t = Some pid.
Proof.
  induction n as [| n IH]; intros root depth v H t Ht; [discriminate H |].
  cbn [renderTodayTree] in H.
  set (nodes := sortBy byOrder _) in *.
  destruct (List.length nodes =? 0)%nat; [injection H as <-; contradiction |].
  destruct (mapOutcome _ nodes) as [rows | e] eqn:Er; [| discriminate H].
  injection H as <-. cbn [listedTasks] in Ht.
  apply mapOutcome_returned in Er.
  apply in_flat_map in Ht. destruct Ht as (r & Hr & Hin).
  destruct (Forall2_image _ _ _ Er r Hr) as (c & Hc & Hrow). cbv beta in Hrow.
  destruct (renderTodayTree n today pid (Some (Task.id c)) (S depth))
    as [sub | e] eqn:Es; [| discriminate Hrow].
  injection Hrow as <-. destruct Hin as [<- | Hin].
  - simpl. unfold nodes in Hc. rewrite sortBy_in in Hc. apply filter_In in Hc.
    destruct Hc as [Hc Hf]. apply andb_true_iff in Hf. destruct Hf as [Hp _].
    apply optEqb_eq in Hp. auto.
  - eapply IH; eassumption.
Qed.

Lemma optEqb_refl (x : option string) : optEqb x x = true.
Proof. now apply optEqb_eq. Qed.

Lemma distinctFrom_in (xs : list (option string)) :
  forall seen x,
    In x (distinctFrom seen xs) <-> In x xs /\ existsb (optEqb x) seen = false.
Proof.
  induction xs as [| x0 xs IH]; intros seen x; simpl; [tauto |].
  destruct (existsb (optEqb x0) seen) eqn:E0.
  - rewrite IH. split; [tauto |]. intros [[<- | Hin] Hs]; [congruence | tauto].
  - simpl. rewrite IH. simpl.
    destruct (optEqb x x0) eqn:Ex; simpl.
    + apply optEqb_eq in Ex. subst x0. split; [| tauto].
      intros [_ | [_ Habs]]; [tauto | discriminate Habs].
    + split.
      * intros [-> | [Hin Hs]]; [rewrite optEqb_refl in Ex; discriminate Ex | tauto].
      * intros [[-> | Hin] Hs]; [rewrite optEqb_refl in Ex; discriminate Ex | tauto].
Qed.

(** X14: when the Today panel renders its groups, every task shown in a
    group is a task of the Today view that has a project.  A task of the
    Today view without a project is counted by the view and gives rise to the
    "No Project" group, but it is shown in no group. *)
Theorem todayPanel_hides_tasks_without_project
  (stack : nat) (projects : list Project) (tasks : list Task)
  (groups : list TodayGroup) :
  todayPanel stack projects tasks = Returned (Some groups) ->
  (forall g t, In g groups -> In t (listedTasks (groupTree g)) ->
     In t (todayTasks tasks) /\ Task.projectId t <> None) /\
  (forall t, In t (todayTasks tasks) -> Task.projectId t = None ->
     (exists g, In g groups /\ groupKey g = "no-project" /\
                groupTitle g = "No Project") /\
     forall g, In g groups -> ~ In t (listedTasks (groupTree g))).
Proof.
  intros H. unfold todayPanel in H.
  destruct (List.length (todayTasks tasks) =? 0)%nat; [discriminate H |].
  destruct (mapOutcome _ _) as [gs | e] eqn:Em; [| discriminate H].
  injection H as <-. apply mapOutcome_returned in Em.
  assert (Hshown : forall g t, In g gs -> In t (listedTasks (groupTree g)) ->
                     In t (todayTasks tasks) /\ Task.projectId t <> None).
  { intros g t Hg Ht.
    destruct (Forall2_image _ _ _ Em g Hg) as (pid & _ & Hrow). cbv beta zeta in Hrow.
    destruct (renderTodayTree stack (todayTasks tasks) _ None 0)
      as [tree | e] eqn:Et; [| discriminate Hrow].
    injection Hrow as <-. simpl in Ht.
    destruct (renderTodayTree_sound _ _ _ _ _ _ Et t Ht) as [Hin Hp].
    split; [exact Hin | congruence]. }
  split; [exact Hshown |].
  intros t Ht Hnone. split.
  - assert (Hin : In None (distinctFrom [] (map Task.projectId (todayTasks tasks)))).
    { apply distinctFrom_in. split; [| reflexivity].
      rewrite <- Hnone. now apply in_map. }
    destruct (Forall2_preimage _ _ _ Em None Hin) as (g & Hg & Hrow).
    cbv beta zeta in Hrow.
    destruct (renderTodayTree stack (todayTasks tasks) "" None 0)
      as [tree | e]; [| discriminate Hrow].
    injection Hrow as <-. exists (mkGroup "no-project" "No Project" tree). auto.
  - intros g Hg Hin. destruct (Hshown g t Hg Hin) as [_ Hp]. contradiction.
Qed.

Lemma todayPanel_hides_tasks_without_project_witness :
  exists groups,
    todayPanel 8 workProjects todayMix = Returned (Some groups) /\
    map groupKey groups = ["no-project"; "p-work"] /\
    map (fun g => map Task.id (listedTasks (groupTree g))) groups =
      [[]; ["w-1"; "w-2"]] /\
    List.length (todayTasks todayMix) = 4.
Proof.
  destruct (todayPanel 8 workProjects todayMix) as [[groups |] | e] eqn:E;
    [| vm_compute in E; discriminate E | vm_compute in E; discriminate E].
  exists groups. split; [reflexivity |].
  pose proof (todayPanel_hides_tasks_without_project 8 workProjects todayMix groups E)
    as [_ Hhidden].
  vm_compute in E. injection E as <-. repeat split.
Defined.

(** ** The mapper and the clock *)

Lemma mapTaskDoc_exact (nowAt : nat -> string) (id : string) (data : Doc) (clk : nat) :
  timestampsConvertible data ->
  let created := isoOf (getField "createdAt" data) in
  let updated := isoOf (getField "updatedAt" data) in
  let clk1 := match created with Some _ => clk | None => S clk end in
  let clk2 := match updated with Some _ => clk1 | None => S clk1 end in
  mapTaskDoc nowAt id data clk =
    Returned
      (MappedTask.mk id
         (coalesce (getField "text" data) (JsString ""))
         (coalesce (getField "projectId" data) JsNull)
         (coalesce (getField "parentId" data) JsNull)
         (coalesce (getField "state" data) (JsString "inbox"))
         (orElse created (nowAt clk)) (orElse updated (nowAt clk1))
         (isoOf (getField "dueAt" data))
         (isoOf (getField "scheduledAt" data))
         (isoOf (getField "doneAt" data))
         (numberOr0 (getField "order" data)),
       clk2).
Proof.
  intros H created updated clk1 clk2. unfold mapTaskDoc.
  rewrite (isoOrNow_convertible nowAt (getField "createdAt" data) clk)
    by (apply H; simpl; tauto).
  fold created. unfold clk2, clk1.
  destruct created as [c |];
    (rewrite isoOrNow_convertible by (apply H; simpl; tauto));
    fold updated; destruct updated as [u |];
    rewrite !toIsoString_convertible by (apply H; simpl; tauto);
    reflexivity.
Qed.

Section MapperClock.

Variable nowAt : nat -> string.

(** X15: a stored task record whose [createdAt] and [updatedAt] are usable
    (a non-empty string or a timestamp) is mapped without reading the clock,
    to the same record whenever it is mapped; each of the two that is
    missing, [null], empty or of another shape costs one reading of the
    clock and takes that reading as its value, [createdAt] first. *)
Theorem mapTaskDoc_reads_clock_for_missing_times
  (laterAt : nat -> string) (id : string) (data : Doc) (clk clk' : nat) :
  timestampsConvertible data ->
  exists m clk1,
    mapTaskDoc nowAt id data clk = Returned (m, clk1) /\
    clk <= clk1 <= clk + 2 /\
    (isoOf (getField "createdAt" data) = None ->
     MappedTask.createdAt m = nowAt clk /\ clk < clk1) /\
    (isoOf (getField "updatedAt" data) = None ->
     (MappedTask.updatedAt m = nowAt clk \/ MappedTask.updatedAt m = nowAt (S clk)) /\
     clk < clk1) /\
    (isoOf (getField "createdAt" data) <> None ->
     isoOf (getField "updatedAt" data) <> None ->
     clk1 = clk /\ mapTaskDoc laterAt id data clk' = Returned (m, clk')).
Proof.
  intros H.
  pose proof (mapTaskDoc_exact nowAt id data clk H) as E. cbv zeta in E.
  eexists _, _. split; [exact E |]. cbn [MappedTask.createdAt MappedTask.updatedAt].
  assert (Hlater : forall c u,
            isoOf (getField "createdAt" data) = Some c ->
            isoOf (getField "updatedAt" data) = Some u ->
            mapTaskDoc laterAt id data clk' =
              Returned
                (MappedTask.mk id
                   (coalesce (getField "text" data) (JsString ""))
                   (coalesce (getField "projectId" data) JsNull)
                   (coalesce (getField "parentId" data) JsNull)
                   (coalesce (getField "state" data) (JsString "inbox"))
                   c u
                   (isoOf (getField "dueAt" data))
                   (isoOf (getField "scheduledAt" data))
                   (isoOf (getField "doneAt" data))
                   (numberOr0 (getField "order" data)),
                 clk')).
  { intros c u Ec Eu. pose proof (mapTaskDoc_exact laterAt id data clk' H) as E'.
    cbv zeta in E'. rewrite Ec, Eu in E'. cbn [orElse] in E'. exact E'. }
  clear E.
  destruct (isoOf (getField "createdAt" data)) as [c |];
    destruct (isoOf (getField "updatedAt" data)) as [u |]; cbn [orElse].
  - split; [lia |]. split; [discriminate |]. split; [discriminate |].
    intros _ _. split; [reflexivity |]. now apply Hlater.
  - split; [lia |]. split; [discriminate |].
    split; [intros _; split; [auto | lia] |]. intros _ Hx. congruence.
  - split; [lia |]. split; [intros _; split; [reflexivity | lia] |].
    split; [discriminate |]. intros Hx. congruence.
  - split; [lia |]. split; [intros _; split; [reflexivity | lia] |].
    split; [intros _; split; [auto | lia] |]. intros Hx. congruence.
Qed.

End MapperClock.

Lemma mapTaskDoc_reads_clock_for_missing_times_witness :
  timestampsConvertible legacyTaskDoc /\
  exists m clk1,
    mapTaskDoc sampleClock "t-7" legacyTaskDoc 5 = Returned (m, clk1) /\
    MappedTask.createdAt m = "2025-12-01T08:00:00.000Z" /\
    MappedTask.updatedAt m = sampleClock 5 /\ clk1 = 6.
Proof.
  assert (Ht : timestampsConvertible legacyTaskDoc) by each_key.
  split; [exact Ht |].
  destruct (mapTaskDoc_reads_clock_for_missing_times sampleClock sampleClock "t-7"
              legacyTaskDoc 5 0 Ht) as (m & clk1 & E & _).
  exists m, clk1. split; [exact E |].
  vm_compute in E. injection E as <- <-. repeat split.
Defined.

(** ** Completion times on done tasks only *)

Section CleanFacts.

Variable nowAt : nat -> string.
Variable window_confirm : string -> bool.

(** X16: the handlers keep the collection clean: if only done tasks carry a
    completion time before quick-add, [updateTask] (on a patch whose state,
    if any, is not the empty string) or the project status handler runs,
    only done tasks carry one after it. *)
Theorem handlers_keep_clean
  (docId : string) (stack : nat) (id : string) (patch : Patch)
  (sel newState : string) (w : World) :
  clean (tasks w) -> Patch.state patch <> Some "" ->
  clean (tasks (addQuickTask nowAt docId w)) /\
  (forall w', updateTask nowAt window_confirm stack id patch w = Returned w' ->
              clean (tasks w')) /\
  clean (tasks (onProjectStatusChange nowAt window_confirm sel newState w)).
Proof.
  intros Hc Hne. split; [| split].
  - unfold addQuickTask. destruct (String.eqb (trim (quickText w)) ""); [exact Hc |].
    simpl. intros t Hin Hd. apply in_app_iff in Hin. destruct Hin as [Hin | Hin].
    + now apply Hc.
    + destruct Hin as [<- | []]. simpl in Hd. contradiction.
  - intros w' H t' Hin' Hd.
    destruct (optEqb (Patch.state patch) (Some "done")) eqn:Est.
    + apply optEqb_eq in Est.
      destruct (getDescendantTasks stack id (tasks w)) as [ds | e] eqn:Hds.
      2: { unfold updateTask in H. rewrite Est in H. simpl optEqb in H.
           rewrite Hds in H. discriminate H. }
      destruct (updateTask_done nowAt window_confirm stack id patch w ds Est Hds)
        as [Hno Hgo].
      set (n := List.length (filter notDone ds)) in *.
      assert (Hcases : w' = w \/
                exists next,
                  tasks w' = next /\
                  Forall2 (fun t t' => t' = t \/ Task.state t' = "done")
                    (tasks w) next).
      { destruct (Nat.eq_dec n 0) as [Hz | Hz];
          [| destruct (window_confirm (taskPrompt n)) eqn:Hcf].
        - right. destruct (Hgo (or_introl Hz)) as (next & clk & E & _ & HF).
          rewrite E in H. injection H as <-. exists next. split; [reflexivity |].
          eapply Forall2_impl; [| exact HF]. intros t t0 [Hin Hout].
          destruct (includes (id :: map Task.id ds) (Task.id t)).
          + right. destruct (Hin eq_refl) as (k & _ & _ & ->). reflexivity.
          + left. auto.
        - right. destruct (Hgo (or_intror eq_refl)) as (next & clk & E & _ & HF).
          rewrite E in H. injection H as <-. exists next. split; [reflexivity |].
          eapply Forall2_impl; [| exact HF]. intros t t0 [Hin Hout].
          destruct (includes (id :: map Task.id ds) (Task.id t)).
          + right. destruct (Hin eq_refl) as (k & _ & _ & ->). reflexivity.
          + left. auto.
        - left. rewrite Hno in H by (lia || reflexivity). now injection H as <-. }
      destruct Hcases as [-> | (next & En & HF)]; [now apply Hc |].
      rewrite En in Hin'.
      destruct (Forall2_image _ _ _ HF t' Hin') as (t & Ht & [-> | Hdone]);
        [now apply Hc | exact Hdone].
    + assert (Hp : Patch.state patch <> Some "done").
      { intros Hx. apply optEqb_eq in Hx. congruence. }
      destruct (updateTask_patch nowAt window_confirm stack id patch w Hp)
        as (next & clk & updates & E & _ & _ & _ & HF).
      rewrite E in H. injection H as <-. simpl in Hin'.
      destruct (Forall2_image _ _ _ HF t' Hin') as (t & Ht & Hin & Hout).
      destruct (String.eqb_spec (Task.id t) id) as [Et | Et].
      * destruct (Hin Et) as (k & _ & _ & ->). simpl in *.
        unfold stateGiven in Hd.
        destruct (Patch.state patch) as [s |] eqn:Eps; simpl in *.
        -- exfalso.
           destruct (String.eqb_spec s "") as [Es | Es];
             [apply Hne; now rewrite Es |].
           simpl in Hd.
           destruct (String.eqb_spec (Task.state t) "done") as [Ed | Ed];
             [now apply Hd |].
           apply Ed. now apply Hc.
        -- now apply Hc.
      * rewrite (Hout Et) in *. now apply Hc.
  - intros t' Hin' Hd.
    destruct (onProjectStatusChange_tasks nowAt window_confirm sel newState w)
      as [E | (clk & E)].
    + rewrite E in Hin'. now apply Hc.
    + destruct (mapTasks_spec _ (projectStep_mono nowAt sel) _ _ _ _ E) as [_ HF].
      destruct (Forall2_image _ _ _ HF t' Hin') as (t & Ht & c & _ & _ & Ec).
      destruct (projectStep_cases nowAt sel t c) as [Ek | (_ & _ & Ek)];
        rewrite Ek in Ec; subst t'.
      * now apply Hc.
      * reflexivity.
Qed.

End CleanFacts.

Lemma handlers_keep_clean_witness :
  clean (tasks tripWorld) /\
  clean (tasks (addQuickTask sampleClock "t-5" tripWorld)) /\
  exists w',
    updateTask sampleClock alwaysYes 8 "t-3" (Patch.ofState "active") tripWorld =
      Returned w' /\
    clean (tasks w').
Proof.
  assert (Hc : clean (tasks tripWorld)).
  { intros t Hin Hd. simpl in Hin.
    repeat (destruct Hin as [<- | Hin]; [try reflexivity; now elim Hd |]).
    contradiction. }
  split; [exact Hc |].
  destruct (handlers_keep_clean sampleClock alwaysYes "t-5" 8 "t-3"
              (Patch.ofState "active") "p-home" "done" tripWorld Hc)
    as (Ha & Hu & _); [discriminate |].
  split; [exact Ha |].
  destruct (updateTask sampleClock alwaysYes 8 "t-3" (Patch.ofState "active") tripWorld)
    as [w' | e] eqn:E; [| vm_compute in E; discriminate E].
  exists w'. split; [reflexivity | exact (Hu w' eq_refl)].
Defined.

(** ** Worked trees *)

Lemma workTasks_ranked : ranked workRank (projectTasks workTasks (Some "p-work")).
Proof. each_task. Qed.

Lemma renderProjectTree_shows_reachable_witness :
  let pts := projectTasks workTasks (Some "p-work") in
  ranked workRank pts /\ (forall t, In t pts -> workRank (Task.id t) < 2) /\
  exists v,
    renderProjectTree 3 pts None 0 = Returned v /\
    forall t, In t (shownTasks v) -> In t pts.
Proof.
  intros pts.
  assert (Hb : forall t, In t pts -> workRank (Task.id t) < 2).
  { intros t Hin. simpl in Hin.
    repeat (destruct Hin as [<- | Hin]; [vm_compute; lia |]). contradiction. }
  split; [exact workTasks_ranked |]. split; [exact Hb |].
  destruct (renderProjectTree_shows_reachable pts workRank 2 None 0
              workTasks_ranked Hb) as (v & Hv & _ & _ & Hin & _).
  exists v. split; [exact Hv | exact Hin].
Defined.

Example workTasks_tree :
  match renderProjectTree 3 (projectTasks workTasks (Some "p-work")) None 0 with
  | Returned (TreeLevel 0 activeRows (Some "Completed Tasks") doneRows) =>
      map (fun r => Task.id (rowTask r)) activeRows = ["w-1"] /\
      map (fun r => Task.id (rowTask r)) doneRows = ["w-3"] /\
      map (fun r => map Task.id (shownTasks (subtree r))) activeRows = [["w-2"]]
  | _ => False
  end.
Proof. repeat split. Qed.

Lemma renderProjectTree_buttons_witness :
  exists v,
    renderProjectTree 3 (projectTasks workTasks (Some "p-work")) None 0 = Returned v /\
    forall r, In r (shownRows v) -> doneButton r = notDone (rowTask r).
Proof.
  destruct (renderProjectTree 3 (projectTasks workTasks (Some "p-work")) None 0)
    as [v | e] eqn:E; [| vm_compute in E; discriminate E].
  exists v. split; [reflexivity |]. intros r Hr.
  apply (renderProjectTree_buttons _ 3 None 0 v E r Hr).
Defined.

(** ** Loading the collections *)

Lemma toIsoString_thrown (v : JsValue) (e : JsError) :
  toIsoString v = Thrown e -> e = toDateError.
Proof.
  intros H. assert (Hc : convertible v = false).
  { apply toIsoString_throws_iff. eauto. }
  rewrite (toIsoString_inconvertible v Hc) in H. now injection H as <-.
Qed.

Lemma taskDocOk_spec (d : string * Doc) :
  taskDocOk d = true <-> timestampsConvertible (snd d).
Proof.
  unfold taskDocOk, timestampsConvertible. rewrite forallb_forall. reflexivity.
Qed.

Section LoadFacts.

Variable nowAt : nat -> string.

Lemma mapTaskDoc_thrown (id : string) (data : Doc) (clk : nat) (e : JsError) :
  mapTaskDoc nowAt id data clk = Thrown e -> e = toDateError.
Proof.
  unfold mapTaskDoc, isoOrNow. intros H.
  destruct (toIsoString (getField "createdAt" data)) as [[c |] | e1] eqn:E1;
    try (injection H as <-; exact (toIsoString_thrown _ _ E1));
    (destruct (toIsoString (getField "updatedAt" data)) as [[u |] | e2] eqn:E2;
     try (injection H as <-; exact (toIsoString_thrown _ _ E2));
     (destruct (toIsoString (getField "dueAt" data)) as [du | e3] eqn:E3;
      try (injection H as <-; exact (toIsoString_thrown _ _ E3));
      (destruct (toIsoString (getField "scheduledAt" data)) as [sc | e4] eqn:E4;
       try (injection H as <-; exact (toIsoString_thrown _ _ E4));
       (destruct (toIsoString (getField "doneAt" data)) as [dn | e5] eqn:E5;
        try (injection H as <-; exact (toIsoString_thrown _ _ E5));
        discriminate H)))).
Qed.

Lemma mapTaskDoc_outcome (d : string * Doc) (clk : nat) :
  if taskDocOk d
  then exists m clk', mapTaskDoc nowAt (fst d) (snd d) clk = Returned (m, clk') /\
                      MappedTask.id m = fst d
  else mapTaskDoc nowAt (fst d) (snd d) clk = Thrown toDateError.
Proof.
  destruct (taskDocOk d) eqn:Eok.
  - apply taskDocOk_spec in Eok.
    destruct (mapTaskDoc_returns nowAt (fst d) (snd d) clk Eok) as (c & u & clk' & E).
    eexists _, clk'. split; [exact E | reflexivity].
  - destruct (mapTaskDoc nowAt (fst d) (snd d) clk) as [[m clk'] | e] eqn:E.
    + exfalso.
      assert (Hbad : exists k, In k timestampKeys /\
                               convertible (getField k (snd d)) = false).
      { unfold taskDocOk in Eok.
        destruct (forallb_forall
                    (fun k => convertible (getField k (snd d))) timestampKeys)
          as [_ Hall].
        destruct (existsb (fun k => negb (convertible (getField k (snd d))))
                    timestampKeys) eqn:Eex.
        - apply existsb_exists in Eex. destruct Eex as (k & Hk & Hn).
          exists k. split; [exact Hk |]. now apply negb_true_iff in Hn.
        - rewrite Hall in Eok; [discriminate Eok |].
          intros k Hk. destruct (convertible (getField k (snd d))) eqn:Ek;
            [reflexivity |].
          assert (Hx : existsb (fun k => negb (convertible (getField k (snd d))))
                         timestampKeys = true).
          { apply existsb_exists. exists k. split; [exact Hk |]. now rewrite Ek. }
          congruence. }
      apply (mapTaskDoc_throws_iff nowAt (fst d) (snd d) clk) in Hbad.
      destruct Hbad as [e He]. congruence.
    + now rewrite (mapTaskDoc_thrown _ _ _ _ E).
Qed.

Lemma mapProjectDoc_outcome (d : string * Doc) (clk : nat) :
  if projectDocOk d
  then exists m clk', mapProjectDoc nowAt (fst d) (snd d) clk = Returned (m, clk') /\
                      MappedProject.id m = fst d
  else mapProjectDoc nowAt (fst d) (snd d) clk = Thrown toDateError.
Proof.
  unfold projectDocOk. destruct (convertible (getField "createdAt" (snd d))) eqn:Eok.
  - destruct (mapProjectDoc_returns nowAt (fst d) (snd d) clk Eok) as (c & clk' & E).
    eexists _, clk'. split; [exact E | reflexivity].
  - unfold mapProjectDoc, isoOrNow. now rewrite (toIsoString_inconvertible _ Eok).
Qed.

Lemma mapDocs_outcome {M : Type}
  (mapper : string -> Doc -> nat -> Outcome (M * nat))
  (ok : string * Doc -> bool) (idOf : M -> string) :
  (forall d clk,
     if ok d
     then exists m clk', mapper (fst d) (snd d) clk = Returned (m, clk') /\
                         idOf m = fst d
     else mapper (fst d) (snd d) clk = Thrown toDateError) ->
  forall docs clk,
    if forallb ok docs
    then exists ms clk', mapDocs mapper docs clk = Returned (ms, clk') /\
                         map idOf ms = map fst docs
    else mapDocs mapper docs clk = Thrown toDateError.
Proof.
  intros Hm. induction docs as [| d docs IH]; intros clk; simpl.
  - eauto.
  - destruct d as [id data]. specialize (Hm (id, data) clk). simpl in Hm.
    destruct (ok (id, data)); simpl.
    + destruct Hm as (m & clk1 & -> & Hid). specialize (IH clk1).
      destruct (forallb ok docs).
      * destruct IH as (ms & clk2 & -> & Hids). eexists _, _.
        split; [reflexivity |]. simpl. now rewrite Hid, Hids.
      * now rewrite IH.
    + now rewrite Hm.
Qed.

(** X17: loading is all or nothing.  If the component was unmounted nothing
    is mapped and nothing is set.  Otherwise, if one stored project or task
    has a timestamp member that cannot be converted, the load throws and
    sets neither collection; if none has, each collection is set on its own
    account, to the seed when its query returned no document and else to the
    mapped documents, one per stored document, in the order and with the ids
    of the query. *)
Theorem loadData_all_or_nothing
  (projectDocs taskDocs : list (string * Doc)) (clk : nat) :
  loadData nowAt false projectDocs taskDocs clk = Returned (None, clk) /\
  (forallb projectDocOk projectDocs && forallb taskDocOk taskDocs = false ->
   loadData nowAt true projectDocs taskDocs clk = Thrown toDateError) /\
  (forallb projectDocOk projectDocs && forallb taskDocOk taskDocs = true ->
   exists ps ts clk',
     loadData nowAt true projectDocs taskDocs clk = Returned (Some (ps, ts), clk') /\
     (projectDocs = [] -> ps = inr (seedProjects nowAt)) /\
     (projectDocs <> [] ->
      exists ms, ps = inl ms /\ map MappedProject.id ms = map fst projectDocs) /\
     (taskDocs = [] -> ts = inr (seedTasks nowAt)) /\
     (taskDocs <> [] ->
      exists ms, ts = inl ms /\ map MappedTask.id ms = map fst taskDocs)).
Proof.
  split; [reflexivity |].
  pose proof (mapDocs_outcome (mapProjectDoc nowAt) projectDocOk MappedProject.id
                mapProjectDoc_outcome projectDocs clk) as Hp.
  unfold loadData. simpl negb. cbv iota.
  destruct (forallb projectDocOk projectDocs).
  - destruct Hp as (ps & clk1 & -> & Hpid).
    pose proof (mapDocs_outcome (mapTaskDoc nowAt) taskDocOk MappedTask.id
                  mapTaskDoc_outcome taskDocs clk1) as Ht.
    destruct (forallb taskDocOk taskDocs).
    + destruct Ht as (ts & clk2 & -> & Htid). split; [discriminate |].
      intros _. eexists _, _, _. split; [reflexivity |].
      assert (Hlen : forall (A B : Type) (f : A -> string) (g : B -> string)
                            (xs : list A) (ys : list B),
                 map f xs = map g ys ->
                 (ys = [] -> (List.length xs =? 0)%nat = true) /\
                 (ys <> [] -> (List.length xs =? 0)%nat = false)).
      { intros A B f g xs ys E. destruct xs, ys; simpl in *; try discriminate;
          split; congruence. }
      destruct (Hlen _ _ _ _ _ _ Hpid) as [Hp0 Hp1].
      destruct (Hlen _ _ _ _ _ _ Htid) as [Ht0 Ht1].
      split; [intros E; now rewrite (Hp0 E) |].
      split; [intros E; rewrite (Hp1 E); eauto |].
      split; [intros E; now rewrite (Ht0 E) |].
      intros E. rewrite (Ht1 E). eauto.
    + rewrite Ht. split; [reflexivity | discriminate].
  - rewrite Hp. split; [reflexivity | discriminate].
Qed.

End LoadFacts.

Lemma loadData_all_or_nothing_witness :
  (forallb projectDocOk [] && forallb taskDocOk [("t-9", toDateMapDoc)] = false /\
   loadData sampleClock true [] [("t-9", toDateMapDoc)] 0 = Thrown toDateError) /\
  (forallb projectDocOk [] && forallb taskDocOk [("t-7", legacyTaskDoc)] = true /\
   exists ms clk',
     loadData sampleClock true [] [("t-7", legacyTaskDoc)] 0 =
       Returned (Some (inr (seedProjects sampleClock), inl ms), clk') /\
     map MappedTask.id ms = ["t-7"]).
Proof.
  split.
  - split; [reflexivity |].
    destruct (loadData_all_or_nothing sampleClock [] [("t-9", toDateMapDoc)] 0)
      as (_ & Hbad & _).
    exact (Hbad eq_refl).
  - split; [reflexivity |].
    destruct (loadData_all_or_nothing sampleClock [] [("t-7", legacyTaskDoc)] 0)
      as (_ & _ & Hok).
    destruct (Hok eq_refl) as (ps & ts & clk' & E & Hp & _ & _ & Ht).
    rewrite (Hp eq_refl) in E.
    destruct Ht as (ms & -> & Hids); [discriminate |].
    exists ms, clk'. split; [exact E | exact Hids].
Defined.

(** ** The earlier version of the component *)

Lemma lookupField_setField (k : string) (v : FieldValue) (fs : Fields) :
  lookupField k (setField k v fs) = Some v.
Proof.
  induction fs as [| [k' v'] fs IH]; simpl.
  - now rewrite String.eqb_refl.
  - destruct (String.eqb k k') eqn:E; simpl.
    + now rewrite String.eqb_refl.
    + now rewrite E.
Qed.

Lemma lookupField_setField_other (k k' : string) (v : FieldValue) (fs : Fields) :
  String.eqb k k' = false ->
  lookupField k (setField k' v fs) = lookupField k fs.
Proof.
  intros Hkk. induction fs as [| [k0 v0] fs IH]; simpl.
  - now rewrite Hkk.
  - destruct (String.eqb k' k0) eqn:E; simpl.
    + apply String.eqb_eq in E. subst k0. now rewrite Hkk.
    + destruct (String.eqb k k0); [reflexivity | exact IH].
Qed.

Section LegacyFacts.

Variable nowAt : nat -> string.

Lemma legacy_patchStep_mono (id : string) (patch : Patch) (t : Task) (c : nat) :
  c <= snd (Legacy.patchStep nowAt id patch t c).
Proof.
  unfold Legacy.patchStep. destruct (negb _); simpl; [lia |].
  destruct (optEqb _ _); simpl; [lia |].
  destruct (_ && _); simpl; lia.
Qed.

(** X18: the earlier [updateTask] never cascades and never asks: it returns
    with every task but those with the given id as it was, whatever the
    patch.  Setting [done] stamps the task with a clock reading and writes a
    server time remotely; setting another state clears the completion time
    of a done task and writes [null] remotely; the local collection is
    replaced before the one remote write; a stamped collection stays
    stamped. *)
Theorem legacy_updateTask_touches_one_task (id : string) (patch : Patch) (w : World) :
  let w' := Legacy.updateTask nowAt id patch w in
  Forall2
    (fun t t' =>
       (Task.id t <> id -> t' = t) /\
       (Task.id t = id ->
        (Patch.state patch = Some "done" ->
         exists k, clock w <= k /\ S k < clock w' /\
                   t' = spreadPatch t patch (Some (nowAt k)) (nowAt (S k))) /\
        (Patch.state patch <> Some "done" ->
         exists k, clock w <= k /\ k < clock w' /\
                   t' = spreadPatch t patch
                          (if stateGiven patch && String.eqb (Task.state t) "done"
                           then None else Task.doneAt t)
                          (nowAt k))))
    (tasks w) (tasks w') /\
  projects w' = projects w /\
  (exists updates,
     log w' = log w ++ [SetTasks (tasks w'); UpdateDocs [mkWrite "tasks" id updates]] /\
     lookupField "updatedAt" updates = Some FServerTimestamp /\
     (Patch.state patch = Some "done" ->
      lookupField "doneAt" updates = Some FServerTimestamp) /\
     (Patch.state patch <> Some "done" -> stateGiven patch = true ->
      lookupField "doneAt" updates = Some FNull)) /\
  (stamped (tasks w) -> stamped (tasks w')).
Proof.
  intros w'. unfold w', Legacy.updateTask.
  destruct (mapTasks (Legacy.patchStep nowAt id patch) (tasks w) (clock w))
    as [next clk] eqn:Em.
  cbn [tasks projects log clock].
  destruct (mapTasks_spec _ (legacy_patchStep_mono id patch) _ _ _ _ Em) as [Hle HF].
  assert (HF' :
    Forall2
      (fun t t' =>
         (Task.id t <> id -> t' = t) /\
         (Task.id t = id ->
          (Patch.state patch = Some "done" ->
           exists k, clock w <= k /\ S k < clk /\
                     t' = spreadPatch t patch (Some (nowAt k)) (nowAt (S k))) /\
          (Patch.state patch <> Some "done" ->
           exists k, clock w <= k /\ k < clk /\
                     t' = spreadPatch t patch
                            (if stateGiven patch && String.eqb (Task.state t) "done"
                             then None else Task.doneAt t)
                            (nowAt k))))
      (tasks w) next).
  { eapply Forall2_impl; [| exact HF].
    intros t t' (c & Hc1 & Hc2 & ->). unfold Legacy.patchStep in *.
    destruct (String.eqb_spec (Task.id t) id) as [E | E]; simpl in *.
    - split; [contradiction |]. intros _.
      destruct (optEqb (Patch.state patch) (Some "done")) eqn:Est.
      + apply optEqb_eq in Est. simpl in *. split.
        * intros _. exists c. repeat split; lia.
        * intros Hx. contradiction.
      + assert (Hp : Patch.state patch <> Some "done").
        { intros Hx. apply optEqb_eq in Hx. congruence. }
        split; [intros Hx; contradiction |]. intros _.
        destruct (stateGiven patch && String.eqb (Task.state t) "done");
          simpl in *; exists c; repeat split; lia.
    - split; [reflexivity | contradiction]. }
  split; [exact HF' |]. split; [reflexivity |]. split.
  - eexists. split; [reflexivity |].
    destruct (optEqb (Patch.state patch) (Some "done")) eqn:Est.
    + apply optEqb_eq in Est.
      split; [rewrite lookupField_setField_other by reflexivity;
              apply lookupField_setField |].
      split; [intros _; apply lookupField_setField | intros Hx; contradiction].
    + assert (Hp : Patch.state patch <> Some "done").
      { intros Hx. apply optEqb_eq in Hx. congruence. }
      destruct (stateGiven patch) eqn:Eg.
      * split; [rewrite lookupField_setField_other by reflexivity;
                apply lookupField_setField |].
        split; [intros Hx; contradiction | intros _ _; apply lookupField_setField].
      * split; [apply lookupField_setField |].
        split; [intros Hx; contradiction | discriminate].
  - intros Hs t' Hin' Hd.
    destruct (Forall2_image _ _ _ HF' t' Hin') as (t & Ht & Hout & Hin).
    destruct (String.eqb_spec (Task.id t) id) as [E | E].
    + destruct (Hin E) as [Hdone Hother].
      destruct (optEqb (Patch.state patch) (Some "done")) eqn:Est.
      * apply optEqb_eq in Est. destruct (Hdone Est) as (k & _ & _ & ->).
        discriminate.
      * assert (Hp : Patch.state patch <> Some "done").
        { intros Hx. apply optEqb_eq in Hx. congruence. }
        destruct (Hother Hp) as (k & _ & _ & ->). simpl in *.
        unfold stateGiven. destruct (Patch.state patch) as [s |] eqn:Eps.
        -- simpl in Hd. subst s. contradiction.
        -- simpl in *. apply (Hs t Ht Hd).
    + rewrite (Hout E) in *. now apply Hs.
Qed.

End LegacyFacts.

(** X19: the Today view by date holds exactly the tasks scheduled for the
    given day that are not done, in ascending sort order, so a done task and
    a task without a schedule never appear in it. *)
Theorem legacy_todayTasks_spec (today : string) (tasks : list Task) :
  (forall t, In t (Legacy.todayTasks today tasks) <->
             In t tasks /\ Task.scheduledAt t = Some today /\
             Task.state t <> "done") /\
  Permutation (Legacy.todayTasks today tasks)
    (filter
       (fun task =>
          optEqb (Task.scheduledAt task) (Some today)
          && negb (String.eqb (Task.state task) "done"))
       tasks) /\
  StronglySorted ascending (Legacy.todayTasks today tasks) /\
  (forall t, In t (Legacy.todayTasks today tasks) ->
             Task.state t <> "done" /\ Task.scheduledAt t <> None).
Proof.
  unfold Legacy.todayTasks.
  assert (Hin : forall t,
            In t (sortBy byOrder
                    (filter
                       (fun task =>
                          optEqb (Task.scheduledAt task) (Some today)
                          && negb (String.eqb (Task.state task) "done"))
                       tasks)) <->
            In t tasks /\ Task.scheduledAt t = Some today /\ Task.state t <> "done").
  { intros t. rewrite sortBy_in, filter_In, andb_true_iff, negb_true_iff.
    rewrite optEqb_eq, String.eqb_neq. tauto. }
  split; [exact Hin |]. split; [apply sortBy_perm |]. split; [apply sortBy_sorted |].
  intros t Ht. apply Hin in Ht. destruct Ht as (_ & Hs & Hd).
  split; [exact Hd | congruence].
Qed.

(** ** The earlier project tree *)

Lemma legacy_kids_spec (pts : list Task) (r : option string) (c : Task) :
  In c (Legacy.kids pts r) <-> In c pts /\ Task.parentId c = r.
Proof.
  unfold Legacy.kids. rewrite sortBy_in, filter_In, optEqb_eq. reflexivity.
Qed.

Section LegacyTreeFacts.

Variable pts : list Task.

Lemma legacy_render_walk (n : nat) :
  forall root depth v,
    Legacy.renderProjectTree n pts root depth = Returned v ->
    walk (Legacy.kids pts) n root = Returned (listedTasks v).
Proof.
  induction n as [| n IH]; intros root depth v H; [discriminate H |].
  cbn [Legacy.renderProjectTree] in H. apply walk_unfold. unfold Legacy.kids.
  set (nodes := sortBy byOrder
                  (filter (fun task => optEqb (Task.parentId task) root) pts)) in *.
  destruct (List.length nodes =? 0)%nat eqn:El.
  - injection H as <-. rewrite (length_zero_nil _ El). exists [].
    split; [constructor | reflexivity].
  - destruct (mapOutcome _ nodes) as [rows | e] eqn:Er; [| discriminate H].
    injection H as <-. apply mapOutcome_returned in Er.
    exists (map listedRow rows). split.
    + apply Forall2_map_right.
      eapply Forall2_impl; [| exact Er]. intros c r Hr. cbv beta in Hr.
      destruct (Legacy.renderProjectTree n pts (Some (Task.id c)) (S depth))
        as [sub | e] eqn:Es; [| discriminate Hr].
      injection Hr as <-. exists (listedTasks sub).
      split; [eapply IH; exact Es | reflexivity].
    + cbn [listedTasks]. rewrite flat_map_concat_map. reflexivity.
Qed.

Lemma walk_legacy_render (n : nat) :
  forall root l,
    walk (Legacy.kids pts) n root = Returned l ->
    forall depth, exists v, Legacy.renderProjectTree n pts root depth = Returned v.
Proof.
  induction n as [| n IH]; intros root l H depth; [discriminate H |].
  apply walk_unfold in H. destruct H as (parts & HF & _).
  cbn [Legacy.renderProjectTree]. unfold Legacy.kids in HF.
  set (nodes := sortBy byOrder
                  (filter (fun task => optEqb (Task.parentId task) root) pts)) in *.
  destruct (List.length nodes =? 0)%nat; [eauto |].
  destruct (Forall2_pick
              (fun task r =>
                 match Legacy.renderProjectTree n pts (Some (Task.id task)) (S depth) with
                 | Thrown e => Thrown e
                 | Returned sub => Returned (mkRow task false false sub)
                 end = Returned r)
              nodes) as [rows Hrows].
  { intros c Hc. destruct (Forall2_preimage _ _ _ HF c Hc) as (p & _ & below & Hb & _).
    destruct (IH _ _ Hb (S depth)) as [sub ->]. eauto. }
  apply mapOutcome_returned in Hrows. rewrite Hrows. eauto.
Qed.

(** Every level of the tree is the sorted list of the children of one
    parent, the outermost level that of the root, and the tasks listed are
    the tasks of the levels. *)
Lemma legacy_render_levels (n : nat) :
  forall root depth v,
    Legacy.renderProjectTree n pts root depth = Returned v ->
    hd [] (listLevels v) = Legacy.kids pts root /\
    (forall level, In level (listLevels v) ->
                   level <> [] /\ exists r, level = Legacy.kids pts r) /\
    (forall t, In t (listedTasks v) <->
               exists level, In level (listLevels v) /\ In t level).
Proof.
  induction n as [| n IH]; intros root depth v H; [discriminate H |].
  cbn [Legacy.renderProjectTree] in H. unfold Legacy.kids at 1.
  set (nodes := sortBy byOrder
                  (filter (fun task => optEqb (Task.parentId task) root) pts)) in *.
  destruct (List.length nodes =? 0)%nat eqn:El.
  - injection H as <-. rewrite (length_zero_nil _ El). cbn [listLevels listedTasks hd].
    split; [reflexivity |]. split; [intros level [] |].
    intros t. split; [intros [] | intros (level & [] & _)].
  - destruct (mapOutcome _ nodes) as [rows | e] eqn:Er; [| discriminate H].
    injection H as <-. apply mapOutcome_returned in Er.
    assert (Hrows : Forall2
              (fun c r => rowTask r = c /\
                          Legacy.renderProjectTree n pts (Some (Task.id c)) (S depth)
                            = Returned (subtree r))
              nodes rows).
    { eapply Forall2_impl; [| exact Er]. intros c r Hr. cbv beta in Hr.
      destruct (Legacy.renderProjectTree n pts (Some (Task.id c)) (S depth))
        as [sub | e] eqn:Es; [| discriminate Hr].
      injection Hr as <-. split; reflexivity. }
    assert (Htop : map rowTask rows = nodes).
    { clear - Hrows. induction Hrows as [| c r cs rs [Hc _] _ IHr]; simpl;
        [reflexivity | congruence]. }
    assert (Hsub : forall r, In r rows ->
              exists c, In c nodes /\
                Legacy.renderProjectTree n pts (Some (Task.id c)) (S depth)
                  = Returned (subtree r)).
    { intros r Hr. destruct (Forall2_image _ _ _ Hrows r Hr) as (c & Hc & _ & Hs).
      eauto. }
    cbn [listLevels listedTasks hd]. split; [exact Htop |]. split.
    + intros level [<- | Hl].
      * rewrite Htop. split.
        -- intros E. rewrite E in El. discriminate El.
        -- exists root. reflexivity.
      * apply in_flat_map in Hl. destruct Hl as (r & Hr & Hl).
        destruct (Hsub r Hr) as (c & _ & Hs).
        destruct (IH _ _ _ Hs) as (_ & Hlev & _). exact (Hlev level Hl).
    + intros t. rewrite in_flat_map. split.
      * intros (r & Hr & [<- | Ht]).
        -- exists (map rowTask rows). split; [now left | now apply in_map].
        -- destruct (Hsub r Hr) as (c & _ & Hs).
           destruct (IH _ _ _ Hs) as (_ & _ & Hlist).
           apply Hlist in Ht. destruct Ht as (level & Hl & Ht).
           exists level. split; [| exact Ht]. right.
           apply in_flat_map. eauto.
      * intros (level & [<- | Hl] & Ht).
        -- apply in_map_iff in Ht. destruct Ht as (r & <- & Hr).
           exists r. split; [exact Hr | now left].
        -- apply in_flat_map in Hl. destruct Hl as (r & Hr & Hl).
           exists r. split; [exact Hr |]. right.
           destruct (Hsub r Hr) as (c & _ & Hs).
           destruct (IH _ _ _ Hs) as (_ & _ & Hlist).
           apply Hlist. eauto.
Qed.

(** X20: on a forest, the earlier [renderProjectTree] returns a tree that
    lists exactly the tasks of the list that hang from the root by parent
    links through tasks of the list; a task whose parent is not in the list
    is not listed.  Every level of the tree is in ascending sort order, tasks
    of equal order in the sequence of the list: it holds the children in the
    list of one parent, the outermost level those of the root, and the tasks
    listed are the tasks of the levels. *)
Theorem legacy_renderProjectTree_lists_reachable
  (rank : string -> nat) (n : nat) (root : option string) (depth : nat) :
  ranked rank pts -> (forall t, In t pts -> rank (Task.id t) < n) ->
  exists v,
    Legacy.renderProjectTree (S n) pts root depth = Returned v /\
    (forall t, In t (listedTasks v) <-> reached (Legacy.kids pts) root t) /\
    (forall r c, In c (Legacy.kids pts r) <-> In c pts /\ Task.parentId c = r) /\
    (forall level, In level (listLevels v) ->
       StronglySorted ascending level /\
       exists r,
         Permutation level
           (filter (fun task => optEqb (Task.parentId task) r) pts) /\
         forall k,
           filter (fun t => Z.eqb (Task.order t) k) level =
           filter (fun t => Z.eqb (Task.order t) k)
             (filter (fun task => optEqb (Task.parentId task) r) pts)) /\
    Permutation (hd [] (listLevels v))
      (filter (fun task => optEqb (Task.parentId task) root) pts) /\
    (forall t, In t (listedTasks v) <->
               exists level, In level (listLevels v) /\ In t level) /\
    (root = None ->
     forall t p, Task.parentId t = Some p ->
                 (forall c, In c pts -> Task.id c <> p) ->
                 ~ In t (listedTasks v)).
Proof.
  intros Hr Hbound.
  destruct (walk_returns (Legacy.kids pts) rank) with (n := n) (root := root)
    as [l Hl].
  { intros p c Hc. apply legacy_kids_spec in Hc. destruct Hc as [Hin Hp].
    exact (Hr c p Hin Hp). }
  { intros c Hc. apply legacy_kids_spec in Hc. apply Hbound. apply Hc. }
  destruct (walk_legacy_render (S n) root l Hl depth) as [v Hv].
  exists v. split; [exact Hv |].
  pose proof (legacy_render_walk (S n) root depth v Hv) as Hw.
  pose proof (walk_spec (Legacy.kids pts) (S n) root _ Hw) as Hspec.
  destruct (legacy_render_levels (S n) root depth v Hv) as (Htop & Hlev & Hlist).
  split; [exact Hspec |]. split; [intros r c; apply legacy_kids_spec |].
  split.
  { intros level Hin. destruct (Hlev level Hin) as (_ & r & ->).
    split; [apply sortBy_sorted |]. exists r.
    split; [apply sortBy_perm | intros k; apply sortBy_stable]. }
  split; [rewrite Htop; apply sortBy_perm |].
  split; [exact Hlist |].
  intros -> t p Hp Hmissing Ht. apply Hspec in Ht.
  assert (Hreach : forall x, reached (Legacy.kids pts) None x -> In x pts).
  { intros x Hx. destruct Hx as [c Hc | c y _ Hy]; eapply legacy_kids_spec; eassumption. }
  destruct Ht as [c Hc | c x Hc Hx].
  - apply legacy_kids_spec in Hc. destruct Hc as [_ Hc]. congruence.
  - apply legacy_kids_spec in Hx. destruct Hx as [_ Hx].
    apply (Hmissing c); [now apply Hreach | congruence].
Qed.

End LegacyTreeFacts.

Lemma legacy_renderProjectTree_lists_reachable_witness :
  let pts := projectTasks workTasks (Some "p-work") in
  ranked workRank pts /\ (forall t, In t pts -> workRank (Task.id t) < 2) /\
  exists v,
    Legacy.renderProjectTree 3 pts None 0 = Returned v /\
    map Task.id (listedTasks v) = ["w-1"; "w-2"; "w-3"] /\
    map (map Task.id) (listLevels v) = [["w-1"; "w-3"]; ["w-2"]] /\
    Forall (StronglySorted ascending) (listLevels v).
Proof.
  intros pts.
  assert (Hb : forall t, In t pts -> workRank (Task.id t) < 2).
  { intros t Hin. simpl in Hin.
    repeat (destruct Hin as [<- | Hin]; [vm_compute; lia |]). contradiction. }
  split; [exact workTasks_ranked |]. split; [exact Hb |].
  destruct (legacy_renderProjectTree_lists_reachable pts workRank 2 None 0
              workTasks_ranked Hb) as (v & Hv & _ & _ & Hsorted & _).
  exists v. split; [exact Hv |].
  split; [| split].
  - vm_compute in Hv. injection Hv as <-. reflexivity.
  - vm_compute in Hv. injection Hv as <-. reflexivity.
  - apply Forall_forall. intros level Hin. exact (proj1 (Hsorted level Hin)).
Defined.

(** ** The project list and the New Project form *)

Lemma fold_max_ge (projects : list Project) :
  forall m,
    (m <= fold_left (fun max p => Z.max max (Project.order p)) projects m)%Z /\
    (forall p, In p projects ->
       (Project.order p <=
        fold_left (fun max p => Z.max max (Project.order p)) projects m)%Z).
Proof.
  induction projects as [| q projects IH]; intros m; simpl.
  - split; [lia | contradiction].
  - destruct (IH (Z.max m (Project.order q))) as [H1 H2]. split; [lia |].
    intros p [<- | Hp]; [lia | now apply H2].
Qed.

Lemma fold_max_in (projects : list Project) :
  forall m,
    fold_left (fun max p => Z.max max (Project.order p)) projects m = m \/
    exists p,
      In p projects /\
      Project.order p =
        fold_left (fun max p => Z.max max (Project.order p)) projects m.
Proof.
  induction projects as [| q projects IH]; intros m; simpl; [now left |].
  destruct (IH (Z.max m (Project.order q))) as [H | (p & Hp & H)].
  - rewrite H.
    destruct (Z.max_spec m (Project.order q)) as [[_ E] | [_ E]]; rewrite E.
    + right. exists q. split; [now left | reflexivity].
    + now left.
  - right. exists p. split; [now right | exact H].
Qed.

(** X21: the New Project form inserts nothing for a name that is empty or
    consists of white space only; otherwise it inserts an active project
    under the trimmed name, whose order is the sum, as a double, of 10 and
    the largest of 0 and the orders of the projects of the list.  When that
    sum is a safe integer the order is at least 10 and at least 10 above the
    order of every project of the list, so that the new project sorts after
    all of them. *)
Theorem newProjectDoc_orders_last (newProjectName : string) (projects : list Project) :
  (allWhite newProjectName -> newProjectDoc newProjectName projects = None) /\
  (~ allWhite newProjectName ->
   exists name order top,
     newProjectDoc newProjectName projects =
       Some [("name", FString name); ("state", FString "active");
             ("order", FNumber order); ("createdAt", FServerTimestamp)] /\
     trimmedOf newProjectName name /\
     (forall t, trimmedOf newProjectName t -> t = name) /\
     name = trim newProjectName /\ name <> "" /\
     (0 <= top)%Z /\
     (forall p, In p projects -> (Project.order p <= top)%Z) /\
     (top = 0%Z \/ exists p, In p projects /\ Project.order p = top) /\
     order = numAdd top 10 /\
     (safeInteger (top + 10) ->
      order = (top + 10)%Z /\ (10 <= order)%Z /\
      forall p, In p projects -> (Project.order p + 10 <= order)%Z)).
Proof.
  unfold newProjectDoc. split.
  - intros Hb. apply trim_empty_iff in Hb. now rewrite Hb.
  - intros Hb. destruct (String.eqb_spec (trim newProjectName) "") as [E | E].
    + apply trim_empty_iff in E. contradiction.
    + exists (trim newProjectName), (nextProjectOrder projects),
        (fold_left (fun max p => Z.max max (Project.order p)) projects 0%Z).
      destruct (fold_max_ge projects 0) as [H1 H2].
      split; [reflexivity |]. split; [apply trim_spec |].
      split; [apply trimmedOf_unique |].
      split; [reflexivity |]. split; [exact E |]. split; [exact H1 |].
      split; [exact H2 |]. split; [apply fold_max_in |].
      split; [reflexivity |].
      intros Hsafe. unfold nextProjectOrder. rewrite (numAdd_safe _ _ Hsafe).
      split; [reflexivity |]. split; [lia |].
      intros p Hp. specialize (H2 p Hp). lia.
Qed.

Lemma newProjectDoc_orders_last_witness :
  ~ allWhite "  Garden " /\
  newProjectDoc "  Garden " workProjects =
    Some [("name", FString "Garden"); ("state", FString "active");
          ("order", FNumber 30); ("createdAt", FServerTimestamp)] /\
  allWhite "   " /\ newProjectDoc "   " workProjects = None /\
  allWhite (utf8 12288) /\ newProjectDoc (utf8 12288) workProjects = None.
Proof.
  assert (H1 : ~ allWhite "  Garden ") by (apply not_blank_spec; reflexivity).
  assert (H2 : allWhite "   ") by (apply blank_spec; reflexivity).
  assert (H3 : allWhite (utf8 12288)) by (apply blank_spec; reflexivity).
  destruct (newProjectDoc_orders_last "  Garden " workProjects) as [_ Hadd].
  destruct (newProjectDoc_orders_last "   " workProjects) as [Hnone _].
  destruct (newProjectDoc_orders_last (utf8 12288) workProjects) as [Hwide _].
  split; [exact H1 |].
  destruct (Hadd H1) as (name & order & top & E & _).
  split; [reflexivity |]. split; [exact H2 |]. split; [exact (Hnone H2) |].
  split; [exact H3 | exact (Hwide H3)].
Defined.

Section ProjectListFacts.

Variable nowAt : nat -> string.
Variable window_confirm : string -> bool.

(** X22: a project is shown in the Active section exactly when its state is
    [active] and in the Completed section exactly when its state is [done],
    never in both, and in neither when its state is anything else.  After a
    status change to [done] that is not declined, no project with the
    selected id is left in the Active section and every project that had the
    selected id is in the Completed section, while the projects with another
    id stay where they were. *)
Theorem project_sections_after_done (sel : string) (w : World) :
  let n := List.length
             (filter notDone
                (filter (fun t => optEqb (Task.projectId t) (Some sel)) (tasks w))) in
  let w' := onProjectStatusChange nowAt window_confirm sel "done" w in
  (forall ps p, In p (activeProjects ps) <-> In p ps /\ Project.state p = "active") /\
  (forall ps p, In p (doneProjects ps) <-> In p ps /\ Project.state p = "done") /\
  (forall ps p, In p (activeProjects ps) -> ~ In p (doneProjects ps)) /\
  (n = 0 \/ window_confirm (projectPrompt n) = true ->
   (forall p', In p' (activeProjects (projects w')) -> Project.id p' <> sel) /\
   (forall p, In p (projects w) -> Project.id p = sel ->
              In (withProjectState p "done") (doneProjects (projects w'))) /\
   (forall p, Project.id p <> sel ->
              (In p (activeProjects (projects w')) <-> In p (activeProjects (projects w))) /\
              (In p (doneProjects (projects w')) <-> In p (doneProjects (projects w))))).
Proof.
  intros n w'.
  assert (Ha : forall ps p, In p (activeProjects ps) <->
                            In p ps /\ Project.state p = "active").
  { intros ps p. unfold activeProjects. now rewrite filter_In, String.eqb_eq. }
  assert (Hd : forall ps p, In p (doneProjects ps) <->
                            In p ps /\ Project.state p = "done").
  { intros ps p. unfold doneProjects. now rewrite filter_In, String.eqb_eq. }
  split; [exact Ha |]. split; [exact Hd |]. split.
  { intros ps p H1 H2. apply Ha in H1. apply Hd in H2.
    destruct H1 as [_ E1], H2 as [_ E2]. rewrite E1 in E2. discriminate E2. }
  intros Hgo.
  assert (Hprojects :
    projects w' =
    map (fun p => if String.eqb (Project.id p) sel
                  then withProjectState p "done" else p) (projects w)).
  { unfold w'. destruct (onProjectStatusChange_done nowAt window_confirm sel w)
      as (_ & Hz & Hy). fold n in Hz, Hy.
    destruct (Nat.eq_dec n 0) as [Hn | Hn].
    - rewrite (Hz Hn). reflexivity.
    - destruct Hgo as [Hx | Hx]; [contradiction |].
      destruct (Hy ltac:(lia) Hx) as (next & clk & E & _). rewrite E. reflexivity. }
  rewrite Hprojects.
  assert (Himg : forall q, In q (map (fun p => if String.eqb (Project.id p) sel
                                               then withProjectState p "done" else p)
                                   (projects w)) <->
                           exists p, In p (projects w) /\
                             q = if String.eqb (Project.id p) sel
                                 then withProjectState p "done" else p).
  { intros q. rewrite in_map_iff. split; intros (p & H1 & H2); exists p; auto. }
  split; [| split].
  - intros p' Hp' E. apply Ha in Hp'. destruct Hp' as [Hin Hst].
    apply Himg in Hin. destruct Hin as (p & _ & ->).
    destruct (String.eqb_spec (Project.id p) sel) as [Ep | Ep].
    + discriminate Hst.
    + contradiction.
  - intros p Hp E. apply Hd. split; [| reflexivity].
    apply Himg. exists p. split; [exact Hp |]. rewrite E, String.eqb_refl. reflexivity.
  - intros p Hne.
    assert (Hsame : In p (map (fun p => if String.eqb (Project.id p) sel
                                        then withProjectState p "done" else p)
                            (projects w)) <-> In p (projects w)).
    { rewrite Himg. split.
      - intros (q & Hq & E).
        destruct (String.eqb_spec (Project.id q) sel) as [Eq | Eq].
        + subst p. simpl in Hne. contradiction.
        + now subst p.
      - intros Hp. exists p. split; [exact Hp |].
        destruct (String.eqb_spec (Project.id p) sel); [contradiction | reflexivity]. }
    rewrite !Ha, !Hd, Hsame. tauto.
Qed.

End ProjectListFacts.

Lemma project_sections_after_done_witness :
  let w' := onProjectStatusChange sampleClock alwaysYes "p-work" "done" workWorld in
  alwaysYes (projectPrompt 2) = true /\
  map Project.id (activeProjects (projects workWorld)) = ["p-home"; "p-work"] /\
  map Project.id (activeProjects (projects w')) = ["p-home"] /\
  map Project.id (doneProjects (projects w')) = ["p-work"] /\
  forall p', In p' (activeProjects (projects w')) -> Project.id p' <> "p-work".
Proof.
  intros w'.
  destruct (project_sections_after_done sampleClock alwaysYes "p-work" workWorld)
    as (_ & _ & _ & H).
  destruct (H (or_intror eq_refl)) as (Hgone & _).
  split; [reflexivity |]. split; [reflexivity |]. split; [reflexivity |].
  split; [reflexivity | exact Hgone].
Defined.

(** X23: the count on a project card is the number of tasks the Project view
    shows for that project. *)
Theorem projectTaskCount_is_view_size (tasks : list Task) (project : Project) :
  Project.id project <> "" ->
  projectTaskCount tasks project =
    List.length (projectTasks tasks (Some (Project.id project))).
Proof.
  intros Hne. unfold projectTaskCount, projectTasks.
  destruct (String.eqb_spec (Project.id project) "") as [E | _]; [contradiction |].
  symmetry. apply Permutation_length. apply sortBy_perm.
Qed.

Lemma projectTaskCount_is_view_size_witness :
  let work := Project.mk "p-work" "Work" "active" 20 "2025-10-01T08:00:00.000Z" in
  Project.id work <> "" /\ projectTaskCount workTasks work = 3.
Proof.
  intros work. assert (Hne : Project.id work <> "") by discriminate.
  split; [exact Hne |].
  rewrite (projectTaskCount_is_view_size workTasks work Hne). reflexivity.
Defined.
